(** * Shadow-RC: pulse decoder, combo recognizer, drive mapping and automation

  A shallow embedding of the control core of the Shadow-RC sketch
  (Arduino Mega 2560) and the properties of its specification.

  Conventions.
  - [int] is the 16-bit signed integer of the AVR target, [unsigned long]
    the 32-bit unsigned one; both are carried by [Z] with the wrap-around
    written out where the source converts or subtracts.
  - [float] values are carried by [R].  In the mode models arithmetic is
    exact, rounding of the 32-bit float is left out; [pow] keeps the
    special cases of the C library at a zero base or a zero exponent.  The
    curve helpers are also given with every float operation rounded
    ([RoundedManualMode], [RoundedHybridMode]), over an arithmetic
    ([FloatArith]) of which [Binary32] gives the rounding of the target.
  - [millis()], [micros()], [pulseIn()] and the raw draws of [random()] are
    inputs of the function that reads them.
  - Commands written to the motor controllers and to the audio board are
    returned as a list of events, oldest first.  Serial debug text is
    left out. *)

From Stdlib Require Import ZArith Bool List Lia Reals Lra.
Import ListNotations.
Open Scope Z_scope.

(** ** Arduino core primitives used by the sketch *)

Module Arduino.

(** [unsigned long] arithmetic is modulo 2^32. *)
Definition wrap32 (z : Z) : Z := z mod 2 ^ 32.

(** Conversion to the 16-bit [int] of the target. *)
Definition to_int (z : Z) : Z := (z + 2 ^ 15) mod 2 ^ 16 - 2 ^ 15.

(** [a - b] on two [unsigned long] values. *)
Definition usub (a b : Z) : Z := wrap32 (a - b).

(** [a + b] on two [unsigned long] values. *)
Definition uadd (a b : Z) : Z := wrap32 (a + b).

(** [constrain(x, lo, hi)]. *)
Definition constrain (x lo hi : Z) : Z :=
  if x <? lo then lo else if hi <? x then hi else x.

(** [map(x, in_min, in_max, out_min, out_max)]: long arithmetic, the
    division truncates toward zero. *)
Definition map (x in_min in_max out_min out_max : Z) : Z :=
  Z.quot ((x - in_min) * (out_max - out_min)) (in_max - in_min) + out_min.

(** The [abs] macro. *)
Definition abs (x : Z) : Z := if 0 <? x then x else - x.

(** [random(lo, hi)] on a raw non-negative draw of the generator:
    a value in [lo, hi - 1], or [lo] when the range is empty. *)
Definition random (lo hi raw : Z) : Z :=
  if hi <=? lo then lo else lo + raw mod (hi - lo).

Definition HIGH : Z := 1.
Definition LOW : Z := 0.

End Arduino.

(** ** Pulse Decoder (PWMInputHandler.cpp) *)

Module PWMInputHandler.
Import Arduino.

Inductive Channel : Set := CH1 | CH2 | CH1B.

(** The handler currently attached to a pin by [attachInterrupt]. *)
Inductive Attached : Set := Detached | OnRising | OnFalling.

Record State : Set := mkState {
  ch1_value  : Z;
  ch2_value  : Z;
  ch1b_value : Z;
  ch1_start  : Z;
  ch2_start  : Z;
  ch1b_start : Z;
  ch1_isr    : Attached;
  ch2_isr    : Attached;
  ch1b_isr   : Attached
}.

(** Values of the globals before [setupPWMInputs]. *)
Definition initial : State :=
  mkState 1500 1500 1500 0 0 0 Detached Detached Detached.

(** [setupPWMInputs]: channel 1B is attached only in modes 1 and 4. *)
Definition setupPWMInputs (currentMode : Z) (s : State) : State :=
  mkState (ch1_value s) (ch2_value s) (ch1b_value s)
          (ch1_start s) (ch2_start s) (ch1b_start s)
          OnRising OnRising
          (if (currentMode =? 1) || (currentMode =? 4)
           then OnRising else ch1b_isr s).

Definition getPWMValue_CH1A (s : State) : Z := ch1_value s.
Definition getPWMValue_CH2A (s : State) : Z := ch2_value s.
Definition getPWMValue_CH1B (s : State) : Z := ch1b_value s.

(** The six interrupt handlers; [micros] is the value of [micros()]. *)
Definition ch1_rise (micros : Z) (s : State) : State :=
  mkState (ch1_value s) (ch2_value s) (ch1b_value s)
          micros (ch2_start s) (ch1b_start s)
          OnFalling (ch2_isr s) (ch1b_isr s).

Definition ch1_fall (micros : Z) (s : State) : State :=
  mkState (to_int (usub micros (ch1_start s))) (ch2_value s) (ch1b_value s)
          (ch1_start s) (ch2_start s) (ch1b_start s)
          OnRising (ch2_isr s) (ch1b_isr s).

Definition ch2_rise (micros : Z) (s : State) : State :=
  mkState (ch1_value s) (ch2_value s) (ch1b_value s)
          (ch1_start s) micros (ch1b_start s)
          (ch1_isr s) OnFalling (ch1b_isr s).

Definition ch2_fall (micros : Z) (s : State) : State :=
  mkState (ch1_value s) (to_int (usub micros (ch2_start s))) (ch1b_value s)
          (ch1_start s) (ch2_start s) (ch1b_start s)
          (ch1_isr s) OnRising (ch1b_isr s).

Definition ch1b_rise (micros : Z) (s : State) : State :=
  mkState (ch1_value s) (ch2_value s) (ch1b_value s)
          (ch1_start s) (ch2_start s) micros
          (ch1_isr s) (ch2_isr s) OnFalling.

Definition ch1b_fall (micros : Z) (s : State) : State :=
  mkState (ch1_value s) (ch2_value s) (to_int (usub micros (ch1b_start s)))
          (ch1_start s) (ch2_start s) (ch1b_start s)
          (ch1_isr s) (ch2_isr s) OnRising.

(** Per-channel views, to state properties for every channel at once. *)
Definition value (c : Channel) (s : State) : Z :=
  match c with
  | CH1 => ch1_value s | CH2 => ch2_value s | CH1B => ch1b_value s
  end.

Definition start (c : Channel) (s : State) : Z :=
  match c with
  | CH1 => ch1_start s | CH2 => ch2_start s | CH1B => ch1b_start s
  end.

Definition attached (c : Channel) (s : State) : Attached :=
  match c with
  | CH1 => ch1_isr s | CH2 => ch2_isr s | CH1B => ch1b_isr s
  end.

Definition rise (c : Channel) : Z -> State -> State :=
  match c with
  | CH1 => ch1_rise | CH2 => ch2_rise | CH1B => ch1b_rise
  end.

Definition fall (c : Channel) : Z -> State -> State :=
  match c with
  | CH1 => ch1_fall | CH2 => ch2_fall | CH1B => ch1b_fall
  end.

(** A pin edge: the hardware runs the handler attached for that edge. *)
Inductive PinEdge : Set := Rising | Falling.

Definition interrupt (c : Channel) (e : PinEdge) (micros : Z) (s : State)
  : State :=
  match e, attached c s with
  | Rising, OnRising => rise c micros s
  | Falling, OnFalling => fall c micros s
  | _, _ => s
  end.

(** The pulse width a falling edge at [micros] measures. *)
Definition pulse_width (c : Channel) (micros : Z) (s : State) : Z :=
  usub micros (start c s).

(** The validity band of the radio input contract. *)
Definition invalid_reading (w : Z) : Prop := w = 0 \/ w < 900 \/ 2200 < w.

End PWMInputHandler.

(** ** Mode/Combo Recognizer (ComboHandler.cpp) *)

Module ComboHandler.
Import Arduino.

Definition HIGH_THRESHOLD  : Z := 1700.
Definition LOW_THRESHOLD   : Z := 1300.
Definition COMBO_DOWN_MIN  : Z := 900.
Definition COMBO_DOWN_MAX  : Z := 1300.
Definition COMBO_UP_MIN    : Z := 1700.
Definition COMBO_UP_MAX    : Z := 2100.
Definition COMBO_LEFT_MAX  : Z := 1300.
Definition COMBO_RIGHT_MIN : Z := 1700.
Definition comboResetDelay : Z := 1000.

(** The serial commands sent to the MarcDuino board, named after the
    sequence they select (":SE03\r" is [SE03], and so on). *)
Inductive MarcDuino : Set := SE03 | SE00 | SE02 | SE01 | SE10 | SE06.

(** The four latches of a momentary button. *)
Record Trig : Set := mkTrig {
  trigDown  : bool;
  trigUp    : bool;
  trigLeft  : bool;
  trigRight : bool
}.

Record State : Set := mkState {
  last_CH3  : Z;
  last_CH4  : Z;
  last_CH5  : Z;
  last_CH3B : Z;
  last_CH4B : Z;
  last_CH5B : Z;
  hasTriggered_CH6_A : Trig;
  hasTriggered_CH6_B : Trig;
  currentCombo   : Z;
  currentMode    : Z;
  lastCombo      : Z;
  lastMode       : Z;
  comboTimestamp : Z;
  (** owned by the MP3 handler, written here through
      [disableMP3Triggers] and [enableMP3Triggers] *)
  mp3TriggersEnabled : bool
}.

Definition initial : State :=
  mkState (-1) (-1) (-1) (-1) (-1) (-1)
          (mkTrig false false false false) (mkTrig false false false false)
          0 1 0 0 0 true.

(** The [pulseIn] readings and the two [millis()] readings of one call of
    [updateComboHandler], each already converted to [int]. *)
Record Inputs : Set := mkInputs {
  ch1a_pwm : Z;
  ch2a_pwm : Z;
  ch1b_pwm : Z;
  ch2b_pwm : Z;
  pwm_CH3  : Z;
  pwm_CH4  : Z;
  pwm_CH5  : Z;
  pwm_CH6  : Z;
  pwm_CH3B : Z;
  pwm_CH4B : Z;
  pwm_CH5B : Z;
  pwm_CH6B : Z;
  millis_handle : Z;
  millis_watch  : Z
}.

Definition comboDown (i : Inputs) : bool :=
  ((COMBO_DOWN_MIN <=? ch2a_pwm i) && (ch2a_pwm i <=? COMBO_DOWN_MAX))
  || ((COMBO_DOWN_MIN <=? ch2b_pwm i) && (ch2b_pwm i <=? COMBO_DOWN_MAX)).

Definition comboUp (i : Inputs) : bool :=
  ((COMBO_UP_MIN <=? ch2a_pwm i) && (ch2a_pwm i <=? COMBO_UP_MAX))
  || ((COMBO_UP_MIN <=? ch2b_pwm i) && (ch2b_pwm i <=? COMBO_UP_MAX)).

Definition comboLeft (i : Inputs) : bool :=
  ((0 <? ch1a_pwm i) && (ch1a_pwm i <=? COMBO_LEFT_MAX))
  || ((0 <? ch1b_pwm i) && (ch1b_pwm i <=? COMBO_LEFT_MAX)).

Definition comboRight (i : Inputs) : bool :=
  ((0 <? ch1a_pwm i) && (COMBO_RIGHT_MIN <=? ch1a_pwm i))
  || ((0 <? ch1b_pwm i) && (COMBO_RIGHT_MIN <=? ch1b_pwm i)).

(** [detectToggleCombo]: returns the new [currentCombo] and [lastState]. *)
Definition detectToggleCombo (pwm lastState baseCombo : Z)
    (down up left right : bool) (combo : Z) : Z * Z :=
  if 0 <? pwm then
    let state := if HIGH_THRESHOLD <? pwm then HIGH else LOW in
    if negb (state =? lastState) then
      (if down then baseCombo
       else if up then baseCombo + 4
       else if left then baseCombo + 8
       else if right then baseCombo + 12
       else combo,
       state)
    else (combo, lastState)
  else (combo, lastState).

(** [detectMomentaryCombo]: returns the new [currentCombo] and latches. *)
Definition detectMomentaryCombo (pwm : Z) (t : Trig) (baseCombo : Z)
    (down up left right : bool) (combo : Z) : Z * Trig :=
  if 0 <? pwm then
    let fire (dir latched : bool) := dir && (1900 <=? pwm) && negb latched in
    let c1 := if fire down (trigDown t) then baseCombo else combo in
    let d  := if fire down (trigDown t) then true else trigDown t in
    let c2 := if fire up (trigUp t) then baseCombo + 4 else c1 in
    let u  := if fire up (trigUp t) then true else trigUp t in
    let c3 := if fire left (trigLeft t) then baseCombo + 8 else c2 in
    let l  := if fire left (trigLeft t) then true else trigLeft t in
    let c4 := if fire right (trigRight t) then baseCombo + 12 else c3 in
    let r  := if fire right (trigRight t) then true else trigRight t in
    if pwm <? LOW_THRESHOLD
    then (c4, mkTrig false false false false)
    else (c4, mkTrig d u l r)
  else (combo, t).

(** The eight detector calls that open [updateComboHandler]. *)
Definition detectCombos (i : Inputs) (s : State) : State :=
  let dn := comboDown i in
  let up := comboUp i in
  let lf := comboLeft i in
  let rt := comboRight i in
  let '(c1, l3) := detectToggleCombo (pwm_CH3 i) (last_CH3 s) 1 dn up lf rt
                     (currentCombo s) in
  let '(c2, l4) := detectToggleCombo (pwm_CH4 i) (last_CH4 s) 2 dn up lf rt c1 in
  let '(c3, l5) := detectToggleCombo (pwm_CH5 i) (last_CH5 s) 3 dn up lf rt c2 in
  let '(c4, ta) := detectMomentaryCombo (pwm_CH6 i) (hasTriggered_CH6_A s) 4
                     dn up lf rt c3 in
  let '(c5, l3b) := detectToggleCombo (pwm_CH3B i) (last_CH3B s) 17
                      dn up lf rt c4 in
  let '(c6, l4b) := detectToggleCombo (pwm_CH4B i) (last_CH4B s) 18
                      dn up lf rt c5 in
  let '(c7, l5b) := detectToggleCombo (pwm_CH5B i) (last_CH5B s) 19
                      dn up lf rt c6 in
  let '(c8, tb) := detectMomentaryCombo (pwm_CH6B i) (hasTriggered_CH6_B s) 20
                     dn up lf rt c7 in
  mkState l3 l4 l5 l3b l4b l5b ta tb
          c8 (currentMode s) (lastCombo s) (lastMode s) (comboTimestamp s)
          (mp3TriggersEnabled s).

Definition with_combo (s : State) (combo mode lastc lastm ts : Z) (en : bool)
  : State :=
  mkState (last_CH3 s) (last_CH4 s) (last_CH5 s)
          (last_CH3B s) (last_CH4B s) (last_CH5B s)
          (hasTriggered_CH6_A s) (hasTriggered_CH6_B s)
          combo mode lastc lastm ts en.

(** "Mode Switching". *)
Definition modeSwitching (s : State) : State :=
  if (1 <=? currentCombo s) && (currentCombo s <=? 4)
     && negb (currentCombo s =? currentMode s)
  then with_combo s 0 (currentCombo s) (lastCombo s) (lastMode s)
                  (comboTimestamp s) (mp3TriggersEnabled s)
  else s.

(** "Debug Mode Print": only [lastMode] changes. *)
Definition debugModePrint (s : State) : State :=
  if negb (currentMode s =? lastMode s)
  then with_combo s (currentCombo s) (currentMode s) (lastCombo s)
                  (currentMode s) (comboTimestamp s) (mp3TriggersEnabled s)
  else s.

(** The mode whitelist tested by "Handle Combos". *)
Definition comboAllowed (mode combo : Z) : bool :=
  (((mode =? 1) || (mode =? 4)) && (combo <=? 8))
  || ((mode =? 3) && (combo <=? 16))
  || (mode =? 2).

(** The [switch (currentCombo)] of an accepted combo: the command sent and
    the new value of [mp3TriggersEnabled]. *)
Definition comboAction (combo : Z) (enabled : bool) : list MarcDuino * bool :=
  if combo =? 5 then ([SE03], false)
  else if combo =? 6 then ([SE00], true)
  else if combo =? 7 then ([SE02], false)
  else if combo =? 8 then ([SE01], false)
  else if combo =? 9 then ([SE10], enabled)
  else if combo =? 10 then ([SE06], enabled)
  else ([], enabled).

(** "Handle Combos"; [now] is the [millis()] read for [comboTimestamp]. *)
Definition handleCombos (now : Z) (s : State) : State * list MarcDuino :=
  if negb (currentCombo s =? lastCombo s) && (4 <? currentCombo s) then
    if comboAllowed (currentMode s) (currentCombo s) then
      let '(out, en) := comboAction (currentCombo s) (mp3TriggersEnabled s) in
      (with_combo s (currentCombo s) (currentMode s) (currentCombo s)
                  (lastMode s) now en, out)
    else
      (with_combo s 0 (currentMode s) 0 (lastMode s) (comboTimestamp s)
                  (mp3TriggersEnabled s), [])
  else (s, []).

(** The one-second watchdog that closes [updateComboHandler]. *)
Definition comboWatchdog (now : Z) (s : State) : State :=
  if (4 <? currentCombo s)
     && (comboResetDelay <? usub now (comboTimestamp s))
  then with_combo s 0 (currentMode s) (lastCombo s) (lastMode s)
                  (comboTimestamp s) (mp3TriggersEnabled s)
  else s.

Definition updateComboHandler (i : Inputs) (s : State)
  : State * list MarcDuino :=
  let s1 := detectCombos i s in
  let s2 := debugModePrint (modeSwitching s1) in
  let '(s3, out) := handleCombos (millis_handle i) s2 in
  (comboWatchdog (millis_watch i) s3, out).

(** The combo id the detectors leave in [currentCombo]. *)
Definition detected (i : Inputs) (s : State) : Z :=
  currentCombo (detectCombos i s).

(** [isComboModeActive(mode)] on its four [pulseIn] readings. *)
Definition isComboModeActive (mode ch1a ch2a ch1b ch2b : Z) : bool :=
  let down x := (COMBO_DOWN_MIN <=? x) && (x <=? COMBO_DOWN_MAX) in
  let up x := (COMBO_UP_MIN <=? x) && (x <=? COMBO_UP_MAX) in
  let left x := (0 <? x) && (x <=? COMBO_LEFT_MAX) in
  let right x := (0 <? x) && (COMBO_RIGHT_MIN <=? x) in
  if mode =? 1 then down ch2b || up ch2b
  else if mode =? 2 then
    down ch2a || up ch2a || left ch1a || right ch1a
    || down ch2b || up ch2b || left ch1b || right ch1b
  else if mode =? 3 then down ch2b || up ch2b || left ch1b || right ch1b
  else if mode =? 4 then down ch2b || left ch1b || right ch1b
  else false.

(** The whitelist as the specification words it: ids 5 to 8 in modes 1 and
    4, ids 5 to 16 in mode 3, every id in mode 2. *)
Definition whitelisted (mode combo : Z) : Prop :=
  ((mode = 1 \/ mode = 4) /\ 5 <= combo <= 8)
  \/ (mode = 3 /\ 5 <= combo <= 16)
  \/ mode = 2.

End ComboHandler.

(** ** Float arithmetic of the sketch *)

Module FloatModel.

(** A cast from [float] to an integer type: truncation toward zero. *)
Definition truncate (x : R) : Z :=
  if Rle_dec 0 x then Int_part x else - Int_part (- x).

(** [pow(x, y)] of the C library, for the bases the sketch passes
    ([x >= 0]) and [y >= 0]: [pow(x, 0)] is 1 for every [x], zero included;
    [pow(0, y)] is 0 for [y > 0]; otherwise [exp(y * ln x)]. *)
Definition pow (x y : R) : R :=
  if Req_dec_T y 0 then 1%R
  else if Rle_dec x 0 then 0%R
  else Rpower x y.

End FloatModel.

(** ** Manual mode (ManualMode.cpp) *)

Module ManualMode.
Import Arduino FloatModel.

(** Tunable settings. *)
Definition expoCurve : R := 1.
Definition speedLimit : Z := 25.
Definition deadZone : Z := 0.
Definition taperFallRate : Z := 60.
Definition domeDeadZone : Z := 0.
Definition fineControlMultiplier : Z := 2.
Definition domeSpeedLimit : Z := 100.
Definition domeLeftGain : R := 1.
Definition domeRightGain : R := 1.
Definition domeFlickMinDuration : Z := 40.
Definition domeFlickThreshold : Z := 5.
Definition maxFlickSpeed : Z := 20.
Definition motorTimeoutMs : Z := 50.
Definition frameIntervalMicros : Z := 5000.

(** [applyExpoCurve(input, curve, limit)]. *)
Definition applyExpoCurve (input : Z) (curve : R) (limit : Z) : Z :=
  let normalized := (IZR (abs input) / 127)%R in
  let curved := (pow normalized curve * IZR limit)%R in
  if 0 <=? input then truncate curved else - truncate curved.

(** [taperToZero(value)]. *)
Definition taperToZero (value : Z) : Z :=
  let taperRate := map (abs value) 0 speedLimit 5 taperFallRate in
  let value' :=
    if 0 <? value then value - taperRate
    else if value <? 0 then value + taperRate
    else value in
  constrain value' (- speedLimit) speedLimit.

(** Commands written to the Sabertooth (address 128) and to the SyRen
    (address 129). *)
Inductive Command : Set :=
| Drive (power : Z)
| Turn (power : Z)
| Dome (power : Z).

Record State : Set := mkState {
  domeInput            : Z;
  currentDomeSpeed     : Z;
  lastSentDomeSpeed    : Z;
  lastDrive            : Z;
  lastTurn             : Z;
  savedTurnSpeed       : Z;
  previousDomeMillis   : Z;
  lastDriveCommandTime : Z;
  lastTurnCommandTime  : Z;
  domeStartTime        : Z;
  domeFlickActive      : bool;
  wasTurnInputActive   : bool;
  lastKillState        : bool;
  lastFrameMicros      : Z
}.

Definition initial : State :=
  mkState 0 0 0 0 0 0 0 0 0 0 false false false 0.

(** What one call of [loopManualMode] reads: the two clocks, the decoder's
    channel values and the four [pulseIn] readings of the kill check. *)
Record Inputs : Set := mkInputs {
  nowMicros : Z;
  millis    : Z;
  pwm       : PWMInputHandler.State;
  kill_ch1a : Z;
  kill_ch2a : Z;
  kill_ch1b : Z;
  kill_ch2b : Z
}.

(** The safety timeout applied to one axis:
    [if (now - lastCommandTime > motorTimeoutMs) last = 0;]. *)
Definition safetyTimeout (now lastCommandTime last : Z) : Z :=
  if motorTimeoutMs <? usub now lastCommandTime then 0 else last.

Definition loopManualMode (i : Inputs) (s : State) : State * list Command :=
  if usub (nowMicros i) (lastFrameMicros s) <? frameIntervalMicros
  then (s, [])
  else
    let now := millis i in
    let rawTurn  := PWMInputHandler.getPWMValue_CH1A (pwm i) in
    let rawDrive := PWMInputHandler.getPWMValue_CH2A (pwm i) in
    let rawDome  := PWMInputHandler.getPWMValue_CH1B (pwm i) in
    let mappedTurn0  := map (constrain rawTurn 1000 2000) 1000 2000 (-127) 127 in
    let mappedDrive0 := map (constrain rawDrive 1000 2000) 1000 2000 (-127) 127 in
    let constrainedDome := constrain rawDome 1000 2000 in
    let domeInput' :=
      if 1500 <=? constrainedDome
      then truncate (IZR (map constrainedDome 1500 2000 0 100) * domeRightGain)
      else truncate (IZR (map constrainedDome 1000 1500 (-100) 0) * domeLeftGain) in
    (* deadzones *)
    let mappedDrive := if abs mappedDrive0 <=? deadZone then 0 else mappedDrive0 in
    let mappedTurn1 := if abs mappedTurn0 <=? deadZone then 0 else mappedTurn0 in
    let mappedTurn :=
      if 40 <? abs mappedDrive then constrain mappedTurn1 (-100) 100
      else mappedTurn1 in
    let lastTurn0 :=
      if (mappedDrive =? 0) && negb (mappedTurn =? 0)
      then constrain (lastTurn s) (-40) 40 else lastTurn s in
    (* exponential curve *)
    let rawCurvedDome := applyExpoCurve domeInput' expoCurve domeSpeedLimit in
    let curvedDome0 :=
      if domeFlickActive s then rawCurvedDome
      else rawCurvedDome * fineControlMultiplier in
    let curvedDrive := applyExpoCurve mappedDrive expoCurve speedLimit in
    let curvedTurn  := applyExpoCurve mappedTurn expoCurve speedLimit in
    (* drive / turn logic *)
    let lastDrive1 := curvedDrive in
    let lastDriveCommandTime' := now in
    let lastTurn1 :=
      if (mappedTurn =? 0) && wasTurnInputActive s then 0
      else if mappedTurn =? 0 then 0
      else curvedTurn in
    let savedTurnSpeed' :=
      if mappedTurn =? 0 then savedTurnSpeed s else curvedTurn in
    let lastTurnCommandTime' :=
      if mappedTurn =? 0 then lastTurnCommandTime s else now in
    let wasTurnInputActive' := negb (mappedTurn =? 0) in
    (* kill switch *)
    let killActive :=
      ComboHandler.isComboModeActive 1 (kill_ch1a i) (kill_ch2a i)
                                     (kill_ch1b i) (kill_ch2b i) in
    let lastKillState' :=
      if negb (Bool.eqb killActive (lastKillState s)) then killActive
      else lastKillState s in
    let lastDrive2 := if killActive then 0 else lastDrive1 in
    let lastTurn2  := if killActive then 0 else lastTurn1 in
    let curvedDome := if killActive then 0 else curvedDome0 in
    (* dome logic with flick control *)
    let inDomeDeadZone := abs domeInput' <? domeDeadZone in
    let flickHolds :=
      domeFlickActive s
      && (usub now (domeStartTime s) <? domeFlickMinDuration) in
    let currentDomeSpeed' :=
      if inDomeDeadZone then
        if flickHolds
        then constrain (lastSentDomeSpeed s) (- maxFlickSpeed) maxFlickSpeed
        else 0
      else curvedDome in
    let domeFlickActive' :=
      if inDomeDeadZone then
        if flickHolds then domeFlickActive s else false
      else if domeFlickThreshold <=? abs curvedDome then true
           else domeFlickActive s in
    let domeStartTime' :=
      if inDomeDeadZone then domeStartTime s
      else if domeFlickThreshold <=? abs curvedDome then now
           else domeStartTime s in
    (* safety timeout *)
    let lastDrive3 := safetyTimeout now lastDriveCommandTime' lastDrive2 in
    let lastTurn3  := safetyTimeout now lastTurnCommandTime' lastTurn2 in
    (* motor outputs *)
    let domeChanged := negb (currentDomeSpeed' =? lastSentDomeSpeed s) in
    (mkState domeInput' currentDomeSpeed'
             (if domeChanged then currentDomeSpeed' else lastSentDomeSpeed s)
             lastDrive3 lastTurn3 savedTurnSpeed'
             (if domeChanged then now else previousDomeMillis s)
             lastDriveCommandTime' lastTurnCommandTime'
             domeStartTime' domeFlickActive' wasTurnInputActive'
             lastKillState' (nowMicros i),
     Drive lastDrive3 :: Turn lastTurn3
       :: (if domeChanged then [Dome currentDomeSpeed'] else [])).

(** The curve for exponent 1, in integer arithmetic. *)
Definition applyExpoCurve_linear (input limit : Z) : Z :=
  let q := Z.quot (abs input * limit) 127 in
  if 0 <=? input then q else - q.

End ManualMode.

(** ** Automated mode (AutomatedMode.cpp, the randomized variant) *)

Module AutomatedMode.
Import Arduino FloatModel.

(** Tunable parameters. *)
Definition domeMinAngle : Z := 10.
Definition domeMaxAngle : Z := 45.
Definition minDelayMs : Z := 8000.
Definition maxDelayMs : Z := 12000.
Definition movesBeforeCenter : Z := 2.
Definition mp3MinIntervalSec : R := 20.
Definition mp3MaxIntervalSec : R := 60.
Definition modeDelayMillis : Z := 3000.

(** Sound banks.  The source writes them with a leading zero, which makes
    them octal literals: 016 is 14, 031 is 25, 035 is 29, 061 is 49 and
    076 is 62. *)
Definition AUTO_HAPPY_START : Z := 1.
Definition AUTO_HAPPY_END   : Z := 14.
Definition AUTO_SAD_START   : Z := 25.
Definition AUTO_SAD_END     : Z := 29.
Definition AUTO_TALK_START  : Z := 49.
Definition AUTO_TALK_END    : Z := 62.

(** Timing calibration and speed settings of [runDomeAutomation]. *)
Definition baseMsPerDegree : R := 1700 / 90.
Definition curveFactor : R := 14 / 10.
Definition minSpeed : Z := 25.
Definition maxSpeed : Z := 32.
Definition baseSpeed : Z := 30.

(** What the mode writes: [domeMotor.motor(1, power)] and
    [mp3.trigger(track)]. *)
Inductive Event : Set :=
| Motor (power : Z)
| Mp3 (track : Z).

Record State : Set := mkState {
  lastMoveTime   : Z;
  nextMoveDelay  : Z;
  lastMP3Time    : Z;
  nextMP3Delay   : Z;
  lastKillState  : bool;
  modeEntryTime  : Z;
  domeMoving     : bool;
  domeOffset     : Z;
  moveCount      : Z;
  currentDomeSpeed : Z;
  domeDirection  : Z;
  domeEndTime    : Z;
  (* the statics of [runDomeAutomation] *)
  sequenceSpeed  : Z;
  sequenceStarted : bool;
  lastMoveDirection : Z
}.

Definition initial : State :=
  mkState 0 0 0 0 false 0 false 0 0 0 0 0 baseSpeed false 0.

(** [setupAutomatedMode] at time [now]. *)
Definition setupAutomatedMode (now : Z) (s : State) : State :=
  mkState (lastMoveTime s) (nextMoveDelay s) (lastMP3Time s) (nextMP3Delay s)
          (lastKillState s) now (domeMoving s) (domeOffset s) (moveCount s)
          (currentDomeSpeed s) (domeDirection s) (domeEndTime s)
          (sequenceSpeed s) (sequenceStarted s) (lastMoveDirection s).

(** The raw draws of [random()] one call of [runDomeAutomation] may use. *)
Record DomeDraws : Set := mkDomeDraws {
  rDelay     : Z;
  rSpeed     : Z;
  rDirection : Z;
  rAngle     : Z
}.

(** The raw draws one call of [runAutoMP3] may use. *)
Record Mp3Draws : Set := mkMp3Draws {
  rCategory : Z;
  rTrack    : Z;
  rInterval : Z
}.

(** [fabs(domeOffset) > 0.5]. *)
Definition offsetBeyondEpsilon (offset : Z) : bool :=
  if Rlt_dec (5 / 10) (Rabs (IZR offset)) then true else false.

(** Milliseconds per degree for a move at [speed]: the base rate scaled by
    the speed curve, then the directional factor of a free move. *)
Definition adjustedMsPerDegree (speed : Z) (isReturnMove : bool)
    (direction : Z) : R :=
  let speedRatio := (IZR baseSpeed / IZR speed)%R in
  let scaleFactor := pow speedRatio curveFactor in
  let adjusted := (baseMsPerDegree * scaleFactor)%R in
  if negb isReturnMove && (0 <? direction) then (adjusted * (106 / 100))%R
  else if negb isReturnMove && (direction <? 0) then (adjusted * (96 / 100))%R
  else adjusted.

Definition finishMove (s : State) : State :=
  mkState (lastMoveTime s) (nextMoveDelay s) (lastMP3Time s) (nextMP3Delay s)
          (lastKillState s) (modeEntryTime s) false (domeOffset s)
          (moveCount s) (currentDomeSpeed s) (domeDirection s)
          (domeEndTime s) (sequenceSpeed s) (sequenceStarted s)
          (lastMoveDirection s).

Definition runDomeAutomation (now : Z) (r : DomeDraws) (s : State)
  : State * list Event :=
  if domeMoving s then
    if domeEndTime s <=? now then (finishMove s, [Motor 0]) else (s, [])
  else if (usub now (lastMoveTime s) <? nextMoveDelay s)
          || (usub now (modeEntryTime s) <? modeDelayMillis)
  then (s, [])
  else
    let lastMoveTime' := now in
    let nextMoveDelay' := random minDelayMs (maxDelayMs + 1) (rDelay r) in
    (* lock a speed for this sequence *)
    let speed :=
      if negb (sequenceStarted s)
      then random minSpeed (maxSpeed + 1) (rSpeed r)
      else sequenceSpeed s in
    (* return to center or make a new move *)
    let isReturnMove :=
      (movesBeforeCenter <=? moveCount s)
      || offsetBeyondEpsilon (domeOffset s) in
    let direction :=
      if isReturnMove then (if 0 <=? domeOffset s then -1 else 1)
      else (if random 0 2 (rDirection r) =? 0 then -1 else 1) in
    let angle : R :=
      if isReturnMove then Rabs (IZR (domeOffset s))
      else IZR (random domeMinAngle (domeMaxAngle + 1) (rAngle r)) in
    let moveCount' := if isReturnMove then 0 else moveCount s + 1 in
    let sequenceStarted' := if isReturnMove then false else true in
    let adjusted := adjustedMsPerDegree speed isReturnMove direction in
    let duration := truncate (angle * adjusted) in
    let actualAngleMoved := (IZR duration / adjusted)%R in
    let domeOffset' :=
      truncate (IZR (domeOffset s) + IZR direction * actualAngleMoved) in
    (mkState lastMoveTime' nextMoveDelay' (lastMP3Time s) (nextMP3Delay s)
             (lastKillState s) (modeEntryTime s) true domeOffset'
             moveCount' speed direction (uadd now duration)
             speed sequenceStarted'
             (if isReturnMove then lastMoveDirection s else direction),
     [Motor (direction * speed)]).

Definition rescheduleMP3 (now delay : Z) (s : State) : State :=
  mkState (lastMoveTime s) (nextMoveDelay s) now delay
          (lastKillState s) (modeEntryTime s) (domeMoving s) (domeOffset s)
          (moveCount s) (currentDomeSpeed s) (domeDirection s)
          (domeEndTime s) (sequenceSpeed s) (sequenceStarted s)
          (lastMoveDirection s).

(** The track drawn for a category. *)
Definition pickTrack (category rawTrack : Z) : Z :=
  if category =? 0 then random AUTO_HAPPY_START (AUTO_HAPPY_END + 1) rawTrack
  else if category =? 1 then random AUTO_SAD_START (AUTO_SAD_END + 1) rawTrack
  else random AUTO_TALK_START (AUTO_TALK_END + 1) rawTrack.

(** [runAutoMP3]; [suppressed] is the result of [isMP3Suppressed()]. *)
Definition runAutoMP3 (now : Z) (suppressed : bool) (r : Mp3Draws) (s : State)
  : State * list Event :=
  if nextMP3Delay s <? usub now (lastMP3Time s) then
    let out :=
      if negb suppressed
      then [Mp3 (pickTrack (random 0 3 (rCategory r)) (rTrack r))]
      else [] in
    let delay :=
      random (truncate (mp3MinIntervalSec * 1000))
             (truncate (mp3MaxIntervalSec * 1000)) (rInterval r) in
    (rescheduleMP3 now delay s, out)
  else (s, []).

(** What one call of [loopAutomatedMode] reads. *)
Record Inputs : Set := mkInputs {
  kill_ch1a : Z;
  kill_ch2a : Z;
  kill_ch1b : Z;
  kill_ch2b : Z;
  millis_dome : Z;
  millis_mp3  : Z;
  suppressed  : bool;
  domeDraws   : DomeDraws;
  mp3Draws    : Mp3Draws
}.

Definition killActive (i : Inputs) : bool :=
  ComboHandler.isComboModeActive 2 (kill_ch1a i) (kill_ch2a i)
                                 (kill_ch1b i) (kill_ch2b i).

Definition noteKillState (k : bool) (s : State) : State :=
  if negb (Bool.eqb k (lastKillState s)) then
    mkState (lastMoveTime s) (nextMoveDelay s) (lastMP3Time s) (nextMP3Delay s)
            k (modeEntryTime s) (domeMoving s) (domeOffset s)
            (moveCount s) (currentDomeSpeed s) (domeDirection s)
            (domeEndTime s) (sequenceSpeed s) (sequenceStarted s)
            (lastMoveDirection s)
  else s.

Definition loopAutomatedMode (i : Inputs) (s : State) : State * list Event :=
  let s1 := noteKillState (killActive i) s in
  if negb (killActive i) then
    let '(s2, out2) := runDomeAutomation (millis_dome i) (domeDraws i) s1 in
    let '(s3, out3) := runAutoMP3 (millis_mp3 i) (suppressed i) (mp3Draws i) s2 in
    (s3, out2 ++ out3)
  else (s1, []).

(** A run of the main loop in this mode: the state after all the ticks and
    everything written on the way. *)
Fixpoint run (ticks : list Inputs) (s : State) : State * list Event :=
  match ticks with
  | [] => (s, [])
  | i :: rest =>
      let '(s1, out1) := loopAutomatedMode i s in
      let '(s2, out2) := run rest s1 in
      (s2, out1 ++ out2)
  end.

End AutomatedMode.

(** ** Hybrid mode (HybridMode.cpp): curve helper and automation *)

Module HybridMode.
Import Arduino FloatModel.

Definition expoCurve : R := 1.
Definition speedLimit : Z := 25.
Definition minMoveIntervalSec : R := 10.
Definition maxMoveIntervalSec : R := 30.
Definition domeMinAngleDeg : Z := 10.
Definition domeMaxAngleDeg : Z := 90.

(** Octal literals in the source, as in automated mode. *)
Definition HYBRID_HAPPY_START : Z := 1.
Definition HYBRID_HAPPY_END   : Z := 14.
Definition HYBRID_SAD_START   : Z := 25.
Definition HYBRID_SAD_END     : Z := 29.
Definition HYBRID_TALK_START  : Z := 49.
Definition HYBRID_TALK_END    : Z := 62.

(** [applyExpoCurve(input, curve)]: the limit is the global [speedLimit]. *)
Definition applyExpoCurve (input : Z) (curve : R) : Z :=
  let normalized := (IZR (abs input) / 127)%R in
  let curved := (pow normalized curve * IZR speedLimit)%R in
  if 0 <=? input then truncate curved else - truncate curved.

(** Constants local to [runDomeAutomation]. *)
Definition baseMsPerDegree : R := 1700 / 90.
Definition curveFactor : R := 14 / 10.
Definition baseSpeed : Z := 30.
Definition minSpeed : Z := 25.
Definition maxSpeed : Z := 32.

Definition Event : Set := AutomatedMode.Event.

(** The automation state of the mode: [modeEntryTime], [currentDomeSpeed]
    and the statics of [runDomeAutomation] and [runAutoMP3]. *)
Record State : Set := mkState {
  modeEntryTime   : Z;
  currentDomeSpeed : Z;
  lastMoveTime    : Z;
  nextMoveDelay   : Z;
  domeMoving      : bool;
  domeOffset      : Z;
  moveCount       : Z;
  domeDirection   : Z;
  sequenceSpeed   : Z;
  sequenceStarted : bool;
  domeEndTime     : Z;
  lastMP3Time     : Z;
  nextMP3Delay    : Z
}.

Definition initial : State :=
  mkState 0 0 0 0 false 0 0 0 30 false 0 0 0.

Definition offsetBeyondEpsilon (offset : Z) : bool :=
  if Rlt_dec (5 / 10) (Rabs (IZR offset)) then true else false.

Definition adjustedMsPerDegree (speed : Z) (isReturnMove : bool)
    (direction : Z) : R :=
  let speedRatio := (IZR baseSpeed / IZR speed)%R in
  let scaleFactor := pow speedRatio curveFactor in
  let adjusted := (baseMsPerDegree * scaleFactor)%R in
  let adjusted1 :=
    if negb isReturnMove && (0 <? direction)
    then (adjusted * (106 / 100))%R else adjusted in
  if negb isReturnMove && (direction <? 0)
  then (adjusted1 * (96 / 100))%R else adjusted1.

Definition runDomeAutomation (now : Z) (r : AutomatedMode.DomeDraws)
    (s : State) : State * list Event :=
  if usub now (modeEntryTime s) <? 3000 then (s, [])
  else if domeMoving s then
    if domeEndTime s <=? now then
      (mkState (modeEntryTime s) (currentDomeSpeed s) (lastMoveTime s)
               (nextMoveDelay s) false (domeOffset s) (moveCount s)
               (domeDirection s) (sequenceSpeed s) (sequenceStarted s)
               (domeEndTime s) (lastMP3Time s) (nextMP3Delay s),
       [AutomatedMode.Motor 0])
    else (s, [])
  else if usub now (lastMoveTime s) <? nextMoveDelay s then (s, [])
  else
    let lastMoveTime' := now in
    let nextMoveDelay' :=
      random (truncate (minMoveIntervalSec * 1000))
             (truncate (maxMoveIntervalSec * 1000))
             (AutomatedMode.rDelay r) in
    let speed :=
      if negb (sequenceStarted s)
      then random minSpeed (maxSpeed + 1) (AutomatedMode.rSpeed r)
      else sequenceSpeed s in
    let isReturnMove :=
      (2 <=? moveCount s) || offsetBeyondEpsilon (domeOffset s) in
    let direction :=
      if isReturnMove then (if 0 <=? domeOffset s then -1 else 1)
      else (if random 0 2 (AutomatedMode.rDirection r) =? 0 then -1 else 1) in
    let angle : R :=
      if isReturnMove then Rabs (IZR (domeOffset s))
      else IZR (random domeMinAngleDeg (domeMaxAngleDeg + 1)
                       (AutomatedMode.rAngle r)) in
    let moveCount' := if isReturnMove then 0 else moveCount s + 1 in
    let sequenceStarted' := if isReturnMove then false else true in
    let adjusted := adjustedMsPerDegree speed isReturnMove direction in
    let duration := truncate (angle * adjusted) in
    let actualAngleMoved := (IZR duration / adjusted)%R in
    let domeOffset' :=
      truncate (IZR (domeOffset s) + IZR direction * actualAngleMoved) in
    (mkState (modeEntryTime s) speed lastMoveTime' nextMoveDelay' true
             domeOffset' moveCount' direction speed sequenceStarted'
             (uadd now duration) (lastMP3Time s) (nextMP3Delay s),
     [AutomatedMode.Motor (direction * speed)]).

Definition pickTrack (category rawTrack : Z) : Z :=
  if category =? 0
  then random HYBRID_HAPPY_START (HYBRID_HAPPY_END + 1) rawTrack
  else if category =? 1
  then random HYBRID_SAD_START (HYBRID_SAD_END + 1) rawTrack
  else random HYBRID_TALK_START (HYBRID_TALK_END + 1) rawTrack.

(** [runAutoMP3] of this mode: the suppression flag is part of the guard. *)
Definition runAutoMP3 (now : Z) (suppressed : bool)
    (r : AutomatedMode.Mp3Draws) (s : State) : State * list Event :=
  if usub now (modeEntryTime s) <? 3000 then (s, [])
  else if (nextMP3Delay s <? usub now (lastMP3Time s)) && negb suppressed then
    let track :=
      pickTrack (random 0 3 (AutomatedMode.rCategory r))
                (AutomatedMode.rTrack r) in
    (mkState (modeEntryTime s) (currentDomeSpeed s) (lastMoveTime s)
             (nextMoveDelay s) (domeMoving s) (domeOffset s) (moveCount s)
             (domeDirection s) (sequenceSpeed s) (sequenceStarted s)
             (domeEndTime s) now
             (random 5000 15000 (AutomatedMode.rInterval r)),
     [AutomatedMode.Mp3 track])
  else (s, []).

End HybridMode.

(** ** MP3 trigger handler (MP3Handler.cpp) *)

Module MP3Handler.
Import Arduino.

Definition ACTIVE_MP3_BOARD : Z := 1.

Definition HIGH_THRESHOLD : Z := 1700.
Definition LOW_THRESHOLD  : Z := 1300.
Definition DEBOUNCE_DELAY : Z := 50.
Definition VALID_PWM_MIN  : Z := 900.
Definition VALID_PWM_MAX  : Z := 2200.

Definition BANK_HAPPY_START   : Z := 1.
Definition BANK_HAPPY_END     : Z := 16.
Definition BANK_SAD_START     : Z := 31.
Definition BANK_SAD_END       : Z := 35.
Definition BANK_TALKING_START : Z := 61.
Definition BANK_TALKING_END   : Z := 76.
Definition BANK_YELLING_START : Z := 91.
Definition BANK_YELLING_END   : Z := 103.
Definition BANK_CLASSIC_START : Z := 121.
Definition BANK_CLASSIC_END   : Z := 123.
Definition BANK_DANCE_START   : Z := 151.
Definition BANK_DANCE_END     : Z := 156.
Definition BANK_SINGING_START : Z := 181.
Definition BANK_SINGING_END   : Z := 186.
Definition BANK_LINES_START   : Z := 211.
Definition BANK_LINES_END     : Z := 212.

Record State : Set := mkState {
  mp3TriggersEnabled : bool;
  lastMP3_CH3A : Z;
  lastMP3_CH4A : Z;
  lastMP3_CH5A : Z;
  lastMP3_CH3B : Z;
  lastMP3_CH4B : Z;
  lastMP3_CH5B : Z;
  hasTriggeredMP3_CH6A : bool;
  hasTriggeredMP3_CH6B : bool;
  currentMP3 : Z;
  (* the static of [checkMomentary], shared by both momentary buttons *)
  lastTriggerTime : Z
}.

Definition initial : State :=
  mkState true (-1) (-1) (-1) (-1) (-1) (-1) false false 0 0.

Definition disableMP3Triggers (s : State) : State :=
  mkState false (lastMP3_CH3A s) (lastMP3_CH4A s) (lastMP3_CH5A s)
          (lastMP3_CH3B s) (lastMP3_CH4B s) (lastMP3_CH5B s)
          (hasTriggeredMP3_CH6A s) (hasTriggeredMP3_CH6B s)
          (currentMP3 s) (lastTriggerTime s).

Definition enableMP3Triggers (s : State) : State :=
  mkState true (lastMP3_CH3A s) (lastMP3_CH4A s) (lastMP3_CH5A s)
          (lastMP3_CH3B s) (lastMP3_CH4B s) (lastMP3_CH5B s)
          (hasTriggeredMP3_CH6A s) (hasTriggeredMP3_CH6B s)
          (currentMP3 s) (lastTriggerTime s).

Definition isMP3Suppressed (s : State) : bool := negb (mp3TriggersEnabled s).

(** What reaches the audio board: the library call [mp3.trigger(track)] of
    the SparkFun board, or the bytes written to Serial1. *)
Inductive Wire : Set :=
| Trigger (track : Z)
| Serial1Write (bytes : list Z).

(** [playMP3Track(track)] for a board selection; [(byte)track] keeps the
    low eight bits. *)
Definition playMP3Track (board track : Z) : list Wire :=
  if board =? 1 then [Trigger track]
  else if (board =? 2) || (board =? 3) then
    [Serial1Write [126; 255; 6; 3; 0; 0; track mod 256; 239]]
  else [].

(** [checkToggleAnyEdge]: the new [lastState], the new [currentMP3] and the
    tracks played; [pwm] is the [pulseIn] reading and [raw] the draw. *)
Definition checkToggleAnyEdge (pwm lastState startFile endFile raw cur : Z)
  : Z * Z * list Z :=
  if (pwm =? 0) || (pwm <? VALID_PWM_MIN) || (VALID_PWM_MAX <? pwm)
  then (lastState, cur, [])
  else
    let newState :=
      if HIGH_THRESHOLD <? pwm then HIGH
      else if pwm <? LOW_THRESHOLD then LOW
      else lastState in
    if lastState =? -1 then (newState, cur, [])
    else if negb (newState =? lastState) then
      let randomTrack := random startFile (endFile + 1) raw in
      (newState, randomTrack, [randomTrack])
    else (lastState, cur, []).

(** [checkMomentary]: the new latch, [currentMP3], [lastTriggerTime] and
    the tracks played; [tTrigger] and [tCheck] are its two [millis()]
    readings. *)
Definition checkMomentary (pwm : Z) (hasTriggered : bool)
    (startFile endFile raw tTrigger tCheck cur lastTrigger : Z)
  : bool * Z * Z * list Z :=
  let fire := (HIGH_THRESHOLD <? pwm) && negb hasTriggered in
  let randomTrack := random startFile (endFile + 1) raw in
  let cur1 := if fire then randomTrack else cur in
  let latched1 := if fire then true else hasTriggered in
  let last1 := if fire then tTrigger else lastTrigger in
  let out := if fire then [randomTrack] else [] in
  let latched2 :=
    if latched1 && (50 <? usub tCheck last1) then false else latched1 in
  (latched2, cur1, last1, out).

(** One button of [updateMP3Handler]: its reading, its draw and, for a
    momentary button, its two clock readings. *)
Record Button : Set := mkButton {
  pwm      : Z;
  raw      : Z;
  tTrigger : Z;
  tCheck   : Z
}.

Record Inputs : Set := mkInputs {
  currentMode : Z;
  kill_ch1a : Z;
  kill_ch2a : Z;
  kill_ch1b : Z;
  kill_ch2b : Z;
  btn_CH3A : Button;
  btn_CH4A : Button;
  btn_CH5A : Button;
  btn_CH6A : Button;
  btn_CH3B : Button;
  btn_CH4B : Button;
  btn_CH5B : Button;
  btn_CH6B : Button
}.

Definition comboHeld (i : Inputs) : bool :=
  ComboHandler.isComboModeActive (currentMode i) (kill_ch1a i) (kill_ch2a i)
                                 (kill_ch1b i) (kill_ch2b i).

(** [updateMP3Handler]: the new state and the tracks handed to
    [playMP3Track], oldest first. *)
Definition updateMP3Handler (i : Inputs) (s : State) : State * list Z :=
  if negb (mp3TriggersEnabled s) || comboHeld i then
    (mkState (mp3TriggersEnabled s) (-1) (-1) (-1) (-1) (-1) (-1)
             false false (currentMP3 s) (lastTriggerTime s), [])
  else
    let '(l3a, c1, o1) :=
      checkToggleAnyEdge (pwm (btn_CH3A i)) (lastMP3_CH3A s)
        BANK_HAPPY_START BANK_HAPPY_END (raw (btn_CH3A i)) (currentMP3 s) in
    let '(l4a, c2, o2) :=
      checkToggleAnyEdge (pwm (btn_CH4A i)) (lastMP3_CH4A s)
        BANK_SAD_START BANK_SAD_END (raw (btn_CH4A i)) c1 in
    let '(l5a, c3, o3) :=
      checkToggleAnyEdge (pwm (btn_CH5A i)) (lastMP3_CH5A s)
        BANK_TALKING_START BANK_TALKING_END (raw (btn_CH5A i)) c2 in
    let '(h6a, c4, t4, o4) :=
      checkMomentary (pwm (btn_CH6A i)) (hasTriggeredMP3_CH6A s)
        BANK_YELLING_START BANK_YELLING_END (raw (btn_CH6A i))
        (tTrigger (btn_CH6A i)) (tCheck (btn_CH6A i)) c3 (lastTriggerTime s) in
    let '(l3b, c5, o5) :=
      checkToggleAnyEdge (pwm (btn_CH3B i)) (lastMP3_CH3B s)
        BANK_CLASSIC_START BANK_CLASSIC_END (raw (btn_CH3B i)) c4 in
    let '(l4b, c6, o6) :=
      checkToggleAnyEdge (pwm (btn_CH4B i)) (lastMP3_CH4B s)
        BANK_DANCE_START BANK_DANCE_END (raw (btn_CH4B i)) c5 in
    let '(l5b, c7, o7) :=
      checkToggleAnyEdge (pwm (btn_CH5B i)) (lastMP3_CH5B s)
        BANK_SINGING_START BANK_SINGING_END (raw (btn_CH5B i)) c6 in
    let '(h6b, c8, t8, o8) :=
      checkMomentary (pwm (btn_CH6B i)) (hasTriggeredMP3_CH6B s)
        BANK_LINES_START BANK_LINES_END (raw (btn_CH6B i))
        (tTrigger (btn_CH6B i)) (tCheck (btn_CH6B i)) c7 t4 in
    (mkState (mp3TriggersEnabled s) l3a l4a l5a l3b l4b l5b h6a h6b c8 t8,
     o1 ++ o2 ++ o3 ++ o4 ++ o5 ++ o6 ++ o7 ++ o8).

End MP3Handler.

(** ** Hybrid mode (HybridMode.cpp): the drive loop *)

Module HybridDrive.
Import Arduino FloatModel.

Definition deadZone : Z := 0.
Definition taperFallRate : Z := 60.
Definition motorTimeoutMs : Z := 150.

(** [taperToZero(value)] of this file: the step never crosses zero. *)
Definition taperToZero (value : Z) : Z :=
  let taperRate := map (abs value) 0 HybridMode.speedLimit 5 taperFallRate in
  if 0 <? value then
    (if value - taperRate <? 0 then 0 else value - taperRate)
  else if value <? 0 then
    (if 0 <? value + taperRate then 0 else value + taperRate)
  else value.

(** What one call of [loopHybridMode] writes. *)
Inductive Output : Set :=
| Drive (power : Z)
| Turn (power : Z)
| Auto (e : HybridMode.Event)
| AnalogWrite46 (value : Z).

(** The drive state of the mode, beside the automation state. *)
Record State : Set := mkState {
  auto                 : HybridMode.State;
  lastSentDomeSpeed    : Z;
  previousDomeMillis   : Z;
  lastDrive            : Z;
  lastTurn             : Z;
  savedTurnSpeed       : Z;
  lastDriveCommandTime : Z;
  lastTurnCommandTime  : Z;
  wasTurnInputActive   : bool;
  lastKillState        : bool
}.

Definition initial : State :=
  mkState HybridMode.initial 0 0 0 0 0 0 0 false false.

(** What one call of [loopHybridMode] reads. *)
Record Inputs : Set := mkInputs {
  millis      : Z;
  pwm         : PWMInputHandler.State;
  kill_ch1a   : Z;
  kill_ch2a   : Z;
  kill_ch1b   : Z;
  kill_ch2b   : Z;
  millis_dome : Z;
  millis_mp3  : Z;
  suppressed  : bool;
  domeDraws   : AutomatedMode.DomeDraws;
  mp3Draws    : AutomatedMode.Mp3Draws
}.

Definition killActive (i : Inputs) : bool :=
  ComboHandler.isComboModeActive 3 (kill_ch1a i) (kill_ch2a i)
                                 (kill_ch1b i) (kill_ch2b i).

Definition loopHybridMode (i : Inputs) (s : State) : State * list Output :=
  let now := millis i in
  let rawTurn  := PWMInputHandler.ch1_value (pwm i) in
  let rawDrive := PWMInputHandler.ch2_value (pwm i) in
  let mappedTurn0  := map (constrain rawTurn 1000 2000) 1000 2000 (-127) 127 in
  let mappedDrive0 := map (constrain rawDrive 1000 2000) 1000 2000 (-127) 127 in
  let driveInDeadzone := abs mappedDrive0 <=? deadZone in
  let turnInDeadzone  := abs mappedTurn0 <=? deadZone in
  let mappedDrive := if driveInDeadzone then 0 else mappedDrive0 in
  let mappedTurn1 := if turnInDeadzone then 0 else mappedTurn0 in
  let mappedTurn :=
    if 80 <? abs mappedDrive then constrain mappedTurn1 (-40) 40
    else mappedTurn1 in
  let curvedDrive := HybridMode.applyExpoCurve mappedDrive HybridMode.expoCurve in
  let curvedTurn  := HybridMode.applyExpoCurve mappedTurn HybridMode.expoCurve in
  let lastDrive1 := curvedDrive in
  let lastDriveCommandTime' := now in
  let lastTurn1 :=
    if (mappedTurn =? 0) && wasTurnInputActive s
    then taperToZero (if negb (lastTurn s =? 0) then lastTurn s
                      else savedTurnSpeed s)
    else if mappedTurn =? 0 then 0
    else curvedTurn in
  let savedTurnSpeed' :=
    if mappedTurn =? 0 then savedTurnSpeed s else curvedTurn in
  let lastTurnCommandTime' :=
    if mappedTurn =? 0 then lastTurnCommandTime s else now in
  let wasTurnInputActive' := negb (mappedTurn =? 0) in
  let kill := killActive i in
  let lastKillState' :=
    if negb (Bool.eqb kill (lastKillState s)) then kill
    else lastKillState s in
  let lastDrive2 := if kill then 0 else lastDrive1 in
  let lastTurn2  := if kill then 0 else lastTurn1 in
  let domeStep :=
    if negb kill
    then HybridMode.runDomeAutomation (millis_dome i) (domeDraws i) (auto s)
    else (auto s, []) in
  let mp3Step :=
    if negb kill
    then HybridMode.runAutoMP3 (millis_mp3 i) (suppressed i) (mp3Draws i)
                               (fst domeStep)
    else (fst domeStep, []) in
  let auto' := fst mp3Step in
  let gated :=
    if negb kill
    then List.map Auto (snd domeStep ++ snd mp3Step)
    else [AnalogWrite46 0] in
  let refresh :=
    negb (HybridMode.currentDomeSpeed auto' =? lastSentDomeSpeed s)
    || (50 <=? usub now (previousDomeMillis s)) in
  let lastDrive3 :=
    if motorTimeoutMs <? usub now lastDriveCommandTime' then 0 else lastDrive2 in
  let lastTurn3 :=
    if motorTimeoutMs <? usub now lastTurnCommandTime' then 0 else lastTurn2 in
  (mkState auto'
           (if refresh then HybridMode.currentDomeSpeed auto'
            else lastSentDomeSpeed s)
           (if refresh then now else previousDomeMillis s)
           lastDrive3 lastTurn3 savedTurnSpeed'
           lastDriveCommandTime' lastTurnCommandTime'
           wasTurnInputActive' lastKillState',
   Drive lastDrive2 :: Turn lastTurn2 :: gated
     ++ (if refresh then [AnalogWrite46 (HybridMode.currentDomeSpeed auto')]
         else [])).

(** A run of the mode. *)
Fixpoint run (ticks : list Inputs) (s : State) : State * list Output :=
  match ticks with
  | [] => (s, [])
  | i :: rest =>
      let r1 := loopHybridMode i s in
      let r2 := run rest (fst r1) in
      (fst r2, snd r1 ++ snd r2)
  end.

End HybridDrive.

(** ** Encoder test harness (AutomatedMode.cpp, the calibration variant) *)

Module EncoderHarness.
Import Arduino.

Record State : Set := mkState {
  encoderTicks   : Z;
  lastA          : bool;
  lastB          : bool;
  motorStartTime : Z;
  lastMotorSend  : Z;
  motorRunning   : bool;
  lastPrint      : Z
}.

Definition initial : State := mkState 0 false false 0 0 true 0.

(** [setupAutomatedMode]: the two pin levels read and the time. *)
Definition setupAutomatedMode (a b : bool) (now : Z) (s : State) : State :=
  mkState 0 a b now (lastMotorSend s) true (lastPrint s).

(** The interrupt routine [updateEncoder] on the two pin levels it reads.
    The count is a [long]; it is carried without wrap-around. *)
Definition updateEncoder (currentA currentB : bool) (s : State) : State :=
  let ticks :=
    if negb (Bool.eqb (lastA s) currentA) || negb (Bool.eqb (lastB s) currentB)
    then (if Bool.eqb (lastA s) currentB then encoderTicks s + 1
          else encoderTicks s - 1)
    else encoderTicks s in
  mkState ticks currentA currentB (motorStartTime s) (lastMotorSend s)
          (motorRunning s) (lastPrint s).

(** [loopAutomatedMode] of this variant: the state and the powers written
    with [domeMotor.motor]. *)
Definition loopAutomatedMode (now : Z) (s : State) : State * list Z :=
  let send :=
    motorRunning s
    && (usub now (motorStartTime s) <? 2000)
    && (50 <? usub now (lastMotorSend s)) in
  let stop := motorRunning s && negb (usub now (motorStartTime s) <? 2000) in
  let out := if send then [30] else if stop then [0] else [] in
  (mkState (encoderTicks s) (lastA s) (lastB s) (motorStartTime s)
           (if send then now else lastMotorSend s)
           (if stop then false else motorRunning s)
           (if 250 <? usub now (lastPrint s) then now else lastPrint s),
   out).

Fixpoint run (times : list Z) (s : State) : State * list Z :=
  match times with
  | [] => (s, [])
  | t :: rest =>
      let r1 := loopAutomatedMode t s in
      let r2 := run rest (fst r1) in
      (fst r2, snd r1 ++ snd r2)
  end.

(** A sequence of pin levels seen by the interrupt routine. *)
Fixpoint feed (levels : list (bool * bool)) (s : State) : State :=
  match levels with
  | [] => s
  | (a, b) :: rest => feed rest (updateEncoder a b s)
  end.

End EncoderHarness.

(** ** Master file (Shadow_RC_v1.0.ino) *)

Module MainSketch.
Import Arduino.

Definition MANUAL_MODE    : Z := 1.
Definition AUTOMATED_MODE : Z := 2.
Definition HYBRID_MODE    : Z := 3.
Definition CARPET_MODE    : Z := 4.

Definition blinkDelay : Z := 150.
Definition cycleDelay : Z := 2000.

Record Led : Set := mkLed {
  lastBlinkTime     : Z;
  blinkCount        : Z;
  ledState          : bool;
  currentBlinkTotal : Z
}.

Definition initialLed : Led := mkLed 0 0 false 0.

(** [updateLEDPattern(mode)]: the new state and the levels written to the
    LED pin. *)
Definition updateLEDPattern (mode now : Z) (l : Led) : Led * list bool :=
  let restart :=
    (currentBlinkTotal l <=? blinkCount l)
    && (cycleDelay <=? usub now (lastBlinkTime l)) in
  let l1 := if restart then mkLed now 0 false mode else l in
  let out1 := if restart then [false] else [] in
  let blink :=
    (blinkCount l1 <? currentBlinkTotal l1)
    && (blinkDelay <=? usub now (lastBlinkTime l1)) in
  if blink then
    let level := negb (ledState l1) in
    (mkLed now (if negb level then blinkCount l1 + 1 else blinkCount l1)
           level (currentBlinkTotal l1),
     out1 ++ [level])
  else (l1, out1).

(** What the mode-transition block of [loop()] does. *)
Inductive Action : Set :=
| Setup (mode : Z)
| ModeSound (track : Z).

(** The mode-transition block of [loop()], on the globals of the combo
    handler and the LED state. *)
Definition modeTransition (c : ComboHandler.State) (l : Led)
  : ComboHandler.State * Led * list Action :=
  if negb (ComboHandler.currentMode c =? ComboHandler.lastMode c) then
    let mode := ComboHandler.currentMode c in
    let acts :=
      if mode =? MANUAL_MODE then [Setup MANUAL_MODE; ModeSound 231]
      else if mode =? CARPET_MODE then [Setup CARPET_MODE; ModeSound 232]
      else if mode =? HYBRID_MODE then [Setup HYBRID_MODE; ModeSound 233]
      else if mode =? AUTOMATED_MODE then [Setup AUTOMATED_MODE; ModeSound 234]
      else [] in
    (ComboHandler.with_combo c (ComboHandler.currentCombo c) mode
       (ComboHandler.lastCombo c) mode (ComboHandler.comboTimestamp c)
       (ComboHandler.mp3TriggersEnabled c),
     mkLed (lastBlinkTime l) mode (ledState l) mode,
     acts)
  else (c, l, []).

End MainSketch.

(** ** Float arithmetic of the target *)

Module FloatArith.
Import FloatModel.

(** The arithmetic of [float], a float carried by the real it denotes:
    [round] takes the exact result of an operation to the float that the
    operation returns, [powf] is [pow] of the C library on floats. *)
Record Arith : Type := mkArith {
  round : R -> R;
  powf  : R -> R -> R
}.

(** What the proofs use of that arithmetic.  Rounding is monotone and
    leaves an integer of magnitude up to 2^24 unchanged, as rounding to
    the nearest 32-bit float does; [pow(x, 0)] is 1 for every [x],
    [pow(0, y)] is 0 for [y > 0], and [pow] of a base in [0,1] at an
    exponent from 0 up lies in [0,1]. *)
Record Conforming (A : Arith) : Prop := mkConforming {
  round_monotone : forall x y : R, (x <= y)%R -> (round A x <= round A y)%R;
  round_integer : forall n : Z, Z.abs n <= 2 ^ 24 -> round A (IZR n) = IZR n;
  powf_exponent_zero : forall x : R, powf A x 0 = 1%R;
  powf_base_zero : forall y : R, (0 < y)%R -> powf A 0 y = 0%R;
  powf_unit_interval : forall x y : R,
    (0 <= x <= 1)%R -> (0 <= y)%R -> (0 <= powf A x y <= 1)%R
}.

(** The arithmetic without rounding, which the mode models use. *)
Definition exact : Arith := mkArith (fun x => x) pow.

End FloatArith.

(** ** Rounding to a 32-bit float *)

Module Binary32.

(** [2^k] for an integer [k] of either sign. *)
Definition pow2 (k : Z) : R := Rpower 2 (IZR k).

(** The integer nearest to [y], the even one of the two at a tie. *)
Definition nearest_even (y : R) : Z :=
  let f := Int_part y in
  if Rlt_dec (y - IZR f) (1 / 2) then f
  else if Rlt_dec (1 / 2) (y - IZR f) then f + 1
  else if Z.even f then f else f + 1.

(** The binary exponent of [x > 0]: the [e] with [2^e <= x < 2^(e+1)], and
    -126, the exponent of the smallest normal float, below that. *)
Definition exponent (x : R) : Z := Z.max (Int_part (ln x / ln 2)) (-126).

(** The spacing of the floats around [x > 0]: 24 significant bits. *)
Definition ulp (x : R) : R := pow2 (exponent x - 23).

Definition round_positive (x : R) : R :=
  (IZR (nearest_even (x / ulp x)) * ulp x)%R.

(** Rounding to the nearest float, ties to even.  Overflow to infinity is
    left out. *)
Definition round (x : R) : R :=
  if Rlt_dec 0 x then round_positive x
  else if Rlt_dec x 0 then (- round_positive (- x))%R
  else 0%R.

(** The arithmetic of the target for a given [pow]. *)
Definition arith (powf : R -> R -> R) : FloatArith.Arith :=
  FloatArith.mkArith round powf.

(** A [pow] that returns the float nearest to the exact power, and the
    arithmetic with it. *)
Definition nearest_pow (x y : R) : R := round (FloatModel.pow x y).

Definition correctly_rounded : FloatArith.Arith := arith nearest_pow.

End Binary32.

(** ** The curve helpers in rounded arithmetic *)

Module RoundedManualMode.
Import Arduino FloatModel FloatArith.

(** [applyExpoCurve(input, curve, limit)] of ManualMode.cpp with every
    float operation rounded: the division by [127.0], [pow], the product
    with [limit] and the cast to [int]. *)
Definition applyExpoCurve (A : Arith) (input : Z) (curve : R) (limit : Z)
  : Z :=
  let normalized := round A (IZR (abs input) / 127) in
  let curved := round A (powf A normalized curve * IZR limit) in
  if 0 <=? input then truncate curved else - truncate curved.

End RoundedManualMode.

Module RoundedHybridMode.
Import Arduino FloatModel FloatArith.

(** [applyExpoCurve(input, curve)] of HybridMode.cpp, likewise: the limit
    is the global [speedLimit]. *)
Definition applyExpoCurve (A : Arith) (input : Z) (curve : R) : Z :=
  let normalized := round A (IZR (abs input) / 127) in
  let curved := round A (powf A normalized curve * IZR HybridMode.speedLimit) in
  if 0 <=? input then truncate curved else - truncate curved.

End RoundedHybridMode.

(** * Notions and cases used in the statements *)

Module DecoderCases.
Import Arduino PWMInputHandler.

(** After a rising edge at 1000 us on channel 1 in manual mode. *)
Definition armed : State := interrupt CH1 Rising 1000 (setupPWMInputs 1 initial).

End DecoderCases.

Module ComboCases.
Import Arduino ComboHandler.

(** The part of [updateComboHandler] that follows the detectors. *)
Definition settle (i : Inputs) (s1 : State) : State :=
  comboWatchdog (millis_watch i)
    (fst (handleCombos (millis_handle i) (debugModePrint (modeSwitching s1)))).

(** Readings with joystick B held down and the CH3 toggle of controller A
    changing level: combo 1 is detected. *)
Definition hold_down_toggle_CH3 : Inputs :=
  mkInputs 0 0 0 1000 1800 0 0 0 0 0 0 0 0 0.

(** Joystick B held down and the CH4 toggle changing level: combo 2. *)
Definition hold_down_toggle_CH4 : Inputs :=
  mkInputs 0 0 0 1000 0 1800 0 0 0 0 0 0 0 0.

(** Joystick B held up and the CH3 toggle changing level: combo 5. *)
Definition hold_up_toggle_CH3 : Inputs :=
  mkInputs 0 0 0 1900 1800 0 0 0 0 0 0 0 0 0.

(** A session in which combo 9 is detected twice.  Joystick B down with the
    CH5 toggle selects mode 3; joystick B left with the CH3 toggle then
    gives combo 9, which mode 3 permits, at 100 ms; joystick B down with
    the momentary CH6 selects mode 4 at 200 ms; joystick B left with the
    CH3 toggle moved back gives combo 9 again at 300 ms. *)
Definition select_mode3 : Inputs :=
  mkInputs 0 0 0 1000 0 0 1800 0 0 0 0 0 0 0.

Definition leia_first : Inputs :=
  mkInputs 0 0 1000 0 1800 0 0 0 0 0 0 0 100 100.

Definition select_mode4 : Inputs :=
  mkInputs 0 0 0 1000 0 0 0 1950 0 0 0 0 200 200.

Definition leia_again (now : Z) : Inputs :=
  mkInputs 0 0 1000 0 1000 0 0 0 0 0 0 0 now now.

(** The state after combo 9 was accepted in mode 3. *)
Definition leia_accepted : State :=
  fst (updateComboHandler leia_first
         (fst (updateComboHandler select_mode3 initial))).

(** The same, mode 4 then selected: the active combo is idle again. *)
Definition in_mode4 : State :=
  fst (updateComboHandler select_mode4 leia_accepted).

(** Mode 3 kept, and an update with no button moved once the reset delay
    has passed: the watchdog has made the active combo idle. *)
Definition idle_in_mode3 : State :=
  fst (updateComboHandler (mkInputs 0 0 0 0 0 0 0 0 0 0 0 0 1200 1200)
         leia_accepted).

End ComboCases.

Module ManualCases.
Import Arduino FloatModel ManualMode.

(** Decoder states reached by one pulse per deflected channel, in manual
    mode.  Dome stick fully right. *)
Definition dome_right : PWMInputHandler.State :=
  PWMInputHandler.interrupt PWMInputHandler.CH1B PWMInputHandler.Falling 3000
    (PWMInputHandler.interrupt PWMInputHandler.CH1B PWMInputHandler.Rising 1000
       (PWMInputHandler.setupPWMInputs 1 PWMInputHandler.initial)).

(** Drive and turn sticks fully deflected. *)
Definition drive_turn_full : PWMInputHandler.State :=
  PWMInputHandler.interrupt PWMInputHandler.CH2 PWMInputHandler.Falling 3000
    (PWMInputHandler.interrupt PWMInputHandler.CH2 PWMInputHandler.Rising 1000
       (PWMInputHandler.interrupt PWMInputHandler.CH1 PWMInputHandler.Falling 3000
          (PWMInputHandler.interrupt PWMInputHandler.CH1 PWMInputHandler.Rising 1000
             (PWMInputHandler.setupPWMInputs 1 PWMInputHandler.initial)))).

(** Ticks: the first frame of the mode, and a frame one second later with
    the decoder untouched in between (no pulse has arrived). *)
Definition dome_right_tick : Inputs := mkInputs 5000 5 dome_right 0 0 0 0.
Definition first_tick : Inputs := mkInputs 5000 5 drive_turn_full 0 0 0 0.
Definition late_tick : Inputs := mkInputs 1005000 1005 drive_turn_full 0 0 0 0.

(** The state the first frame leaves with both sticks deflected. *)
Definition after_first_tick : State :=
  mkState 0 0 0 25 19 19 0 5 5 0 false true false 5000.

(** The drive value a frame computes from the decoder, deadzone applied. *)
Definition mappedDriveOf (i : Inputs) : Z :=
  let m := map (constrain (PWMInputHandler.getPWMValue_CH2A (pwm i)) 1000 2000)
               1000 2000 (-127) 127 in
  if abs m <=? deadZone then 0 else m.

(** The turn value, clamped to 100 while the drive value exceeds 40. *)
Definition mappedTurnOf (i : Inputs) : Z :=
  let m := map (constrain (PWMInputHandler.getPWMValue_CH1A (pwm i)) 1000 2000)
               1000 2000 (-127) 127 in
  let m1 := if abs m <=? deadZone then 0 else m in
  if 40 <? abs (mappedDriveOf i) then constrain m1 (-100) 100 else m1.

(** The kill condition of manual mode on the readings of the frame. *)
Definition killHeld (i : Inputs) : bool :=
  ComboHandler.isComboModeActive 1 (kill_ch1a i) (kill_ch2a i)
                                 (kill_ch1b i) (kill_ch2b i).

End ManualCases.

Module AutomatedCases.
Import Arduino FloatModel AutomatedMode.

(** The speed in force for a move: drawn anew when no sequence is open. *)
Definition lockedSpeed (r : DomeDraws) (s : State) : Z :=
  if negb (sequenceStarted s)
  then random minSpeed (maxSpeed + 1) (rSpeed r)
  else sequenceSpeed s.

(** The conditions under which a call of [runDomeAutomation] starts a
    move. *)
Definition moveDue (now : Z) (s : State) : Prop :=
  domeMoving s = false
  /\ nextMoveDelay s <= usub now (lastMoveTime s)
  /\ modeDelayMillis <= usub now (modeEntryTime s).

(** What every reachable state satisfies: the offset is within the largest
    free-move angle and the locked speed within the configured range. *)
Definition bounded (s : State) : Prop :=
  Z.abs (domeOffset s) <= domeMaxAngle
  /\ minSpeed <= sequenceSpeed s <= maxSpeed.

(** The scenario: mode entered at time 0; at 3000 ms a first free move of
    10 degrees to the right at speed 30 starts and is due to end at 3200 ms;
    the kill switch (drive stick of controller A pulled down) is then held
    from 3100 ms on. *)
Definition entered : State := setupAutomatedMode 0 initial.

(** The tick at 3000 ms, with the draws that select speed 30, direction
    right and angle 10. *)
Definition start_tick : Inputs :=
  mkInputs 0 0 0 0 3000 3000 false (mkDomeDraws 0 5 1 0) (mkMp3Draws 0 0 0).

(** A tick with the kill switch held, and one without. *)
Definition kill_tick (now : Z) : Inputs :=
  mkInputs 0 1000 0 0 now now false (mkDomeDraws 0 0 0 0) (mkMp3Draws 0 0 0).

Definition free_tick (now : Z) : Inputs :=
  mkInputs 0 0 0 0 now now false (mkDomeDraws 0 0 0 0) (mkMp3Draws 0 0 0).

(** The state while the first move is in flight. *)
Definition moving : State :=
  mkState 3000 8000 3000 20000 false 0 true 9 1 30 1 3200 30 true 1.

Definition kill_held : list Inputs :=
  [kill_tick 3100; kill_tick 3200; kill_tick 3220; kill_tick 60000].

(** The state once that move has been stopped: one swing made, the dome 9
    degrees off centre, speed 30 locked. *)
Definition off_centre : State :=
  mkState 3000 8000 3000 20000 false 0 false 9 1 30 1 3200 30 true 1.

(** The audio cadence is due. *)
Definition cadenceDue (now : Z) (s : State) : Prop :=
  nextMP3Delay s < usub now (lastMP3Time s).

End AutomatedCases.

Module HybridCases.
Import Arduino FloatModel HybridMode.

Definition no_draws : AutomatedMode.Mp3Draws := AutomatedMode.mkMp3Draws 0 0 0.

(** The state after an unsuppressed firing at 5000 ms. *)
Definition played : State :=
  mkState 0 0 0 0 false 0 0 0 30 false 0 5000 5000.

End HybridCases.

Module DecoderRuns.
Import Arduino PWMInputHandler.

(** Pin edges delivered in order, each with its channel and the value of
    [micros()]. *)
Fixpoint deliver (events : list (Channel * PinEdge * Z)) (s : State) : State :=
  match events with
  | [] => s
  | (c, e, t) :: rest => deliver rest (interrupt c e t s)
  end.

End DecoderRuns.

Module MP3Cases.
Import Arduino MP3Handler.

(** The eight sound banks. *)
Definition inBank (t : Z) : Prop :=
  BANK_HAPPY_START <= t <= BANK_HAPPY_END
  \/ BANK_SAD_START <= t <= BANK_SAD_END
  \/ BANK_TALKING_START <= t <= BANK_TALKING_END
  \/ BANK_YELLING_START <= t <= BANK_YELLING_END
  \/ BANK_CLASSIC_START <= t <= BANK_CLASSIC_END
  \/ BANK_DANCE_START <= t <= BANK_DANCE_END
  \/ BANK_SINGING_START <= t <= BANK_SINGING_END
  \/ BANK_LINES_START <= t <= BANK_LINES_END.

(** The banks of the two momentary buttons. *)
Definition inMomentaryBank (t : Z) : Prop :=
  BANK_YELLING_START <= t <= BANK_YELLING_END
  \/ BANK_LINES_START <= t <= BANK_LINES_END.

(** A toggle reading that cannot play: rejected as invalid, or between the
    two thresholds. *)
Definition quiet (pwm : Z) : Prop :=
  pwm = 0 \/ pwm < VALID_PWM_MIN \/ VALID_PWM_MAX < pwm
  \/ LOW_THRESHOLD <= pwm <= HIGH_THRESHOLD.

(** The handler may run its checks: triggers enabled, kill combo not held. *)
Definition active (i : Inputs) (s : State) : Prop :=
  mp3TriggersEnabled s = true /\ comboHeld i = false.

Definition idle_button : Button := mkButton 0 0 0 0.

(** Sticks centred, the CH3 toggle of controller A read at [pwm]. *)
Definition toggle_CH3A (pwm : Z) : Inputs :=
  mkInputs 1 1500 1500 1500 1500 (mkButton pwm 0 0 0) idle_button idle_button
           idle_button idle_button idle_button idle_button idle_button.

(** The state once the CH3 toggle of controller A was seen low. *)
Definition seen_low : State := fst (updateMP3Handler (toggle_CH3A 1000) initial).

(** Joystick B pulled down in manual mode: the kill combo is held. *)
Definition combo_held_inputs : Inputs :=
  mkInputs 1 1500 1500 1500 1000 idle_button idle_button idle_button
           idle_button idle_button idle_button idle_button idle_button.

(** Sticks centred, the momentary button of controller A pressed. *)
Definition press_CH6A : Inputs :=
  mkInputs 1 1500 1500 1500 1500 idle_button idle_button idle_button
           (mkButton 1900 0 10 10) idle_button idle_button idle_button
           idle_button.

(** Three successive calls of [checkMomentary] for one button held at
    [pwm], at times [t0], [t1] and [t2], each threading the latch, the
    current track and the trigger time of the call before; the result is
    the tracks each call played. *)
Definition heldMomentary (pwm a b raw1 raw2 raw3 t0 t1 t2 cur lt : Z)
  : list Z * list Z * list Z :=
  let r1 := checkMomentary pwm false a b raw1 t0 t0 cur lt in
  let r2 := checkMomentary pwm (fst (fst (fst r1))) a b raw2 t1 t1
              (snd (fst (fst r1))) (snd (fst r1)) in
  let r3 := checkMomentary pwm (fst (fst (fst r2))) a b raw3 t2 t2
              (snd (fst (fst r2))) (snd (fst r2)) in
  (snd r1, snd r2, snd r3).

End MP3Cases.

Module ManualViews.
Import Arduino FloatModel ManualMode.

(** The dome input a frame computes from the decoder. *)
Definition domeInputOf (i : Inputs) : Z :=
  let c := constrain (PWMInputHandler.getPWMValue_CH1B (pwm i)) 1000 2000 in
  if 1500 <=? c
  then truncate (IZR (map c 1500 2000 0 100) * domeRightGain)
  else truncate (IZR (map c 1000 1500 (-100) 0) * domeLeftGain).

(** The dome speed the frame settles on. *)
Definition domeSpeedOf (i : Inputs) (s : State) : Z :=
  if ManualCases.killHeld i then 0
  else if domeFlickActive s
       then applyExpoCurve (domeInputOf i) expoCurve domeSpeedLimit
       else applyExpoCurve (domeInputOf i) expoCurve domeSpeedLimit
            * fineControlMultiplier.

(** The frame runs: at least [frameIntervalMicros] since the last one. *)
Definition frameRuns (i : Inputs) (s : State) : Prop :=
  frameIntervalMicros <= usub (nowMicros i) (lastFrameMicros s).

(** A frame with the kill combo of manual mode held (joystick B pulled
    down) and the drive and dome sticks deflected. *)
Definition kill_frame : Inputs :=
  mkInputs 5000 5 ManualCases.drive_turn_full 0 0 0 1000.

End ManualViews.

Module ComboViews.
Import Arduino ComboHandler.

(** Readings that accept combo 5 at 100 ms and check the watchdog at
    300 ms. *)
Definition accept_then_watch : Inputs :=
  mkInputs 0 0 0 1900 1800 0 0 0 0 0 0 0 100 300.

(** A stick reading that is a timeout (0) or lies strictly between the
    low and high thresholds. *)
Definition neutral (x : Z) : Prop := x = 0 \/ 1300 < x < 1700.

End ComboViews.

Module AutomationViews.
Import Arduino AutomatedMode.

(** The three sound banks of the automation. *)
Definition inSoundBank (t : Z) : Prop :=
  AUTO_HAPPY_START <= t <= AUTO_HAPPY_END
  \/ AUTO_SAD_START <= t <= AUTO_SAD_END
  \/ AUTO_TALK_START <= t <= AUTO_TALK_END.

(** What the automation may write: a motor stop, a motor power whose
    magnitude is a locked speed, or a track of one of the banks. *)
Definition eventAllowed (e : Event) : Prop :=
  match e with
  | Motor p => p = 0 \/ minSpeed <= Z.abs p <= maxSpeed
  | Mp3 t => inSoundBank t
  end.

End AutomationViews.

Module HybridViews.
Import Arduino HybridDrive.

(** The stick values of a call after mapping, dead zone and the clamp of
    the turn at high drive. *)
Definition driveStickOf (i : Inputs) : Z :=
  let m := map (constrain (PWMInputHandler.ch2_value (pwm i)) 1000 2000)
               1000 2000 (-127) 127 in
  if abs m <=? deadZone then 0 else m.

Definition turnStickOf (i : Inputs) : Z :=
  let m := map (constrain (PWMInputHandler.ch1_value (pwm i)) 1000 2000)
               1000 2000 (-127) 127 in
  let m1 := if abs m <=? deadZone then 0 else m in
  if 80 <? abs (driveStickOf i) then constrain m1 (-40) 40 else m1.

(** The turn values kept from one call to the next are within the speed
    limit. *)
Definition turnsWithinLimit (s : State) : Prop :=
  Z.abs (lastTurn s) <= HybridMode.speedLimit
  /\ Z.abs (savedTurnSpeed s) <= HybridMode.speedLimit.

Definition commandWithinLimit (o : Output) : Prop :=
  match o with
  | Drive p | Turn p => Z.abs p <= HybridMode.speedLimit
  | _ => True
  end.

Definition killHeld (i : Inputs) : Prop := killActive i = true.

(** What a call writes while the kill switch is held, given the automation
    state [a] at that time. *)
Definition killOutput (a : HybridMode.State) (o : Output) : Prop :=
  o = Drive 0 \/ o = Turn 0 \/ o = AnalogWrite46 0
  \/ o = AnalogWrite46 (HybridMode.currentDomeSpeed a).

Definition automationBounded (a : HybridMode.State) : Prop :=
  Z.abs (HybridMode.domeOffset a) <= HybridMode.domeMaxAngleDeg
  /\ HybridMode.minSpeed <= HybridMode.sequenceSpeed a <= HybridMode.maxSpeed.

Definition automationAllowed (o : Output) : Prop :=
  match o with
  | Auto e => AutomationViews.eventAllowed e
  | _ => True
  end.

(** Sticks centred at 5000 ms, and the same with the dome stick of
    controller B pushed right, which is a kill condition of this mode. *)
Definition centred_tick : Inputs :=
  mkInputs 5000 PWMInputHandler.initial 0 0 0 0 5000 5000 false
           (AutomatedMode.mkDomeDraws 0 5 1 0) (AutomatedMode.mkMp3Draws 0 0 0).

Definition killed_tick : Inputs :=
  mkInputs 5000 PWMInputHandler.initial 0 0 1900 0 5000 5000 false
           (AutomatedMode.mkDomeDraws 0 5 1 0) (AutomatedMode.mkMp3Draws 0 0 0).

End HybridViews.

Module LedRuns.
Import Arduino MainSketch.

(** Successive calls of [updateLEDPattern], each with the mode passed and
    the value of [millis()]. *)
Fixpoint ledRun (calls : list (Z * Z)) (l : Led) : Led * list bool :=
  match calls with
  | [] => (l, [])
  | (mode, now) :: rest =>
      let r1 := updateLEDPattern mode now l in
      let r2 := ledRun rest (fst r1) in
      (fst r2, snd r1 ++ snd r2)
  end.

(** The count of blinks is within the total of the cycle, and the LED is
    off once the count has reached it. *)
Definition ledSettled (l : Led) : Prop :=
  0 <= blinkCount l <= currentBlinkTotal l
  /\ (blinkCount l = currentBlinkTotal l -> ledState l = false).

End LedRuns.

(** * Properties *)

(** ** Facts about the Arduino primitives *)

Module ArduinoFacts.
Import Arduino.

Lemma constrain_range x lo hi : lo <= hi -> lo <= constrain x lo hi <= hi.
Proof.
  intros H. unfold constrain.
  destruct (x <? lo) eqn:E1; [lia|].
  destruct (hi <? x) eqn:E2; lia.
Qed.

Lemma random_range lo hi raw : lo < hi -> lo <= random lo hi raw < hi.
Proof.
  intros H. unfold random.
  destruct (hi <=? lo) eqn:E; [lia|].
  pose proof (Z.mod_pos_bound raw (hi - lo)). lia.
Qed.

Lemma abs_nonneg x : 0 <= abs x.
Proof. unfold abs. destruct (0 <? x) eqn:E; lia. Qed.

Lemma abs_opp x : abs (- x) = abs x.
Proof.
  unfold abs. destruct (0 <? x) eqn:E1; destruct (0 <? - x) eqn:E2; lia.
Qed.

Lemma usub_self a : usub a a = 0.
Proof. unfold usub, wrap32. rewrite Z.sub_diag. reflexivity. Qed.

End ArduinoFacts.

(** ** Facts about the float model *)

Module FloatFacts.
Import FloatModel.
Local Open Scope R_scope.

Lemma Int_part_bounds x : IZR (Int_part x) <= x < IZR (Int_part x) + 1.
Proof. destruct (base_Int_part x) as [H1 H2]. lra. Qed.

Lemma Int_part_unique x z : IZR z <= x < IZR z + 1 -> Int_part x = z.
Proof. intros H. symmetry. apply Int_part_spec. lra. Qed.

Lemma truncate_nonneg x : 0 <= x -> truncate x = Int_part x.
Proof. intros H. unfold truncate. destruct (Rle_dec 0 x); [reflexivity|lra]. Qed.

Lemma truncate_neg x : x < 0 -> truncate x = (- Int_part (- x))%Z.
Proof. intros H. unfold truncate. destruct (Rle_dec 0 x); [lra|reflexivity]. Qed.

Lemma truncate_IZR z : truncate (IZR z) = z.
Proof.
  destruct (Rle_dec 0 (IZR z)) as [H|H].
  - rewrite truncate_nonneg by assumption. apply Int_part_unique. lra.
  - rewrite truncate_neg by lra.
    rewrite <- opp_IZR.
    rewrite (Int_part_unique (IZR (- z)) (- z)) by lra. lia.
Qed.

(** On a non-negative value the cast is the floor. *)
Lemma truncate_floor x z : 0 <= IZR z -> IZR z <= x < IZR z + 1 -> truncate x = z.
Proof.
  intros Hz H. rewrite truncate_nonneg by lra. now apply Int_part_unique.
Qed.

Lemma truncate_floor_bounds x :
  0 <= x -> 0 <= IZR (truncate x) /\ IZR (truncate x) <= x < IZR (truncate x) + 1.
Proof.
  intros H. rewrite truncate_nonneg by assumption.
  pose proof (Int_part_bounds x) as B. split; [|exact B].
  apply IZR_le.
  assert (IZR (-1) < IZR (Int_part x)) as L by lra.
  apply lt_IZR in L. lia.
Qed.

Lemma truncate_opp x : truncate (- x) = (- truncate x)%Z.
Proof.
  destruct (Rtotal_order x 0) as [H|[H|H]].
  - rewrite (truncate_neg x) by assumption.
    rewrite truncate_nonneg by lra. lia.
  - subst x. rewrite Ropp_0. change 0 with (IZR 0). rewrite truncate_IZR. lia.
  - rewrite (truncate_nonneg x) by lra.
    rewrite truncate_neg by lra. rewrite Ropp_involutive. reflexivity.
Qed.

(** The cast never moves a value away from zero. *)
Lemma truncate_between x (lo hi : Z) :
  (lo <= 0 <= hi)%Z -> IZR lo <= x <= IZR hi -> (lo <= truncate x <= hi)%Z.
Proof.
  intros [Hlo Hhi] [H1 H2].
  apply IZR_le in Hlo, Hhi.
  destruct (Rle_dec 0 x) as [Hx|Hx].
  - destruct (truncate_floor_bounds x Hx) as [T0 [T1 T2]].
    split; apply le_IZR; lra.
  - assert (0 <= - x) as Hn by lra.
    destruct (truncate_floor_bounds (- x) Hn) as [T0 [T1 T2]].
    rewrite truncate_opp in T0, T1, T2. rewrite opp_IZR in T0, T1, T2.
    split; apply le_IZR; lra.
Qed.

(** A value of magnitude below one is cast to zero. *)
Lemma truncate_small x : -1 < x < 1 -> truncate x = 0%Z.
Proof.
  intros H. destruct (Rle_dec 0 x) as [Hx|Hx].
  - apply truncate_floor; simpl; lra.
  - replace x with (- - x) by lra. rewrite truncate_opp.
    rewrite (truncate_floor (- x) 0); simpl; try lra. reflexivity.
Qed.

(** The cast of an integer quotient is the truncating division. *)
Lemma truncate_quot (n d : Z) :
  (0 <= n)%Z -> (0 < d)%Z -> truncate (IZR n / IZR d) = Z.quot n d.
Proof.
  intros Hn Hd.
  rewrite Z.quot_div_nonneg by lia.
  assert (0 < IZR d) as Hd' by (apply IZR_lt; lia).
  pose proof (Z.div_mod n d ltac:(lia)) as E.
  pose proof (Z.mod_pos_bound n d Hd) as B.
  assert (0 <= n / d)%Z as Q by (apply Z.div_pos; lia).
  apply truncate_floor; [apply IZR_le; lia|].
  assert (IZR n = IZR d * IZR (n / d) + IZR (n mod d)) as E'.
  { rewrite <- mult_IZR, <- plus_IZR. now f_equal. }
  assert (0 <= IZR (n mod d) < IZR d) as B'.
  { split; [apply IZR_le|apply IZR_lt]; lia. }
  split.
  - apply Rmult_le_reg_r with (IZR d); [assumption|].
    unfold Rdiv. rewrite Rmult_assoc, Rinv_l by lra. nra.
  - apply Rmult_lt_reg_r with (IZR d); [assumption|].
    unfold Rdiv. rewrite Rmult_assoc, Rinv_l by lra. nra.
Qed.

Lemma pow_exponent_zero x : pow x 0 = 1.
Proof. unfold pow. destruct (Req_dec_T 0 0); [reflexivity|lra]. Qed.

Lemma pow_base_zero y : y <> 0 -> pow 0 y = 0.
Proof.
  intros H. unfold pow. destruct (Req_dec_T y 0); [contradiction|].
  destruct (Rle_dec 0 0); [reflexivity|lra].
Qed.

Lemma pow_positive x y : 0 < x -> y <> 0 -> pow x y = Rpower x y.
Proof.
  intros Hx Hy. unfold pow. destruct (Req_dec_T y 0); [contradiction|].
  destruct (Rle_dec x 0); [lra|reflexivity].
Qed.

Lemma pow_exponent_one x : 0 <= x -> pow x 1 = x.
Proof.
  intros [H|H].
  - rewrite pow_positive by lra. now apply Rpower_1.
  - subst x. apply pow_base_zero. lra.
Qed.

Lemma pow_nonneg x y : 0 <= pow x y.
Proof.
  unfold pow. destruct (Req_dec_T y 0); [lra|].
  destruct (Rle_dec x 0); [lra|].
  unfold Rpower. left. apply exp_pos.
Qed.

(** On the unit interval and for a non-negative exponent the power stays
    in the unit interval. *)
Lemma pow_unit_interval x y : 0 <= x <= 1 -> 0 <= y -> 0 <= pow x y <= 1.
Proof.
  intros [Hx0 Hx1] Hy. split; [apply pow_nonneg|].
  unfold pow. destruct (Req_dec_T y 0); [lra|].
  destruct (Rle_dec x 0); [lra|].
  assert (0 < x) as Hx by lra.
  rewrite <- (Rpower_O x Hx).
  destruct Hx1 as [Hlt|Heq].
  - unfold Rpower.
    assert (ln x < 0) as L.
    { rewrite <- ln_1. apply ln_increasing; lra. }
    assert (y * ln x <= 0 * ln x) as M by nra.
    destruct M as [M|M].
    + left. now apply exp_increasing.
    + rewrite M. lra.
  - subst x. unfold Rpower. rewrite ln_1, !Rmult_0_r. lra.
Qed.

End FloatFacts.

(** Case analysis on the integer tests of a goal. *)
Ltac ztest :=
  repeat match goal with
  | |- context [?a <? ?b] =>
      let E := fresh "E" in
      destruct (a <? b) eqn:E; [apply Z.ltb_lt in E|apply Z.ltb_ge in E]
  | |- context [?a <=? ?b] =>
      let E := fresh "E" in
      destruct (a <=? b) eqn:E; [apply Z.leb_le in E|apply Z.leb_gt in E]
  | |- context [?a =? ?b] =>
      let E := fresh "E" in
      destruct (a =? b) eqn:E; [apply Z.eqb_eq in E|apply Z.eqb_neq in E]
  end.

(** ** Pulse Decoder *)

Module PulseDecoderProps.
Import Arduino PWMInputHandler.
Import DecoderCases.

(** C1, counterexample: a falling edge that measures a width of 0, and one
    that measures 2500 us, both outside the validity band, replace the
    published value 1500 of channel 1. *)
Lemma C1_invalid_reading_overwrites :
  (invalid_reading (pulse_width CH1 1000 armed)
   /\ value CH1 (interrupt CH1 Falling 1000 armed) <> value CH1 armed)
  /\ (invalid_reading (pulse_width CH1 3500 armed)
      /\ value CH1 (interrupt CH1 Falling 3500 armed) <> value CH1 armed).
Proof.
  split; split.
  - left. reflexivity.
  - vm_compute. discriminate.
  - right. right. vm_compute. reflexivity.
  - vm_compute. discriminate.
Qed.

(** C1, amended: on every channel a falling edge publishes the measured
    width, [micros() - start] taken modulo 2^32 and stored in an [int],
    whatever that width is, and leaves the other channels as they were. *)
Theorem C1_falling_edge_publishes_width (c : Channel) (micros : Z) (s : State) :
  value c (fall c micros s) = to_int (pulse_width c micros s)
  /\ forall c', c' = c \/ value c' (fall c micros s) = value c' s.
Proof.
  split.
  - destruct c; reflexivity.
  - intros c'. destruct c, c'; (now left) || (right; reflexivity).
Qed.

(** The same through the interrupt dispatch, once a rising edge has armed
    the falling handler. *)
Lemma armed_falling_edge_publishes_width (c : Channel) (t0 t1 : Z) (s : State) :
  attached c s = OnRising ->
  value c (interrupt c Falling t1 (interrupt c Rising t0 s))
  = to_int (usub t1 t0).
Proof.
  intros H. destruct c; unfold interrupt; simpl in *; rewrite H; reflexivity.
Qed.

(** A width that fits an [int] is published unchanged. *)
Lemma to_int_small w : 0 <= w < 2 ^ 15 -> to_int w = w.
Proof.
  intros H. unfold to_int.
  rewrite Z.mod_small; lia.
Qed.

End PulseDecoderProps.

(** ** Mode/Combo Recognizer *)

Module ComboProps.
Import Arduino ComboHandler.
Import ComboCases.

Lemma detectCombos_mode i s : currentMode (detectCombos i s) = currentMode s.
Proof.
  unfold detectCombos.
  repeat match goal with
  | |- context [let '(_, _) := ?e in _] => destruct e
  end.
  reflexivity.
Qed.

Lemma detectCombos_lastCombo i s : lastCombo (detectCombos i s) = lastCombo s.
Proof.
  unfold detectCombos.
  repeat match goal with
  | |- context [let '(_, _) := ?e in _] => destruct e
  end.
  reflexivity.
Qed.

(** The tested condition and the worded whitelist agree on action ids. *)
Lemma comboAllowed_whitelisted mode combo :
  4 < combo -> (comboAllowed mode combo = true <-> whitelisted mode combo).
Proof.
  intros H. unfold comboAllowed, whitelisted. split.
  - ztest; simpl; intros A; try discriminate; lia.
  - intros W. ztest; simpl; try reflexivity; lia.
Qed.

Lemma updateComboHandler_settle i s :
  fst (updateComboHandler i s) = settle i (detectCombos i s).
Proof.
  unfold updateComboHandler, settle.
  destruct (handleCombos _ _). reflexivity.
Qed.

Lemma debugModePrint_fields s :
  currentCombo (debugModePrint s) = currentCombo s
  /\ currentMode (debugModePrint s) = currentMode s
  /\ lastCombo (debugModePrint s) = lastCombo s
  /\ comboTimestamp (debugModePrint s) = comboTimestamp s.
Proof.
  unfold debugModePrint.
  destruct (negb (currentMode s =? lastMode s)); repeat split; reflexivity.
Qed.

Lemma handleCombos_idle now s :
  currentCombo s <= 4 -> handleCombos now s = (s, []).
Proof.
  intros H. unfold handleCombos.
  destruct (Z.ltb_spec 4 (currentCombo s)); [lia|].
  now rewrite andb_false_r.
Qed.

Lemma comboWatchdog_idle now s :
  currentCombo s <= 4 -> comboWatchdog now s = s.
Proof.
  intros H. unfold comboWatchdog.
  destruct (Z.ltb_spec 4 (currentCombo s)); [lia|reflexivity].
Qed.

Lemma modeSwitching_select s :
  1 <= currentCombo s <= 4 ->
  currentCombo s <> currentMode s ->
  currentCombo (modeSwitching s) = 0
  /\ currentMode (modeSwitching s) = currentCombo s.
Proof.
  intros H N. unfold modeSwitching.
  destruct (Z.leb_spec 1 (currentCombo s)); [|lia].
  destruct (Z.leb_spec (currentCombo s) 4); [|lia].
  destruct (Z.eqb_spec (currentCombo s) (currentMode s)); [lia|].
  split; reflexivity.
Qed.

Lemma modeSwitching_same s :
  currentCombo s = currentMode s \/ 4 < currentCombo s ->
  modeSwitching s = s.
Proof.
  intros H. unfold modeSwitching.
  destruct (Z.leb_spec (currentCombo s) 4);
    destruct (Z.eqb_spec (currentCombo s) (currentMode s));
    rewrite ?andb_false_r; simpl; try reflexivity; lia.
Qed.

(** Mode select as the code performs it, on the state the detectors leave. *)
Lemma settle_mode_select i s1 :
  1 <= currentCombo s1 <= 4 ->
  currentMode (settle i s1) = currentCombo s1
  /\ (currentCombo s1 <> currentMode s1 -> currentCombo (settle i s1) = 0)
  /\ (currentCombo s1 = currentMode s1 ->
      currentCombo (settle i s1) = currentCombo s1).
Proof.
  intros H. unfold settle.
  destruct (debugModePrint_fields (modeSwitching s1)) as (D1 & D2 & _).
  destruct (Z.eq_dec (currentCombo s1) (currentMode s1)) as [E|N].
  - rewrite modeSwitching_same in * by (now left).
    rewrite handleCombos_idle by lia. simpl.
    rewrite comboWatchdog_idle by lia.
    rewrite D1, D2. repeat split; congruence.
  - destruct (modeSwitching_select s1 H N) as [M1 M2].
    rewrite handleCombos_idle by lia. simpl.
    rewrite comboWatchdog_idle by lia.
    rewrite D1, D2, M1, M2. repeat split; congruence.
Qed.

Lemma handleCombos_fields now s :
  4 < currentCombo s ->
  currentCombo s <> lastCombo s ->
  let s' := fst (handleCombos now s) in
  currentMode s' = currentMode s
  /\ (comboAllowed (currentMode s) (currentCombo s) = true ->
      currentCombo s' = currentCombo s /\ lastCombo s' = currentCombo s
      /\ comboTimestamp s' = now)
  /\ (comboAllowed (currentMode s) (currentCombo s) = false ->
      currentCombo s' = 0 /\ lastCombo s' = 0).
Proof.
  intros H N. unfold handleCombos.
  destruct (Z.eqb_spec (currentCombo s) (lastCombo s)); [lia|].
  destruct (Z.ltb_spec 4 (currentCombo s)); [|lia].
  simpl.
  destruct (comboAllowed (currentMode s) (currentCombo s)).
  - destruct (comboAction _ _). simpl. repeat split; intros; discriminate.
  - simpl. repeat split; intros; discriminate.
Qed.

Lemma comboWatchdog_fields now s :
  currentMode (comboWatchdog now s) = currentMode s
  /\ lastCombo (comboWatchdog now s) = lastCombo s
  /\ comboTimestamp (comboWatchdog now s) = comboTimestamp s
  /\ (currentCombo (comboWatchdog now s) = 0
      \/ currentCombo (comboWatchdog now s) = currentCombo s)
  /\ (usub now (comboTimestamp s) <= comboResetDelay ->
      currentCombo (comboWatchdog now s) = currentCombo s).
Proof.
  unfold comboWatchdog.
  destruct (Z.ltb_spec 4 (currentCombo s));
    destruct (Z.ltb_spec comboResetDelay (usub now (comboTimestamp s)));
    simpl; repeat split; auto; intros; lia.
Qed.

Lemma settle_action_combo i s1 :
  4 < currentCombo s1 ->
  currentCombo s1 <> lastCombo s1 ->
  (~ whitelisted (currentMode s1) (currentCombo s1) ->
   currentCombo (settle i s1) = 0 /\ lastCombo (settle i s1) = 0)
  /\ (currentCombo (settle i s1) = currentCombo s1 ->
      whitelisted (currentMode s1) (currentCombo s1))
  /\ (whitelisted (currentMode s1) (currentCombo s1) ->
      usub (millis_watch i) (millis_handle i) <= comboResetDelay ->
      currentCombo (settle i s1) = currentCombo s1
      /\ lastCombo (settle i s1) = currentCombo s1
      /\ comboTimestamp (settle i s1) = millis_handle i).
Proof.
  intros H4 Hne.
  pose proof (comboAllowed_whitelisted (currentMode s1) (currentCombo s1) H4)
    as W.
  unfold settle. rewrite modeSwitching_same by (now right).
  destruct (debugModePrint_fields s1) as (D1 & D2 & D3 & D4).
  set (s2 := debugModePrint s1) in *.
  assert (4 < currentCombo s2) as H4' by lia.
  assert (currentCombo s2 <> lastCombo s2) as Hne' by lia.
  destruct (handleCombos_fields (millis_handle i) s2 H4' Hne')
    as (F1 & F2 & F3).
  set (s3 := fst (handleCombos (millis_handle i) s2)) in *.
  destruct (comboWatchdog_fields (millis_watch i) s3)
    as (G1 & G2 & G3 & G4 & G5).
  rewrite D1, D2 in F2, F3.
  destruct (comboAllowed (currentMode s1) (currentCombo s1)) eqn:A.
  - assert (whitelisted (currentMode s1) (currentCombo s1)) as Wt
      by (now apply W).
    destruct (F2 eq_refl) as (A1 & A2 & A3).
    repeat split; try tauto; intros.
    + rewrite G5; [lia|]. now rewrite A3.
    + lia.
    + congruence.
  - assert (~ whitelisted (currentMode s1) (currentCombo s1)) as Wf.
    { intros Wt. apply W in Wt. congruence. }
    destruct (F3 eq_refl) as (B1 & B2).
    repeat split; try tauto; intros.
    + destruct G4; lia.
    + lia.
    + exfalso. destruct G4 as [G|G]; lia.
Qed.

(** C7, counterexample: in mode 1, detecting combo 1 leaves combo 1 active;
    the active combo is not reset to idle. *)
Lemma C7_same_mode_combo_stays_active :
  1 <= detected hold_down_toggle_CH3 initial <= 4
  /\ currentMode (fst (updateComboHandler hold_down_toggle_CH3 initial))
     = detected hold_down_toggle_CH3 initial
  /\ currentCombo (fst (updateComboHandler hold_down_toggle_CH3 initial)) <> 0.
Proof.
  assert (detected hold_down_toggle_CH3 initial = 1) as D
    by (vm_compute; reflexivity).
  rewrite D. repeat split; try lia.
  vm_compute. discriminate.
Qed.

(** C7, amended: for every detected combo id in [1,4], after the update the
    current mode equals that id; the active combo is reset to idle when the
    id differs from the mode that was current, and stays at that id when it
    equals it. *)
Theorem C7_mode_select (i : Inputs) (s : State) :
  1 <= detected i s <= 4 ->
  currentMode (fst (updateComboHandler i s)) = detected i s
  /\ (detected i s <> currentMode s ->
      currentCombo (fst (updateComboHandler i s)) = 0)
  /\ (detected i s = currentMode s ->
      currentCombo (fst (updateComboHandler i s)) = detected i s).
Proof.
  intros H. rewrite updateComboHandler_settle.
  unfold detected in *. rewrite <- (detectCombos_mode i s).
  now apply settle_mode_select.
Qed.

(** The mode select of C7 on readings that switch from mode 1 to mode 2. *)
Lemma C7_mode_select_witness :
  1 <= detected hold_down_toggle_CH4 initial <= 4
  /\ currentMode (fst (updateComboHandler hold_down_toggle_CH4 initial))
     = detected hold_down_toggle_CH4 initial
  /\ (detected hold_down_toggle_CH4 initial <> currentMode initial ->
      currentCombo (fst (updateComboHandler hold_down_toggle_CH4 initial)) = 0)
  /\ (detected hold_down_toggle_CH4 initial = currentMode initial ->
      currentCombo (fst (updateComboHandler hold_down_toggle_CH4 initial))
      = detected hold_down_toggle_CH4 initial).
Proof.
  assert (1 <= detected hold_down_toggle_CH4 initial <= 4) as H
    by (vm_compute; split; discriminate).
  split; [exact H|].
  exact (C7_mode_select hold_down_toggle_CH4 initial H).
Defined.

Lemma detectCombos_timestamp i s :
  comboTimestamp (detectCombos i s) = comboTimestamp s.
Proof.
  unfold detectCombos.
  repeat match goal with
  | |- context [let '(_, _) := ?e in _] => destruct e
  end.
  reflexivity.
Qed.

Lemma updateComboHandler_commands i s :
  snd (updateComboHandler i s)
  = snd (handleCombos (millis_handle i)
           (debugModePrint (modeSwitching (detectCombos i s)))).
Proof.
  unfold updateComboHandler.
  destruct (handleCombos _ _). reflexivity.
Qed.

Lemma handleCombos_repeated now s :
  currentCombo s = lastCombo s -> handleCombos now s = (s, []).
Proof.
  intros E. unfold handleCombos.
  destruct (Z.eqb_spec (currentCombo s) (lastCombo s)); [reflexivity|lia].
Qed.

(** A detected action id equal to the id last handled is not examined. *)
Lemma settle_repeated_combo i s1 :
  4 < currentCombo s1 ->
  currentCombo s1 = lastCombo s1 ->
  snd (handleCombos (millis_handle i) (debugModePrint (modeSwitching s1))) = []
  /\ lastCombo (settle i s1) = lastCombo s1
  /\ comboTimestamp (settle i s1) = comboTimestamp s1
  /\ (usub (millis_watch i) (comboTimestamp s1) <= comboResetDelay ->
      currentCombo (settle i s1) = currentCombo s1)
  /\ (comboResetDelay < usub (millis_watch i) (comboTimestamp s1) ->
      currentCombo (settle i s1) = 0).
Proof.
  intros H4 E. unfold settle.
  rewrite modeSwitching_same by (now right).
  destruct (debugModePrint_fields s1) as (D1 & D2 & D3 & D4).
  rewrite handleCombos_repeated by congruence.
  cbn [fst snd].
  set (s2 := debugModePrint s1) in *.
  destruct (comboWatchdog_fields (millis_watch i) s2)
    as (G1 & G2 & G3 & G4 & G5).
  split; [reflexivity|]. split; [congruence|]. split; [congruence|].
  split.
  - intros W. rewrite G5; [exact D1|]. now rewrite D4.
  - intros W. unfold comboWatchdog.
    destruct (Z.ltb_spec 4 (currentCombo s2)); [|lia].
    destruct (Z.ltb_spec comboResetDelay
                (usub (millis_watch i) (comboTimestamp s2))); [reflexivity|].
    rewrite D4 in *. lia.
Qed.

(** C6, counterexample: the id that the code compares a detected combo
    with is the one last handled, which outlives the active combo.  Combo 9
    is accepted in mode 3; mode 4 is then selected, which makes the active
    combo idle; combo 9 is detected again.  It differs from the active
    combo (idle) and mode 4 does not permit it, yet it is not discarded: it
    is the active combo after the update.  In the same way, with mode 3
    kept and the active combo made idle by the watchdog, combo 9 detected
    again is permitted and differs from the active combo, yet the update
    sends no command and ends with the active combo idle. *)
Lemma C6_repeated_combo_escapes_whitelist :
  (currentMode in_mode4 = 4
   /\ currentCombo in_mode4 = 0
   /\ detected (leia_again 300) in_mode4 = 9
   /\ detected (leia_again 300) in_mode4 <> currentCombo in_mode4
   /\ ~ whitelisted (currentMode in_mode4) (detected (leia_again 300) in_mode4)
   /\ currentCombo (fst (updateComboHandler (leia_again 300) in_mode4)) = 9)
  /\ (currentMode idle_in_mode3 = 3
      /\ currentCombo idle_in_mode3 = 0
      /\ detected (leia_again 1300) idle_in_mode3 = 9
      /\ detected (leia_again 1300) idle_in_mode3 <> currentCombo idle_in_mode3
      /\ whitelisted (currentMode idle_in_mode3)
                     (detected (leia_again 1300) idle_in_mode3)
      /\ snd (updateComboHandler leia_first
                (fst (updateComboHandler select_mode3 initial))) = [SE10]
      /\ snd (updateComboHandler (leia_again 1300) idle_in_mode3) = []
      /\ currentCombo (fst (updateComboHandler (leia_again 1300) idle_in_mode3))
         = 0).
Proof.
  assert (currentMode in_mode4 = 4) as M4 by (vm_compute; reflexivity).
  assert (detected (leia_again 300) in_mode4 = 9) as D4
    by (vm_compute; reflexivity).
  assert (currentMode idle_in_mode3 = 3) as M3 by (vm_compute; reflexivity).
  assert (detected (leia_again 1300) idle_in_mode3 = 9) as D3
    by (vm_compute; reflexivity).
  split.
  - rewrite D4, M4.
    split; [reflexivity|]. split; [vm_compute; reflexivity|].
    split; [reflexivity|]. split; [vm_compute; discriminate|].
    split; [unfold whitelisted; lia|]. vm_compute. reflexivity.
  - rewrite D3, M3.
    split; [reflexivity|]. split; [vm_compute; reflexivity|].
    split; [reflexivity|]. split; [vm_compute; discriminate|].
    split; [unfold whitelisted; lia|].
    split; [vm_compute; reflexivity|].
    split; vm_compute; reflexivity.
Qed.

(** C6, amended: a detected combo id above 4 is examined when it differs
    from the id last handled, that is the id last made active or 0 after a
    discard, which is kept when the watchdog or a mode select makes the
    active combo idle.  It then becomes the active combo only if the
    whitelist of the current mode permits it (5 to 8 in modes 1 and 4, 5 to
    16 in mode 3, all in mode 2); when it is not permitted it is discarded
    and the active combo is reset to idle; a permitted id is active after
    the update, provided the watchdog reading is within the reset delay of
    the reading that stamped it.  A detected id equal to the id last
    handled is not examined, whatever the mode: no command is sent, the
    id last handled and the time stamp are kept, and the id is the active
    combo after the update exactly when the watchdog reading is within the
    reset delay of the old time stamp. *)
Theorem C6_action_combo_whitelist (i : Inputs) (s : State) :
  4 < detected i s ->
  (detected i s <> lastCombo s ->
   (~ whitelisted (currentMode s) (detected i s) ->
    currentCombo (fst (updateComboHandler i s)) = 0
    /\ lastCombo (fst (updateComboHandler i s)) = 0)
   /\ (currentCombo (fst (updateComboHandler i s)) = detected i s ->
       whitelisted (currentMode s) (detected i s))
   /\ (whitelisted (currentMode s) (detected i s) ->
       usub (millis_watch i) (millis_handle i) <= comboResetDelay ->
       currentCombo (fst (updateComboHandler i s)) = detected i s
       /\ lastCombo (fst (updateComboHandler i s)) = detected i s
       /\ comboTimestamp (fst (updateComboHandler i s)) = millis_handle i))
  /\ (detected i s = lastCombo s ->
      snd (updateComboHandler i s) = []
      /\ lastCombo (fst (updateComboHandler i s)) = lastCombo s
      /\ comboTimestamp (fst (updateComboHandler i s)) = comboTimestamp s
      /\ (usub (millis_watch i) (comboTimestamp s) <= comboResetDelay ->
          currentCombo (fst (updateComboHandler i s)) = detected i s)
      /\ (comboResetDelay < usub (millis_watch i) (comboTimestamp s) ->
          currentCombo (fst (updateComboHandler i s)) = 0)).
Proof.
  intros H. rewrite updateComboHandler_settle, updateComboHandler_commands.
  unfold detected in *.
  rewrite <- (detectCombos_mode i s).
  rewrite <- (detectCombos_lastCombo i s).
  rewrite <- (detectCombos_timestamp i s).
  split; intros N.
  - now apply settle_action_combo.
  - now apply settle_repeated_combo.
Qed.

(** The rule of C6 on readings that detect combo 5 in mode 1. *)
Lemma C6_action_combo_whitelist_witness :
  4 < detected hold_up_toggle_CH3 initial
  /\ currentCombo (fst (updateComboHandler hold_up_toggle_CH3 initial))
     = detected hold_up_toggle_CH3 initial
  /\ lastCombo (fst (updateComboHandler hold_up_toggle_CH3 initial))
     = detected hold_up_toggle_CH3 initial
  /\ comboTimestamp (fst (updateComboHandler hold_up_toggle_CH3 initial))
     = millis_handle hold_up_toggle_CH3.
Proof.
  assert (4 < detected hold_up_toggle_CH3 initial) as H
    by (vm_compute; reflexivity).
  assert (detected hold_up_toggle_CH3 initial <> lastCombo initial) as N
    by (vm_compute; discriminate).
  assert (whitelisted (currentMode initial)
            (detected hold_up_toggle_CH3 initial)) as W.
  { left. split; [left; reflexivity|vm_compute; split; discriminate]. }
  assert (usub (millis_watch hold_up_toggle_CH3)
               (millis_handle hold_up_toggle_CH3) <= comboResetDelay) as T
    by (vm_compute; discriminate).
  split; [exact H|].
  destruct (C6_action_combo_whitelist hold_up_toggle_CH3 initial H)
    as [Differs _].
  destruct (Differs N) as (_ & _ & Accept).
  exact (Accept W T).
Defined.

(** The two outcomes on concrete readings: combo 5 is accepted in mode 1,
    combo 9 (joystick held left) is discarded there. *)
Example combo5_accepted_in_mode1 :
  currentCombo (fst (updateComboHandler hold_up_toggle_CH3 initial)) = 5
  /\ snd (updateComboHandler hold_up_toggle_CH3 initial) = [SE03]
  /\ mp3TriggersEnabled (fst (updateComboHandler hold_up_toggle_CH3 initial))
     = false.
Proof. vm_compute. repeat split. Qed.

Example combo9_discarded_in_mode1 :
  detected (mkInputs 0 0 1000 0 1800 0 0 0 0 0 0 0 0 0) initial = 9
  /\ currentCombo
       (fst (updateComboHandler (mkInputs 0 0 1000 0 1800 0 0 0 0 0 0 0 0 0)
                                initial)) = 0.
Proof. vm_compute. repeat split. Qed.

End ComboProps.

(** ** Rounding to a 32-bit float: order and integers *)

Module Binary32Facts.
Import FloatModel FloatFacts Binary32.
Local Open Scope R_scope.

Lemma Int_part_monotone x y : x <= y -> (Int_part x <= Int_part y)%Z.
Proof.
  intros H.
  pose proof (Int_part_bounds x) as Bx. pose proof (Int_part_bounds y) as By.
  assert (IZR (Int_part x) < IZR (Int_part y + 1)) as L
    by (rewrite plus_IZR; lra).
  apply lt_IZR in L. lia.
Qed.

(** *** Powers of two *)

Lemma pow2_pos k : 0 < pow2 k.
Proof. unfold pow2, Rpower. apply exp_pos. Qed.

Lemma pow2_add a b : pow2 (a + b) = pow2 a * pow2 b.
Proof. unfold pow2. rewrite plus_IZR. apply Rpower_plus. Qed.

Lemma pow2_0 : pow2 0 = 1.
Proof. unfold pow2. apply Rpower_O. lra. Qed.

Lemma pow2_le a b : (a <= b)%Z -> pow2 a <= pow2 b.
Proof.
  intros H. unfold pow2. apply Rle_Rpower; [lra|now apply IZR_le].
Qed.

Lemma pow2_lt a b : (a < b)%Z -> pow2 a < pow2 b.
Proof.
  intros H. unfold pow2. apply Rpower_lt; [lra|now apply IZR_lt].
Qed.

Lemma pow2_lt_inv a b : pow2 a < pow2 b -> (a < b)%Z.
Proof.
  intros H. destruct (Z_lt_le_dec a b) as [L|G]; [exact L|].
  pose proof (pow2_le b a G). lra.
Qed.

Lemma pow2_nonneg_exponent k : (0 <= k)%Z -> pow2 k = IZR (2 ^ k).
Proof.
  intros H. unfold pow2.
  rewrite <- (Z2Nat.id k H) at 1. rewrite <- INR_IZR_INZ.
  rewrite Rpower_pow by lra.
  rewrite <- (Z2Nat.id k H) at 2. now rewrite pow_IZR.
Qed.

(** *** Rounding to an integer *)

Lemma nearest_even_near y :
  nearest_even y = Int_part y \/ nearest_even y = (Int_part y + 1)%Z.
Proof.
  unfold nearest_even.
  destruct (Rlt_dec _ _); [now left|].
  destruct (Rlt_dec _ _); [now right|].
  destruct (Z.even _); [now left|now right].
Qed.

Lemma nearest_even_integer n : nearest_even (IZR n) = n.
Proof.
  unfold nearest_even.
  rewrite (Int_part_unique (IZR n) n) by lra.
  destruct (Rlt_dec (IZR n - IZR n) (1 / 2)); [reflexivity|lra].
Qed.

Lemma nearest_even_monotone x y :
  x <= y -> (nearest_even x <= nearest_even y)%Z.
Proof.
  intros H.
  pose proof (Int_part_monotone x y H) as M.
  destruct (Z.eq_dec (Int_part x) (Int_part y)) as [E|N].
  - unfold nearest_even. rewrite E.
    destruct (Rlt_dec (x - IZR (Int_part y)) (1 / 2));
      destruct (Rlt_dec (y - IZR (Int_part y)) (1 / 2));
      destruct (Rlt_dec (1 / 2) (x - IZR (Int_part y)));
      destruct (Rlt_dec (1 / 2) (y - IZR (Int_part y)));
      destruct (Z.even (Int_part y)); try lia; try lra.
  - destruct (nearest_even_near x) as [-> | ->];
      destruct (nearest_even_near y) as [-> | ->]; lia.
Qed.

Lemma nearest_even_le y n : y <= IZR n -> (nearest_even y <= n)%Z.
Proof.
  intros H. rewrite <- (nearest_even_integer n).
  now apply nearest_even_monotone.
Qed.

Lemma nearest_even_ge y n : IZR n <= y -> (n <= nearest_even y)%Z.
Proof.
  intros H. rewrite <- (nearest_even_integer n) at 1.
  now apply nearest_even_monotone.
Qed.

(** *** The binary exponent *)

Lemma ln2_pos : 0 < ln 2.
Proof. rewrite <- ln_1. apply ln_increasing; lra. Qed.

Lemma binade_bounds x :
  0 < x ->
  pow2 (Int_part (ln x / ln 2)) <= x < pow2 (Int_part (ln x / ln 2) + 1).
Proof.
  intros Hx. pose proof ln2_pos as L2.
  pose proof (Int_part_bounds (ln x / ln 2)) as [B1 B2].
  set (k := Int_part (ln x / ln 2)) in *.
  assert (ln x / ln 2 * ln 2 = ln x) as E by (field; lra).
  assert (IZR k * ln 2 <= ln x) as C1 by nra.
  assert (ln x < (IZR k + 1) * ln 2) as C2 by nra.
  unfold pow2, Rpower. rewrite plus_IZR.
  split.
  - apply Rle_trans with (exp (ln x)); [|right; now apply exp_ln].
    destruct C1 as [C1|C1];
      [left; now apply exp_increasing|right; now rewrite C1].
  - apply Rle_lt_trans with (exp (ln x)); [right; symmetry; now apply exp_ln|].
    now apply exp_increasing.
Qed.

Lemma binade_unique x k :
  pow2 k <= x < pow2 (k + 1) -> Int_part (ln x / ln 2) = k.
Proof.
  intros [H1 H2].
  assert (0 < x) as Hx by (pose proof (pow2_pos k); lra).
  destruct (binade_bounds x Hx) as [B1 B2].
  set (j := Int_part (ln x / ln 2)) in *.
  assert (pow2 j < pow2 (k + 1)) as L1 by lra.
  assert (pow2 k < pow2 (j + 1)) as L2 by lra.
  apply pow2_lt_inv in L1, L2. lia.
Qed.

Lemma exponent_monotone x y : 0 < x -> x <= y -> (exponent x <= exponent y)%Z.
Proof.
  intros Hx H. unfold exponent. pose proof ln2_pos as L2.
  assert (ln x <= ln y) as L.
  { destruct H as [H|H]; [left; apply ln_increasing; lra|right; now rewrite H]. }
  assert (ln x / ln 2 <= ln y / ln 2) as D.
  { unfold Rdiv. apply Rmult_le_compat_r; [|exact L].
    left. now apply Rinv_0_lt_compat. }
  pose proof (Int_part_monotone _ _ D). lia.
Qed.

Lemma ulp_pos x : 0 < ulp x.
Proof. apply pow2_pos. Qed.

(** A positive [x] is below the next power of two above its exponent. *)
Lemma below_next_binade x : 0 < x -> x < pow2 (exponent x + 1).
Proof.
  intros Hx. destruct (binade_bounds x Hx) as [_ B].
  eapply Rlt_le_trans; [exact B|]. apply pow2_le. unfold exponent. lia.
Qed.

(** Above the smallest normal exponent, [x] is at least the power of two
    of its exponent. *)
Lemma above_binade x : 0 < x -> (-126 < exponent x)%Z -> pow2 (exponent x) <= x.
Proof.
  intros Hx He. destruct (binade_bounds x Hx) as [B _].
  unfold exponent in *.
  replace (Z.max (Int_part (ln x / ln 2)) (-126)) with (Int_part (ln x / ln 2))
    by lia.
  exact B.
Qed.

(** *** Rounding *)

Lemma round_positive_nonneg x : 0 < x -> 0 <= round_positive x.
Proof.
  intros Hx. unfold round_positive. pose proof (ulp_pos x) as U.
  assert (0 <= x / ulp x) as Q.
  { unfold Rdiv. pose proof (Rinv_0_lt_compat _ U). nra. }
  pose proof (nearest_even_ge (x / ulp x) 0 Q) as N.
  apply IZR_le in N. nra.
Qed.

Lemma round_positive_le_next x :
  0 < x -> round_positive x <= pow2 (exponent x + 1).
Proof.
  intros Hx. unfold round_positive, ulp.
  pose proof (below_next_binade x Hx) as B.
  set (e := exponent x) in *.
  pose proof (pow2_pos (e - 23)) as U.
  assert (pow2 (e + 1) = IZR (2 ^ 24) * pow2 (e - 23)) as S.
  { rewrite <- pow2_nonneg_exponent by lia. rewrite <- pow2_add.
    f_equal. lia. }
  assert (x / pow2 (e - 23) <= IZR (2 ^ 24)) as Q.
  { apply Rmult_le_reg_r with (pow2 (e - 23)); [exact U|].
    unfold Rdiv. rewrite Rmult_assoc, Rinv_l by lra. lra. }
  pose proof (nearest_even_le _ _ Q) as N. apply IZR_le in N.
  rewrite S. nra.
Qed.

Lemma round_positive_ge_binade x :
  0 < x -> (-126 < exponent x)%Z -> pow2 (exponent x) <= round_positive x.
Proof.
  intros Hx He. unfold round_positive, ulp.
  pose proof (above_binade x Hx He) as B.
  set (e := exponent x) in *.
  pose proof (pow2_pos (e - 23)) as U.
  assert (pow2 e = IZR (2 ^ 23) * pow2 (e - 23)) as S.
  { rewrite <- pow2_nonneg_exponent by lia. rewrite <- pow2_add.
    f_equal. lia. }
  assert (IZR (2 ^ 23) <= x / pow2 (e - 23)) as Q.
  { apply Rmult_le_reg_r with (pow2 (e - 23)); [exact U|].
    unfold Rdiv. rewrite Rmult_assoc, Rinv_l by lra. lra. }
  pose proof (nearest_even_ge _ _ Q) as N. apply IZR_le in N.
  rewrite S. nra.
Qed.

Lemma round_positive_monotone x y :
  0 < x -> x <= y -> round_positive x <= round_positive y.
Proof.
  intros Hx H.
  pose proof (exponent_monotone x y Hx H) as E.
  destruct (Z.eq_dec (exponent x) (exponent y)) as [Eq|Ne].
  - unfold round_positive, ulp. rewrite Eq.
    pose proof (pow2_pos (exponent y - 23)) as U.
    assert (x / pow2 (exponent y - 23) <= y / pow2 (exponent y - 23)) as Q.
    { unfold Rdiv. apply Rmult_le_compat_r; [|exact H].
      left. now apply Rinv_0_lt_compat. }
    pose proof (nearest_even_monotone _ _ Q) as N. apply IZR_le in N. nra.
  - assert (0 < y) as Hy by lra.
    assert (-126 < exponent y)%Z as Ey by (unfold exponent in *; lia).
    pose proof (round_positive_le_next x Hx) as A.
    pose proof (round_positive_ge_binade y Hy Ey) as B.
    pose proof (pow2_le (exponent x + 1) (exponent y) ltac:(lia)) as C.
    lra.
Qed.

Lemma binary32_round_monotone x y : x <= y -> round x <= round y.
Proof.
  intros H. unfold round.
  destruct (Rlt_dec 0 x) as [Px|Px]; destruct (Rlt_dec 0 y) as [Py|Py];
    try lra.
  - now apply round_positive_monotone.
  - destruct (Rlt_dec x 0) as [Nx|Nx].
    + pose proof (round_positive_nonneg (- x) ltac:(lra)).
      pose proof (round_positive_nonneg y Py). lra.
    + now apply round_positive_nonneg.
  - destruct (Rlt_dec x 0) as [Nx|Nx]; destruct (Rlt_dec y 0) as [Ny|Ny];
      try lra.
    + pose proof (round_positive_monotone (- y) (- x) ltac:(lra) ltac:(lra)).
      lra.
    + pose proof (round_positive_nonneg (- x) ltac:(lra)). lra.
Qed.

(** A positive number that is an integer multiple of the spacing at its
    exponent is a float. *)
Lemma round_positive_multiple x m :
  0 < x -> x = IZR m * ulp x -> round_positive x = x.
Proof.
  intros Hx E. unfold round_positive. pose proof (ulp_pos x) as U.
  assert (x / ulp x = IZR m) as Q.
  { rewrite E at 1. unfold Rdiv. rewrite Rmult_assoc, Rinv_r by lra. lra. }
  rewrite Q, nearest_even_integer. now rewrite <- E.
Qed.

Lemma exponent_of_integer n :
  (1 <= n <= 2 ^ 24)%Z -> (0 <= exponent (IZR n) <= 24)%Z.
Proof.
  intros [H1 H2].
  assert (0 < IZR n) as Hx by (apply (IZR_lt 0); lia).
  destruct (binade_bounds (IZR n) Hx) as [B1 B2].
  unfold exponent. set (k := Int_part (ln (IZR n) / ln 2)) in *.
  apply IZR_le in H1, H2.
  rewrite <- (pow2_nonneg_exponent 24) in H2 by lia.
  rewrite <- pow2_0 in H1.
  assert (pow2 0 < pow2 (k + 1)) as L1 by lra.
  assert (pow2 k < pow2 (24 + 1)) as L2.
  { eapply Rle_lt_trans; [exact B1|]. eapply Rle_lt_trans; [exact H2|].
    apply pow2_lt. lia. }
  apply pow2_lt_inv in L1, L2. lia.
Qed.

Lemma binary32_round_integer n : (Z.abs n <= 2 ^ 24)%Z -> round (IZR n) = IZR n.
Proof.
  assert (forall n, (1 <= n <= 2 ^ 24)%Z -> round_positive (IZR n) = IZR n)
    as P.
  { intros m Hm.
    assert (0 < IZR m) as Hx by (apply (IZR_lt 0); lia).
    pose proof (exponent_of_integer m Hm) as E.
    destruct (Z_le_gt_dec (exponent (IZR m)) 23) as [Le|Gt].
    - apply (round_positive_multiple _ (m * 2 ^ (23 - exponent (IZR m))) Hx).
      unfold ulp. rewrite mult_IZR.
      rewrite <- pow2_nonneg_exponent by lia.
      rewrite Rmult_assoc, <- pow2_add.
      replace (23 - exponent (IZR m) + (exponent (IZR m) - 23))%Z with 0%Z
        by lia.
      rewrite pow2_0. lra.
    - assert (exponent (IZR m) = 24%Z) as E24 by lia.
      assert (m = 2 ^ 24)%Z as M.
      { pose proof (above_binade (IZR m) Hx ltac:(lia)) as B.
        rewrite E24, pow2_nonneg_exponent in B by lia.
        apply le_IZR in B. lia. }
      apply (round_positive_multiple _ (2 ^ 23) Hx).
      unfold ulp. rewrite E24.
      rewrite <- pow2_nonneg_exponent by lia. rewrite <- pow2_add.
      rewrite pow2_nonneg_exponent by lia. now rewrite M. }
  intros H. unfold round.
  destruct (Rlt_dec 0 (IZR n)) as [Pn|Pn].
  - apply lt_IZR in Pn. apply P. lia.
  - destruct (Rlt_dec (IZR n) 0) as [Nn|Nn].
    + apply lt_IZR in Nn. rewrite <- opp_IZR. rewrite P by lia.
      rewrite opp_IZR. lra.
    + assert (n = 0)%Z as ->; [|reflexivity].
      apply Rnot_lt_le in Pn, Nn. apply le_IZR in Pn, Nn. lia.
Qed.

(** With any [pow] that has the stated special cases and range, the
    arithmetic of the target conforms. *)
Lemma binary32_conforming (powf : R -> R -> R) :
  (forall x, powf x 0 = 1) ->
  (forall y, 0 < y -> powf 0 y = 0) ->
  (forall x y, 0 <= x <= 1 -> 0 <= y -> 0 <= powf x y <= 1) ->
  FloatArith.Conforming (arith powf).
Proof.
  intros P0 Pz Pu. constructor; cbn [FloatArith.round FloatArith.powf arith].
  - apply binary32_round_monotone.
  - apply binary32_round_integer.
  - exact P0.
  - exact Pz.
  - exact Pu.
Qed.

(** *** Evaluation of a rounding *)

Lemma pow2_negative_exponent k : (0 <= k)%Z -> pow2 (- k) = / IZR (2 ^ k).
Proof.
  intros H. pose proof (pow2_pos k) as Pk.
  assert (pow2 (- k) * pow2 k = 1) as E.
  { rewrite <- pow2_add. replace (- k + k)%Z with 0%Z by lia. apply pow2_0. }
  rewrite <- pow2_nonneg_exponent by assumption.
  apply Rmult_eq_reg_r with (pow2 k); [|lra].
  rewrite E. field. lra.
Qed.

Lemma exponent_at x e :
  (-126 <= e)%Z -> pow2 e <= x < pow2 (e + 1) -> exponent x = e.
Proof.
  intros He B. unfold exponent. rewrite (binade_unique x e B). lia.
Qed.

Lemma nearest_even_below y f :
  IZR f <= y < IZR f + 1 / 2 -> nearest_even y = f.
Proof.
  intros H. unfold nearest_even.
  rewrite (Int_part_unique y f) by lra.
  destruct (Rlt_dec (y - IZR f) (1 / 2)); [reflexivity|lra].
Qed.

End Binary32Facts.

(** ** The curve helpers in rounded arithmetic *)

Module RoundedCurveFacts.
Import Arduino FloatModel FloatFacts FloatArith.

Lemma exact_conforming : Conforming exact.
Proof.
  constructor; cbn [round powf exact].
  - intros x y H. exact H.
  - reflexivity.
  - apply pow_exponent_zero.
  - intros y H. apply pow_base_zero. lra.
  - apply pow_unit_interval.
Qed.

(** The arithmetic of the target with a correctly rounded [pow]. *)
Lemma correctly_rounded_conforming : Conforming Binary32.correctly_rounded.
Proof.
  assert (Binary32.round 0 = 0)%R as R0
    by (apply (Binary32Facts.binary32_round_integer 0); simpl; lia).
  assert (Binary32.round 1 = 1)%R as R1
    by (apply (Binary32Facts.binary32_round_integer 1); simpl; lia).
  apply Binary32Facts.binary32_conforming; unfold Binary32.nearest_pow.
  - intros x. now rewrite pow_exponent_zero.
  - intros y H. rewrite pow_base_zero by lra. exact R0.
  - intros x y Hx Hy. destruct (pow_unit_interval x y Hx Hy) as [P0 P1].
    pose proof (Binary32Facts.binary32_round_monotone _ _ P0) as Lo.
    pose proof (Binary32Facts.binary32_round_monotone _ _ P1) as Hi.
    rewrite R0 in Lo. rewrite R1 in Hi. split; assumption.
Qed.

(** Without rounding the helpers are those of the mode models. *)
Lemma exact_manual_curve x curve limit :
  RoundedManualMode.applyExpoCurve exact x curve limit
  = ManualMode.applyExpoCurve x curve limit.
Proof. reflexivity. Qed.

Lemma exact_hybrid_curve x curve :
  RoundedHybridMode.applyExpoCurve exact x curve
  = HybridMode.applyExpoCurve x curve.
Proof. reflexivity. Qed.

Section Rounded.
Variable A : Arith.
Hypothesis conforming : Conforming A.

Lemma round_zero : round A 0 = 0%R.
Proof. apply (round_integer A conforming 0). simpl. lia. Qed.

Lemma round_one : round A 1 = 1%R.
Proof. apply (round_integer A conforming 1). simpl. lia. Qed.

Lemma abs_stick_range x : -127 <= x <= 127 -> 0 <= abs x <= 127.
Proof. intros H. unfold abs. destruct (Z.ltb_spec 0 x); lia. Qed.

(** The normalised deflection is a float in [0,1]. *)
Lemma rounded_normalized_range a :
  0 <= a <= 127 -> (0 <= round A (IZR a / 127) <= 1)%R.
Proof.
  intros [A0 A1]. apply IZR_le in A0, A1.
  pose proof (round_monotone A conforming 0 (IZR a / 127) ltac:(lra)) as Lo.
  pose proof (round_monotone A conforming (IZR a / 127) 1 ltac:(lra)) as Hi.
  rewrite round_zero in Lo. rewrite round_one in Hi. split; assumption.
Qed.

(** The curved magnitude is a float between zero and the limit. *)
Lemma rounded_curved_range a curve limit :
  0 <= a <= 127 -> (0 <= curve)%R -> 0 <= limit <= 32767 ->
  (0 <= round A (powf A (round A (IZR a / 127)) curve * IZR limit)
   <= IZR limit)%R.
Proof.
  intros Ha Hc [L0 L1].
  pose proof (powf_unit_interval A conforming _ curve
                (rounded_normalized_range a Ha) Hc) as P.
  assert (round A (IZR limit) = IZR limit) as RL
    by (apply (round_integer A conforming); lia).
  apply IZR_le in L0.
  set (p := powf A (round A (IZR a / 127)) curve) in *.
  pose proof (round_monotone A conforming 0 (p * IZR limit) ltac:(nra)) as Lo.
  pose proof (round_monotone A conforming (p * IZR limit) (IZR limit)
                ltac:(nra)) as Hi.
  rewrite round_zero in Lo. rewrite RL in Hi. split; assumption.
Qed.

Lemma rounded_magnitude_range a curve limit :
  0 <= a <= 127 -> (0 <= curve)%R -> 0 <= limit <= 32767 ->
  0 <= truncate (round A (powf A (round A (IZR a / 127)) curve * IZR limit))
  <= limit.
Proof.
  intros Ha Hc Hl. apply truncate_between; [lia|].
  now apply rounded_curved_range.
Qed.

Lemma rounded_curve_bounded x curve limit :
  -127 <= x <= 127 -> (0 <= curve)%R -> 0 <= limit <= 32767 ->
  Z.abs (RoundedManualMode.applyExpoCurve A x curve limit) <= limit.
Proof.
  intros Hx Hc Hl.
  pose proof (rounded_magnitude_range (abs x) curve limit
                (abs_stick_range x Hx) Hc Hl) as M.
  unfold RoundedManualMode.applyExpoCurve. cbv zeta.
  destruct (0 <=? x); lia.
Qed.

(** Away from the centre the helper is odd whatever the arithmetic: only
    the magnitude of the input enters the float computation. *)
Lemma rounded_curve_odd x curve limit :
  x <> 0 ->
  RoundedManualMode.applyExpoCurve A (- x) curve limit
  = - RoundedManualMode.applyExpoCurve A x curve limit.
Proof.
  intros N. unfold RoundedManualMode.applyExpoCurve.
  rewrite ArduinoFacts.abs_opp. cbv zeta.
  destruct (Z.leb_spec 0 x); destruct (Z.leb_spec 0 (- x)); lia.
Qed.

Lemma rounded_curve_sign x curve limit :
  -127 <= x <= 127 -> (0 <= curve)%R -> 0 <= limit <= 32767 ->
  (0 < x -> 0 <= RoundedManualMode.applyExpoCurve A x curve limit)
  /\ (x < 0 -> RoundedManualMode.applyExpoCurve A x curve limit <= 0).
Proof.
  intros Hx Hc Hl.
  pose proof (rounded_magnitude_range (abs x) curve limit
                (abs_stick_range x Hx) Hc Hl) as M.
  unfold RoundedManualMode.applyExpoCurve. cbv zeta.
  split; intros S; destruct (Z.leb_spec 0 x); lia.
Qed.

(** At the centre: zero for a positive exponent, the limit itself for
    exponent 0, where [pow(0, 0)] is 1. *)
Lemma rounded_curve_centre curve limit :
  0 <= limit <= 32767 ->
  ((0 < curve)%R -> RoundedManualMode.applyExpoCurve A 0 curve limit = 0)
  /\ (curve = 0%R -> RoundedManualMode.applyExpoCurve A 0 curve limit = limit).
Proof.
  intros Hl. unfold RoundedManualMode.applyExpoCurve.
  change (abs 0) with 0. change (0 <=? 0) with true. cbv iota zeta.
  replace (0 / 127)%R with 0%R by lra. rewrite round_zero.
  split; intros C.
  - rewrite (powf_base_zero A conforming curve C), Rmult_0_l, round_zero.
    apply (truncate_IZR 0).
  - subst curve. rewrite (powf_exponent_zero A conforming), Rmult_1_l.
    rewrite (round_integer A conforming) by lia. apply truncate_IZR.
Qed.

End Rounded.

End RoundedCurveFacts.

(** ** Drive mapping and Safety Arbiter of manual mode *)

Module ManualProps.
Import Arduino FloatModel FloatFacts ManualMode.
Import ManualCases.

Lemma normalized_unit x :
  -127 <= x <= 127 -> (0 <= IZR (abs x) / 127 <= 1)%R.
Proof.
  intros H.
  assert (0 <= abs x <= 127) as A by (unfold abs; ztest; lia).
  destruct A as [A0 A1]. apply IZR_le in A0, A1. lra.
Qed.

(** The curved magnitude lies between zero and the limit. *)
Lemma curved_range x curve limit :
  -127 <= x <= 127 -> (0 <= curve)%R -> 0 <= limit ->
  (0 <= pow (IZR (abs x) / 127) curve * IZR limit <= IZR limit)%R.
Proof.
  intros Hx Hc Hl.
  pose proof (pow_unit_interval _ curve (normalized_unit x Hx) Hc) as P.
  apply IZR_le in Hl. nra.
Qed.

Lemma curved_magnitude_range x curve limit :
  -127 <= x <= 127 -> (0 <= curve)%R -> 0 <= limit ->
  0 <= truncate (pow (IZR (abs x) / 127) curve * IZR limit) <= limit.
Proof.
  intros Hx Hc Hl. apply truncate_between; [lia|].
  simpl. now apply curved_range.
Qed.

(** The result is bounded by the limit, for every exponent from zero up. *)
Lemma applyExpoCurve_bounded x curve limit :
  -127 <= x <= 127 -> (0 <= curve)%R -> 0 <= limit ->
  - limit <= applyExpoCurve x curve limit <= limit.
Proof.
  intros Hx Hc Hl.
  pose proof (curved_magnitude_range x curve limit Hx Hc Hl) as M.
  unfold applyExpoCurve. destruct (0 <=? x); lia.
Qed.

(** With exponent 1 the curve is the integer scaling [|x| * limit / 127]. *)
Lemma applyExpoCurve_exponent_one x limit :
  0 <= limit -> applyExpoCurve x expoCurve limit = applyExpoCurve_linear x limit.
Proof.
  intros Hl. unfold applyExpoCurve, applyExpoCurve_linear, expoCurve.
  pose proof (ArduinoFacts.abs_nonneg x) as A.
  assert (0 <= IZR (abs x) / 127)%R as N.
  { apply IZR_le in A. lra. }
  rewrite pow_exponent_one by assumption.
  replace (IZR (abs x) / 127 * IZR limit)%R
    with (IZR (abs x * limit) / IZR 127)%R
    by (rewrite mult_IZR; lra).
  rewrite truncate_quot by lia. reflexivity.
Qed.

(** A dome gain of 1.00 leaves the mapped value unchanged. *)
Lemma unit_gain m : truncate (IZR m * 1) = m.
Proof. rewrite Rmult_1_r. apply truncate_IZR. Qed.

(** C10, counterexample: with exponent 0 the curve maps the centred input 0
    to the full limit, since [pow(0, 0)] is 1.  The result 25 is not its own
    opposite and is positive although the input is zero.  With exponent 1
    the input 1 is curved to 0: a positive input whose result has no sign. *)
Lemma C10_zero_exponent_at_centre :
  (-127 <= 0 <= 127) /\ (0 <= 0)%R /\ 0 <= 25
  /\ applyExpoCurve 0 0 25 = 25
  /\ applyExpoCurve (- 0) 0 25 <> - applyExpoCurve 0 0 25
  /\ HybridMode.applyExpoCurve (- 0) 0 <> - HybridMode.applyExpoCurve 0 0
  /\ applyExpoCurve 1 1 25 = 0.
Proof.
  assert (applyExpoCurve 0 0 25 = 25) as E.
  { unfold applyExpoCurve.
    change (0 <=? 0) with true. cbv iota zeta.
    rewrite pow_exponent_zero, Rmult_1_l. apply truncate_IZR. }
  assert (HybridMode.applyExpoCurve 0 0 = 25) as E' by exact E.
  repeat split; try lia; try lra; try assumption.
  - change (- 0) with 0. rewrite E. discriminate.
  - change (- 0) with 0. rewrite E'. discriminate.
  - change (applyExpoCurve 1 1 25) with (applyExpoCurve 1 expoCurve 25).
    rewrite applyExpoCurve_exponent_one by lia. reflexivity.
Qed.

(** C10, amended: in rounded float arithmetic, for every input in
    [-127,127], every curve exponent from 0 up and every non-negative limit
    an [int] holds, the absolute value of the result of [applyExpoCurve]
    never exceeds the limit; away from the centre the helper is odd and its
    result is zero or has the sign of the input; at the centre the result
    is 0 for a positive exponent, so the helper is odd there too, and it is
    the limit itself for exponent 0.  The same holds for the two-argument
    helper of hybrid mode with the global speed limit. *)
Theorem C10_applyExpoCurve_odd_bounded (A : FloatArith.Arith)
    (x : Z) (curve : R) (limit : Z) :
  FloatArith.Conforming A ->
  -127 <= x <= 127 -> (0 <= curve)%R -> 0 <= limit <= 32767 ->
  (Z.abs (RoundedManualMode.applyExpoCurve A x curve limit) <= limit
   /\ (x <> 0 \/ (0 < curve)%R ->
       RoundedManualMode.applyExpoCurve A (- x) curve limit
       = - RoundedManualMode.applyExpoCurve A x curve limit)
   /\ (0 < x -> 0 <= RoundedManualMode.applyExpoCurve A x curve limit)
   /\ (x < 0 -> RoundedManualMode.applyExpoCurve A x curve limit <= 0)
   /\ ((0 < curve)%R -> RoundedManualMode.applyExpoCurve A 0 curve limit = 0)
   /\ (curve = 0%R ->
       RoundedManualMode.applyExpoCurve A 0 curve limit = limit))
  /\ (Z.abs (RoundedHybridMode.applyExpoCurve A x curve)
      <= HybridMode.speedLimit
      /\ (x <> 0 \/ (0 < curve)%R ->
          RoundedHybridMode.applyExpoCurve A (- x) curve
          = - RoundedHybridMode.applyExpoCurve A x curve)
      /\ (0 < x -> 0 <= RoundedHybridMode.applyExpoCurve A x curve)
      /\ (x < 0 -> RoundedHybridMode.applyExpoCurve A x curve <= 0)
      /\ ((0 < curve)%R -> RoundedHybridMode.applyExpoCurve A 0 curve = 0)
      /\ (curve = 0%R ->
          RoundedHybridMode.applyExpoCurve A 0 curve = HybridMode.speedLimit)).
Proof.
  intros Conf Hx Hc Hl.
  assert (forall l, 0 <= l <= 32767 ->
            Z.abs (RoundedManualMode.applyExpoCurve A x curve l) <= l
            /\ (x <> 0 \/ (0 < curve)%R ->
                RoundedManualMode.applyExpoCurve A (- x) curve l
                = - RoundedManualMode.applyExpoCurve A x curve l)
            /\ (0 < x -> 0 <= RoundedManualMode.applyExpoCurve A x curve l)
            /\ (x < 0 -> RoundedManualMode.applyExpoCurve A x curve l <= 0)
            /\ ((0 < curve)%R ->
                RoundedManualMode.applyExpoCurve A 0 curve l = 0)
            /\ (curve = 0%R ->
                RoundedManualMode.applyExpoCurve A 0 curve l = l)) as G.
  { intros l Hl'.
    destruct (RoundedCurveFacts.rounded_curve_sign A Conf x curve l Hx Hc Hl')
      as [S1 S2].
    destruct (RoundedCurveFacts.rounded_curve_centre A Conf curve l Hl')
      as [C1 C0].
    split; [now apply RoundedCurveFacts.rounded_curve_bounded|].
    split; [|repeat split; assumption].
    intros [N|P].
    - now apply RoundedCurveFacts.rounded_curve_odd.
    - destruct (Z.eq_dec x 0) as [->|N].
      + change (- 0) with 0. rewrite (C1 P). reflexivity.
      + now apply RoundedCurveFacts.rounded_curve_odd. }
  split.
  - now apply G.
  - apply (G HybridMode.speedLimit). unfold HybridMode.speedLimit. lia.
Qed.

(** The curve properties of C10 at full stick, the exponent 1.3 of carpet
    mode and limit 25, in the arithmetic of the target with a correctly
    rounded [pow]. *)
Lemma C10_applyExpoCurve_odd_bounded_witness :
  FloatArith.Conforming Binary32.correctly_rounded
  /\ (-127 <= 127 <= 127) /\ (0 <= 13 / 10)%R /\ 0 <= 25 <= 32767
  /\ Z.abs (RoundedManualMode.applyExpoCurve Binary32.correctly_rounded
              127 (13 / 10) 25) <= 25
  /\ RoundedManualMode.applyExpoCurve Binary32.correctly_rounded
       (- 127) (13 / 10) 25
     = - RoundedManualMode.applyExpoCurve Binary32.correctly_rounded
           127 (13 / 10) 25
  /\ Z.abs (RoundedHybridMode.applyExpoCurve Binary32.correctly_rounded
              127 (13 / 10)) <= HybridMode.speedLimit.
Proof.
  assert (FloatArith.Conforming Binary32.correctly_rounded) as Conf
    by apply RoundedCurveFacts.correctly_rounded_conforming.
  assert (-127 <= 127 <= 127) as Hx by lia.
  assert (0 <= 13 / 10)%R as Hc by lra.
  assert (0 <= 25 <= 32767) as Hl by lia.
  split; [exact Conf|].
  split; [exact Hx|]. split; [exact Hc|]. split; [exact Hl|].
  destruct (C10_applyExpoCurve_odd_bounded Binary32.correctly_rounded
              127 (13 / 10) 25 Conf Hx Hc Hl)
    as ((B & O & _) & (B' & _)).
  split; [exact B|]. split; [|exact B'].
  apply O. left. discriminate.
Defined.

(** The specification's example: full stick, exponent 1, limit 25. *)
Example full_stick_curved_to_limit : applyExpoCurve 127 expoCurve speedLimit = 25.
Proof.
  rewrite applyExpoCurve_exponent_one by (unfold speedLimit; lia).
  reflexivity.
Qed.

(** Evaluation of a tick on concrete readings: the curve calls are turned
    into the integer scaling and the rest is computed. *)
Ltac eval_tick :=
  unfold loopManualMode; cbv zeta;
  rewrite ?applyExpoCurve_exponent_one
    by (unfold speedLimit, domeSpeedLimit; lia);
  unfold domeRightGain, domeLeftGain; rewrite ?unit_gain;
  vm_compute.

Lemma first_tick_result :
  loopManualMode first_tick initial = (after_first_tick, [Drive 25; Turn 19]).
Proof. eval_tick. reflexivity. Qed.

(** C9, the code at the failing input: with the dome stick fully right on
    the first frame, the command written to the dome controller is 156,
    outside [-100,100] (and outside [-127,127]). *)
Theorem C9_dome_command_above_limit :
  snd (loopManualMode dome_right_tick initial) = [Drive 0; Turn 0; Dome 156]
  /\ domeSpeedLimit < 156.
Proof. split; [eval_tick; reflexivity|reflexivity]. Qed.

(** C2, the code at the failing input: one second after the last computed
    command, far beyond [motorTimeoutMs], the next frame still writes the
    non-zero drive and turn values, recomputed from the held channel
    values. *)
Theorem C2_stale_axes_not_zeroed :
  loopManualMode first_tick initial = (after_first_tick, [Drive 25; Turn 19])
  /\ motorTimeoutMs
     < usub (millis late_tick) (lastDriveCommandTime after_first_tick)
  /\ motorTimeoutMs
     < usub (millis late_tick) (lastTurnCommandTime after_first_tick)
  /\ snd (loopManualMode late_tick after_first_tick) = [Drive 25; Turn 19].
Proof.
  split; [exact first_tick_result|].
  split; [reflexivity|]. split; [reflexivity|].
  eval_tick. reflexivity.
Qed.

(** Every frame that runs writes the drive command it has just computed:
    the previous state, and with it the age of the previous command, plays
    no part, so the drive timeout cannot fire.  The turn command is zero
    when the turn input is zero and the freshly curved value otherwise. *)
Lemma executed_frame_commands (i : Inputs) (s : State) :
  frameIntervalMicros <= usub (nowMicros i) (lastFrameMicros s) ->
  exists rest,
    snd (loopManualMode i s)
    = Drive (if killHeld i then 0
             else applyExpoCurve (mappedDriveOf i) expoCurve speedLimit)
      :: Turn (if killHeld i then 0
               else if mappedTurnOf i =? 0 then 0
               else applyExpoCurve (mappedTurnOf i) expoCurve speedLimit)
      :: rest.
Proof.
  intros G. unfold loopManualMode.
  destruct (Z.ltb_spec (usub (nowMicros i) (lastFrameMicros s))
                       frameIntervalMicros) as [L|_]; [lia|].
  cbv zeta. unfold snd.
  fold (mappedDriveOf i). fold (mappedTurnOf i). fold (killHeld i).
  unfold safetyTimeout. rewrite ArduinoFacts.usub_self.
  change (motorTimeoutMs <? 0) with false.
  eexists. f_equal. f_equal. f_equal.
  destruct (killHeld i).
  - now destruct (motorTimeoutMs <? _).
  - destruct (Z.eqb_spec (mappedTurnOf i) 0) as [E|N].
    + rewrite andb_true_l. destruct (wasTurnInputActive s);
        now destruct (motorTimeoutMs <? _).
    + rewrite andb_false_l. rewrite ArduinoFacts.usub_self. reflexivity.
Qed.

Lemma map_axis_range x :
  1000 <= x <= 2000 -> -127 <= map x 1000 2000 (-127) 127 <= 127.
Proof.
  intros H. unfold map.
  change (127 - -127) with 254. change (2000 - 1000) with 1000.
  rewrite Z.quot_div_nonneg by lia.
  assert (0 <= (x - 1000) * 254 / 1000) by (apply Z.div_pos; lia).
  assert ((x - 1000) * 254 / 1000 <= 254).
  { apply Z.div_le_upper_bound; lia. }
  lia.
Qed.

Lemma mappedDriveOf_range i : -127 <= mappedDriveOf i <= 127.
Proof.
  unfold mappedDriveOf. cbv zeta.
  pose proof (map_axis_range _
    (ArduinoFacts.constrain_range
       (PWMInputHandler.getPWMValue_CH2A (pwm i)) 1000 2000 ltac:(lia))).
  destruct (_ <=? deadZone); lia.
Qed.

Lemma mappedTurnOf_range i : -127 <= mappedTurnOf i <= 127.
Proof.
  unfold mappedTurnOf. cbv zeta.
  pose proof (map_axis_range _
    (ArduinoFacts.constrain_range
       (PWMInputHandler.getPWMValue_CH1A (pwm i)) 1000 2000 ltac:(lia))) as M.
  set (m1 := if _ <=? deadZone then 0 else _).
  assert (-127 <= m1 <= 127) as M1 by (subst m1; destruct (_ <=? deadZone); lia).
  destruct (40 <? _); [|exact M1].
  pose proof (ArduinoFacts.constrain_range m1 (-100) 100 ltac:(lia)). lia.
Qed.

(** The drive and turn commands of every frame lie within the speed limit,
    hence within [-127,127], for every decoder value. *)
Lemma drive_turn_within_limit (i : Inputs) (s : State) (c : Command) :
  In c (snd (loopManualMode i s)) ->
  match c with
  | Drive v | Turn v => - speedLimit <= v <= speedLimit
  | Dome _ => True
  end.
Proof.
  intros Hin.
  destruct (Z.lt_ge_cases (usub (nowMicros i) (lastFrameMicros s))
                          frameIntervalMicros) as [L|G].
  - unfold loopManualMode in Hin.
    destruct (Z.ltb_spec (usub (nowMicros i) (lastFrameMicros s))
                         frameIntervalMicros); [|lia].
    destruct Hin.
  - destruct (executed_frame_commands i s G) as [rest E].
    assert (forall v, In (Dome v) (snd (loopManualMode i s)) -> True) by auto.
    pose proof (applyExpoCurve_bounded (mappedDriveOf i) expoCurve speedLimit
                  (mappedDriveOf_range i) ltac:(unfold expoCurve; lra)
                  ltac:(unfold speedLimit; lia)) as BD.
    pose proof (applyExpoCurve_bounded (mappedTurnOf i) expoCurve speedLimit
                  (mappedTurnOf_range i) ltac:(unfold expoCurve; lra)
                  ltac:(unfold speedLimit; lia)) as BT.
    destruct c as [v|v|v]; [| |exact I].
    + rewrite E in Hin. destruct Hin as [Hd|[Ht|Hr]].
      * injection Hd as <-. destruct (killHeld i); unfold speedLimit in *; lia.
      * discriminate.
      * unfold loopManualMode in E.
        destruct (Z.ltb_spec (usub (nowMicros i) (lastFrameMicros s))
                             frameIntervalMicros); [lia|].
        cbv zeta in E. unfold snd in E. injection E as _ _ <-.
        destruct (negb _); [destruct Hr as [Hr|[]]; discriminate|destruct Hr].
    + rewrite E in Hin. destruct Hin as [Hd|[Ht|Hr]].
      * discriminate.
      * injection Ht as <-.
        destruct (killHeld i); [unfold speedLimit; lia|].
        destruct (_ =? 0); unfold speedLimit in *; lia.
      * unfold loopManualMode in E.
        destruct (Z.ltb_spec (usub (nowMicros i) (lastFrameMicros s))
                             frameIntervalMicros); [lia|].
        cbv zeta in E. unfold snd in E. injection E as _ _ <-.
        destruct (negb _); [destruct Hr as [Hr|[]]; discriminate|destruct Hr].
Qed.

End ManualProps.

(** ** Arithmetic of a timed dome move *)

Module MoveFacts.
Import FloatModel FloatFacts.
Local Open Scope R_scope.

(** The angle recovered from the truncated duration never exceeds the
    requested angle. *)
Lemma actual_angle_range (angle adj : R) :
  0 <= angle -> 0 <= adj ->
  0 <= IZR (truncate (angle * adj)) / adj <= angle.
Proof.
  intros Ha [Hp|Hz].
  - assert (0 <= angle * adj) as P by nra.
    destruct (truncate_floor_bounds _ P) as (T0 & T1 & _).
    assert (0 < / adj) as I by now apply Rinv_0_lt_compat.
    split.
    + unfold Rdiv. nra.
    + apply Rmult_le_reg_r with adj; [assumption|].
      unfold Rdiv. rewrite Rmult_assoc, Rinv_l by lra. lra.
  - subst adj. rewrite Rmult_0_r. rewrite (truncate_IZR 0).
    unfold Rdiv. rewrite Rmult_0_l. lra.
Qed.

(** At one millisecond per degree or slower, truncating the duration loses
    less than one degree. *)
Lemma actual_angle_close (angle adj : R) :
  0 <= angle -> 1 <= adj ->
  angle - 1 < IZR (truncate (angle * adj)) / adj.
Proof.
  intros Ha Hadj.
  assert (0 <= angle * adj) as P by nra.
  destruct (truncate_floor_bounds _ P) as (_ & _ & T2).
  apply Rmult_lt_reg_r with adj; [lra|].
  unfold Rdiv. rewrite Rmult_assoc, Rinv_l by lra. nra.
Qed.

Lemma Rabs_IZR_nonneg d : (0 <= d)%Z -> Rabs (IZR d) = IZR d.
Proof. intros H. apply Rabs_pos_eq. now apply IZR_le. Qed.

Lemma Rabs_IZR_neg d : (d < 0)%Z -> Rabs (IZR d) = - IZR d.
Proof. intros H. apply Rabs_left. now apply IZR_lt. Qed.

(** [fabs(offset) > 0.5] on an integer offset: the offset is not zero. *)
Lemma beyond_epsilon_iff d :
  5 / 10 < Rabs (IZR d) <-> d <> 0%Z.
Proof.
  split.
  - intros H E. subst d. rewrite Rabs_R0 in H. lra.
  - intros N. destruct (Z_lt_le_dec d 0) as [L|G].
    + rewrite Rabs_IZR_neg by assumption.
      assert (IZR d <= IZR (-1)) by (apply IZR_le; lia). lra.
    + rewrite Rabs_IZR_nonneg by assumption.
      assert (IZR 1 <= IZR d) by (apply IZR_le; lia). lra.
Qed.

(** A free move from a centred dome: the new offset is within the drawn
    angle. *)
Lemma free_move_offset (a direction : Z) (adj : R) :
  (0 <= a)%Z -> (direction = -1 \/ direction = 1)%Z -> 0 <= adj ->
  (Z.abs (truncate (IZR 0 + IZR direction
                              * (IZR (truncate (IZR a * adj)) / adj))) <= a)%Z.
Proof.
  intros Ha Hd Hadj.
  assert (0 <= IZR a) as Ha' by now apply IZR_le.
  pose proof (actual_angle_range (IZR a) adj Ha' Hadj) as X.
  set (x := IZR (truncate (IZR a * adj)) / adj) in *.
  assert (- a <= truncate (IZR 0 + IZR direction * x) <= a)%Z as B.
  { apply truncate_between; [lia|]. rewrite opp_IZR.
    destruct Hd as [-> | ->]; simpl; lra. }
  lia.
Qed.

(** A return move never moves the offset away from zero. *)
Lemma return_move_offset_shrinks (d : Z) (adj : R) :
  0 <= adj ->
  (Z.abs (truncate (IZR d + IZR (if (0 <=? d)%Z then -1 else 1)
                              * (IZR (truncate (Rabs (IZR d) * adj)) / adj)))
   <= Z.abs d)%Z.
Proof.
  intros Hadj.
  pose proof (actual_angle_range (Rabs (IZR d)) adj (Rabs_pos _) Hadj) as X.
  set (x := IZR (truncate (Rabs (IZR d) * adj)) / adj) in *.
  destruct (Z.leb_spec 0 d) as [G|L].
  - rewrite Rabs_IZR_nonneg in X by assumption.
    assert (0 <= truncate (IZR d + IZR (-1) * x) <= d)%Z as B.
    { apply truncate_between; [lia|]. simpl. lra. }
    lia.
  - rewrite Rabs_IZR_neg in X by assumption.
    assert (d <= truncate (IZR d + IZR 1 * x) <= 0)%Z as B.
    { apply truncate_between; [lia|]. simpl. lra. }
    lia.
Qed.

(** At one millisecond per degree or slower, a return move brings the
    offset to exactly zero. *)
Lemma return_move_offset_zero (d : Z) (adj : R) :
  1 <= adj ->
  truncate (IZR d + IZR (if (0 <=? d)%Z then -1 else 1)
                    * (IZR (truncate (Rabs (IZR d) * adj)) / adj)) = 0%Z.
Proof.
  intros Hadj.
  pose proof (actual_angle_range (Rabs (IZR d)) adj (Rabs_pos _) ltac:(lra))
    as X.
  pose proof (actual_angle_close (Rabs (IZR d)) adj (Rabs_pos _) Hadj) as Y.
  set (x := IZR (truncate (Rabs (IZR d) * adj)) / adj) in *.
  apply truncate_small.
  destruct (Z.leb_spec 0 d) as [G|L].
  - rewrite Rabs_IZR_nonneg in X, Y by assumption. simpl. lra.
  - rewrite Rabs_IZR_neg in X, Y by assumption. simpl. lra.
Qed.

(** The speed curve: [pow(30 / speed, 1.4)] for a locked speed up to 32. *)
Lemma scale_factor_lower_bound (speed : Z) :
  (0 < speed <= 32)%Z -> 225 / 256 <= pow (IZR 30 / IZR speed) (14 / 10).
Proof.
  intros [H0 H32].
  assert (0 < IZR speed <= 32) as S.
  { split; [now apply (IZR_lt 0)|now apply (IZR_le speed 32)]. }
  assert (15 / 16 <= IZR 30 / IZR speed) as Rr.
  { assert (IZR 30 / IZR speed * IZR speed = 30) as E by (field; lra).
    apply Rmult_le_reg_r with (IZR speed); [lra|]. rewrite E. lra. }
  assert (0 < IZR 30 / IZR speed) as Rp by lra.
  rewrite pow_positive by lra.
  apply Rle_trans with (Rpower (15 / 16) (14 / 10)).
  - apply Rle_trans with (Rpower (15 / 16) (1 + 1)).
    + rewrite Rpower_plus, Rpower_1 by lra. lra.
    + unfold Rpower.
      assert (ln (15 / 16) < 0) as L.
      { rewrite <- ln_1. apply ln_increasing; lra. }
      left. apply exp_increasing. nra.
  - apply Rle_Rpower_l; lra.
Qed.

End MoveFacts.

(** ** Automation Scheduler of automated mode *)

Module AutomatedProps.
Import Arduino FloatModel FloatFacts MoveFacts AutomatedMode.
Import AutomatedCases.

Lemma offsetBeyondEpsilon_true d : offsetBeyondEpsilon d = true <-> d <> 0.
Proof.
  unfold offsetBeyondEpsilon.
  destruct (Rlt_dec (5 / 10) (Rabs (IZR d))) as [H|H].
  - apply beyond_epsilon_iff in H. tauto.
  - split; [discriminate|]. intros N. apply beyond_epsilon_iff in N. tauto.
Qed.

Lemma adjusted_nonneg speed isReturnMove direction :
  (0 <= adjustedMsPerDegree speed isReturnMove direction)%R.
Proof.
  unfold adjustedMsPerDegree, baseMsPerDegree. cbv zeta.
  pose proof (pow_nonneg (IZR baseSpeed / IZR speed) curveFactor) as P.
  destruct (negb isReturnMove && (0 <? direction));
    [|destruct (negb isReturnMove && (direction <? 0))]; nra.
Qed.

(** A return move runs at the unmodified rate. *)
Lemma adjusted_return speed direction :
  adjustedMsPerDegree speed true direction
  = (baseMsPerDegree * pow (IZR baseSpeed / IZR speed) curveFactor)%R.
Proof. reflexivity. Qed.

Lemma adjusted_return_slow speed direction :
  0 < speed <= 32 -> (1 <= adjustedMsPerDegree speed true direction)%R.
Proof.
  intros H. rewrite adjusted_return. unfold baseMsPerDegree, baseSpeed, curveFactor.
  pose proof (scale_factor_lower_bound speed H). lra.
Qed.

Lemma lockedSpeed_range r s :
  minSpeed <= sequenceSpeed s <= maxSpeed ->
  minSpeed <= lockedSpeed r s <= maxSpeed.
Proof.
  intros H. unfold lockedSpeed.
  destruct (negb (sequenceStarted s)); [|exact H].
  pose proof (ArduinoFacts.random_range minSpeed (maxSpeed + 1) (rSpeed r)
                ltac:(unfold minSpeed, maxSpeed; lia)).
  lia.
Qed.

Lemma moveDue_gate now s :
  moveDue now s ->
  domeMoving s = false
  /\ (usub now (lastMoveTime s) <? nextMoveDelay s)
     || (usub now (modeEntryTime s) <? modeDelayMillis) = false.
Proof.
  intros (M & D1 & D2). split; [exact M|].
  destruct (Z.ltb_spec (usub now (lastMoveTime s)) (nextMoveDelay s)); [lia|].
  destruct (Z.ltb_spec (usub now (modeEntryTime s)) modeDelayMillis); [lia|].
  reflexivity.
Qed.

(** The correction move, as [runDomeAutomation] issues it. *)
Lemma correction_move now r s :
  moveDue now s ->
  movesBeforeCenter <= moveCount s \/ domeOffset s <> 0 ->
  minSpeed <= sequenceSpeed s <= maxSpeed ->
  let direction := if 0 <=? domeOffset s then -1 else 1 in
  let speed := lockedSpeed r s in
  let s' := fst (runDomeAutomation now r s) in
  snd (runDomeAutomation now r s) = [Motor (direction * speed)]
  /\ domeEndTime s'
     = uadd now (truncate (Rabs (IZR (domeOffset s))
                           * (baseMsPerDegree
                              * pow (IZR baseSpeed / IZR speed) curveFactor)))
  /\ moveCount s' = 0
  /\ sequenceStarted s' = false
  /\ domeOffset s' = 0
  /\ domeMoving s' = true.
Proof.
  intros Due Corr Speed.
  destruct (moveDue_gate now s Due) as [M G].
  assert ((movesBeforeCenter <=? moveCount s)
          || offsetBeyondEpsilon (domeOffset s) = true) as R.
  { destruct Corr as [C|C].
    - destruct (Z.leb_spec movesBeforeCenter (moveCount s)); [reflexivity|lia].
    - apply offsetBeyondEpsilon_true in C. rewrite C. apply orb_true_r. }
  pose proof (lockedSpeed_range r s Speed) as LS.
  cbv zeta. unfold runDomeAutomation. rewrite M, G. cbv zeta.
  fold (lockedSpeed r s). rewrite R.
  cbn [fst snd domeEndTime moveCount sequenceStarted domeOffset domeMoving].
  repeat split.
  apply return_move_offset_zero.
  apply adjusted_return_slow. unfold minSpeed, maxSpeed in LS. lia.
Qed.

Lemma initial_bounded t : bounded (setupAutomatedMode t initial).
Proof. unfold bounded. simpl. unfold domeMaxAngle, minSpeed, maxSpeed, baseSpeed. lia. Qed.

Lemma runDomeAutomation_bounded now r s :
  bounded s -> bounded (fst (runDomeAutomation now r s)).
Proof.
  intros [Off Speed]. unfold runDomeAutomation.
  destruct (domeMoving s).
  { destruct (domeEndTime s <=? now); split; assumption. }
  destruct ((usub now (lastMoveTime s) <? nextMoveDelay s)
            || (usub now (modeEntryTime s) <? modeDelayMillis)).
  { split; assumption. }
  cbv zeta. fold (lockedSpeed r s).
  pose proof (lockedSpeed_range r s Speed) as LS.
  unfold bounded. cbn [fst domeOffset sequenceSpeed].
  split; [|exact LS].
  destruct (Z.leb_spec movesBeforeCenter (moveCount s)) as [C|C];
    cbn [orb].
  - eapply Z.le_trans; [apply return_move_offset_shrinks|exact Off].
    apply adjusted_nonneg.
  - destruct (offsetBeyondEpsilon (domeOffset s)) eqn:B.
    + eapply Z.le_trans; [apply return_move_offset_shrinks|exact Off].
      apply adjusted_nonneg.
    + assert (domeOffset s = 0) as Z0.
      { destruct (Z.eq_dec (domeOffset s) 0) as [E|N]; [exact E|].
        apply offsetBeyondEpsilon_true in N. congruence. }
      rewrite Z0.
      pose proof (ArduinoFacts.random_range domeMinAngle (domeMaxAngle + 1)
                    (rAngle r) ltac:(unfold domeMinAngle, domeMaxAngle; lia))
        as A.
      eapply Z.le_trans.
      * apply free_move_offset.
        -- assert (0 <= domeMinAngle) by (unfold domeMinAngle; lia). lia.
        -- destruct (random 0 2 (rDirection r) =? 0); auto.
        -- apply adjusted_nonneg.
      * lia.
Qed.

Lemma runAutoMP3_keeps_dome now sup r s :
  domeOffset (fst (runAutoMP3 now sup r s)) = domeOffset s
  /\ sequenceSpeed (fst (runAutoMP3 now sup r s)) = sequenceSpeed s
  /\ domeMoving (fst (runAutoMP3 now sup r s)) = domeMoving s
  /\ domeEndTime (fst (runAutoMP3 now sup r s)) = domeEndTime s.
Proof.
  unfold runAutoMP3.
  destruct (nextMP3Delay s <? usub now (lastMP3Time s)); repeat split.
Qed.

Lemma noteKillState_keeps_dome k s :
  domeOffset (noteKillState k s) = domeOffset s
  /\ sequenceSpeed (noteKillState k s) = sequenceSpeed s
  /\ domeMoving (noteKillState k s) = domeMoving s
  /\ domeEndTime (noteKillState k s) = domeEndTime s.
Proof.
  unfold noteKillState.
  destruct (negb (Bool.eqb k (lastKillState s))); repeat split.
Qed.

Lemma loopAutomatedMode_bounded i s :
  bounded s -> bounded (fst (loopAutomatedMode i s)).
Proof.
  intros B. unfold loopAutomatedMode. cbv zeta.
  assert (bounded (noteKillState (killActive i) s)) as B1.
  { destruct (noteKillState_keeps_dome (killActive i) s) as (E1 & E2 & _).
    unfold bounded. rewrite E1, E2. exact B. }
  destruct (negb (killActive i)); [|exact B1].
  pose proof (runDomeAutomation_bounded (millis_dome i) (domeDraws i) _ B1)
    as B2.
  destruct (runDomeAutomation _ _ _) as [s2 out2]. cbn [fst] in B2.
  destruct (runAutoMP3_keeps_dome (millis_mp3 i) (suppressed i) (mp3Draws i) s2)
    as (E1 & E2 & _).
  destruct (runAutoMP3 _ _ _ s2) as [s3 out3]. cbn [fst] in *.
  unfold bounded. rewrite E1, E2. exact B2.
Qed.

Lemma run_bounded ticks : forall s, bounded s -> bounded (fst (run ticks s)).
Proof.
  induction ticks as [|i rest IH]; intros s B; [exact B|].
  cbn [run].
  pose proof (loopAutomatedMode_bounded i s B) as B1.
  destruct (loopAutomatedMode i s) as [s1 out1]. cbn [fst] in B1.
  specialize (IH s1 B1).
  destruct (run rest s1) as [s2 out2]. exact IH.
Qed.

(** C5: over every run of the scheduler, however long, the accumulated
    dome offset stays within a fixed bound, the configured maximum angle
    of a free move. *)
Theorem C5_offset_bounded (t : Z) (ticks : list Inputs) :
  Z.abs (domeOffset (fst (run ticks (setupAutomatedMode t initial))))
  <= domeMaxAngle.
Proof. apply (run_bounded ticks _ (initial_bounded t)). Qed.

(** Along every run the locked speed stays within the configured range,
    which is what the correction move needs to return exactly to zero. *)
Lemma run_speed_in_range (t : Z) (ticks : list Inputs) :
  minSpeed <= sequenceSpeed (fst (run ticks (setupAutomatedMode t initial)))
  <= maxSpeed.
Proof. apply (run_bounded ticks _ (initial_bounded t)). Qed.

(** C4: whenever a move is due and the swing count has reached the
    threshold or the absolute offset exceeds the epsilon, the move issued is
    a correction: its direction is the one that reduces the offset, its
    duration is that of the angle |offset| at the unmodified rate, the
    swing count is reset, the sequence speed is unlocked, and the offset
    after the move is zero. *)
Theorem C4_correction_move (now : Z) (r : DomeDraws) (s : State) :
  moveDue now s ->
  movesBeforeCenter <= moveCount s
  \/ (5 / 10 < Rabs (IZR (domeOffset s)))%R ->
  minSpeed <= sequenceSpeed s <= maxSpeed ->
  exists direction,
    (direction = -1 \/ direction = 1)
    /\ (0 < domeOffset s -> direction = -1)
    /\ (domeOffset s < 0 -> direction = 1)
    /\ snd (runDomeAutomation now r s) = [Motor (direction * lockedSpeed r s)]
    /\ domeEndTime (fst (runDomeAutomation now r s))
       = uadd now
           (truncate (Rabs (IZR (domeOffset s))
                      * (baseMsPerDegree
                         * pow (IZR baseSpeed / IZR (lockedSpeed r s))
                               curveFactor)))
    /\ moveCount (fst (runDomeAutomation now r s)) = 0
    /\ sequenceStarted (fst (runDomeAutomation now r s)) = false
    /\ domeOffset (fst (runDomeAutomation now r s)) = 0
    /\ domeMoving (fst (runDomeAutomation now r s)) = true.
Proof.
  intros Due Corr Speed.
  assert (movesBeforeCenter <= moveCount s \/ domeOffset s <> 0) as Corr'.
  { destruct Corr as [C|C]; [now left|right]. now apply beyond_epsilon_iff. }
  destruct (correction_move now r s Due Corr' Speed) as (O & E & M & Q & D & G).
  exists (if 0 <=? domeOffset s then -1 else 1).
  repeat split; try assumption.
  - destruct (0 <=? domeOffset s); auto.
  - intros P. destruct (Z.leb_spec 0 (domeOffset s)); [reflexivity|lia].
  - intros P. destruct (Z.leb_spec 0 (domeOffset s)); [lia|reflexivity].
Qed.

(** The correction of C4 from a dome 9 degrees off centre. *)
Lemma C4_correction_move_witness :
  moveDue 20000 off_centre
  /\ (movesBeforeCenter <= moveCount off_centre
      \/ (5 / 10 < Rabs (IZR (domeOffset off_centre)))%R)
  /\ minSpeed <= sequenceSpeed off_centre <= maxSpeed
  /\ exists direction,
      (direction = -1 \/ direction = 1)
      /\ (0 < domeOffset off_centre -> direction = -1)
      /\ (domeOffset off_centre < 0 -> direction = 1)
      /\ snd (runDomeAutomation 20000 (mkDomeDraws 0 0 0 0) off_centre)
         = [Motor (direction * lockedSpeed (mkDomeDraws 0 0 0 0) off_centre)]
      /\ domeEndTime (fst (runDomeAutomation 20000 (mkDomeDraws 0 0 0 0) off_centre))
         = uadd 20000
             (truncate (Rabs (IZR (domeOffset off_centre))
                        * (baseMsPerDegree
                           * pow (IZR baseSpeed
                                  / IZR (lockedSpeed (mkDomeDraws 0 0 0 0) off_centre))
                                 curveFactor)))
      /\ moveCount (fst (runDomeAutomation 20000 (mkDomeDraws 0 0 0 0) off_centre)) = 0
      /\ sequenceStarted (fst (runDomeAutomation 20000 (mkDomeDraws 0 0 0 0) off_centre))
         = false
      /\ domeOffset (fst (runDomeAutomation 20000 (mkDomeDraws 0 0 0 0) off_centre)) = 0
      /\ domeMoving (fst (runDomeAutomation 20000 (mkDomeDraws 0 0 0 0) off_centre))
         = true.
Proof.
  assert (moveDue 20000 off_centre) as Due.
  { unfold moveDue. repeat split; vm_compute; discriminate. }
  assert (movesBeforeCenter <= moveCount off_centre
          \/ (5 / 10 < Rabs (IZR (domeOffset off_centre)))%R) as Corr.
  { right. apply beyond_epsilon_iff. discriminate. }
  assert (minSpeed <= sequenceSpeed off_centre <= maxSpeed) as Speed.
  { split; vm_compute; discriminate. }
  split; [exact Due|]. split; [exact Corr|]. split; [exact Speed|].
  exact (C4_correction_move 20000 (mkDomeDraws 0 0 0 0) off_centre
           Due Corr Speed).
Defined.

(** *** Kill switch and a move in flight *)

(** While a move is in flight a call only watches the end time. *)
Lemma in_flight now r s :
  domeMoving s = true ->
  runDomeAutomation now r s
  = if domeEndTime s <=? now then (finishMove s, [Motor 0]) else (s, []).
Proof. intros M. unfold runDomeAutomation. now rewrite M. Qed.

(** With the kill switch held, a tick writes nothing and leaves the dome
    state as it is: a move in flight stays in flight, whatever the time. *)
Lemma kill_held_tick i s :
  killActive i = true ->
  snd (loopAutomatedMode i s) = []
  /\ domeMoving (fst (loopAutomatedMode i s)) = domeMoving s
  /\ domeEndTime (fst (loopAutomatedMode i s)) = domeEndTime s
  /\ domeOffset (fst (loopAutomatedMode i s)) = domeOffset s.
Proof.
  intros K. unfold loopAutomatedMode. rewrite K. cbn [negb fst snd].
  destruct (noteKillState_keeps_dome true s) as (E1 & E2 & E3 & E4).
  repeat split; assumption.
Qed.

(** The same over any number of ticks with the kill switch held. *)
Lemma kill_held_run ticks : forall s,
  Forall (fun i => killActive i = true) ticks ->
  snd (run ticks s) = []
  /\ domeMoving (fst (run ticks s)) = domeMoving s
  /\ domeEndTime (fst (run ticks s)) = domeEndTime s.
Proof.
  induction ticks as [|i rest IH]; intros s F.
  - repeat split.
  - inversion F as [|? ? K F']; subst.
    destruct (kill_held_tick i s K) as (O & M & E & _).
    cbn [run]. destruct (loopAutomatedMode i s) as [s1 out1].
    cbn [fst snd] in *. subst out1.
    destruct (IH s1 F') as (O' & M' & E').
    destruct (run rest s1) as [s2 out2]. cbn [fst snd] in *.
    subst out2. repeat split; congruence.
Qed.

(** Without the kill switch, the tick that reaches the end time of a move
    in flight writes the stop command first. *)
Lemma free_tick_stops_move i s :
  killActive i = false ->
  domeMoving s = true ->
  domeEndTime s <= millis_dome i ->
  exists rest, snd (loopAutomatedMode i s) = Motor 0 :: rest.
Proof.
  intros K M E. unfold loopAutomatedMode. rewrite K. cbn [negb].
  destruct (noteKillState_keeps_dome false s) as (_ & _ & M1 & E1).
  rewrite in_flight by congruence. rewrite E1.
  destruct (Z.leb_spec (domeEndTime s) (millis_dome i)); [|lia].
  destruct (runAutoMP3 _ _ _ _) as [s3 out3].
  exists out3. reflexivity.
Qed.

Lemma pow_base_one y : pow 1 y = 1%R.
Proof.
  unfold pow. destruct (Req_dec_T y 0); [reflexivity|].
  destruct (Rle_dec 1 0); [lra|].
  unfold Rpower. rewrite ln_1, Rmult_0_r. apply exp_0.
Qed.

(** A free move, as [runDomeAutomation] issues it from a centred dome. *)
Lemma free_move now r s :
  moveDue now s ->
  moveCount s < movesBeforeCenter ->
  domeOffset s = 0 ->
  let direction := if random 0 2 (rDirection r) =? 0 then -1 else 1 in
  let angle := random domeMinAngle (domeMaxAngle + 1) (rAngle r) in
  let speed := lockedSpeed r s in
  let adjusted := adjustedMsPerDegree speed false direction in
  runDomeAutomation now r s
  = (mkState now (random minDelayMs (maxDelayMs + 1) (rDelay r))
             (lastMP3Time s) (nextMP3Delay s) (lastKillState s)
             (modeEntryTime s) true
             (truncate (IZR 0 + IZR direction
                                * (IZR (truncate (IZR angle * adjusted))
                                   / adjusted)))
             (moveCount s + 1) speed direction
             (uadd now (truncate (IZR angle * adjusted)))
             speed true direction,
     [Motor (direction * speed)]).
Proof.
  intros Due C Z0. destruct (moveDue_gate now s Due) as [M G].
  cbv zeta. unfold runDomeAutomation. rewrite M, G. cbv zeta.
  fold (lockedSpeed r s).
  assert ((movesBeforeCenter <=? moveCount s)
          || offsetBeyondEpsilon (domeOffset s) = false) as R.
  { destruct (Z.leb_spec movesBeforeCenter (moveCount s)); [lia|].
    destruct (offsetBeyondEpsilon (domeOffset s)) eqn:B; [|reflexivity].
    apply offsetBeyondEpsilon_true in B. contradiction. }
  rewrite R, Z0. reflexivity.
Qed.

Lemma first_move_rate :
  adjustedMsPerDegree 30 false 1 = (1700 / 90 * (106 / 100))%R.
Proof.
  unfold adjustedMsPerDegree, baseMsPerDegree, baseSpeed. cbv zeta.
  change (negb false && (0 <? 1)) with true. cbv iota.
  replace (IZR 30 / IZR 30)%R with 1%R by lra.
  rewrite pow_base_one. lra.
Qed.

Lemma start_tick_result :
  loopAutomatedMode start_tick entered = (moving, [Motor 30; Mp3 1]).
Proof.
  unfold loopAutomatedMode.
  replace (killActive start_tick) with false by (vm_compute; reflexivity).
  cbn [negb].
  replace (noteKillState false entered) with entered
    by (vm_compute; reflexivity).
  assert (moveDue (millis_dome start_tick) entered) as Due.
  { unfold moveDue. repeat split; vm_compute; discriminate. }
  rewrite (free_move _ (domeDraws start_tick) entered Due)
    by (vm_compute; reflexivity).
  replace (lockedSpeed (domeDraws start_tick) entered) with 30
    by (vm_compute; reflexivity).
  replace (random 0 2 (rDirection (domeDraws start_tick)) =? 0) with false
    by (vm_compute; reflexivity).
  replace (random domeMinAngle (domeMaxAngle + 1) (rAngle (domeDraws start_tick)))
    with 10 by (vm_compute; reflexivity).
  rewrite first_move_rate.
  assert (truncate (IZR 10 * (1700 / 90 * (106 / 100))) = 200) as D.
  { apply truncate_floor; simpl; lra. }
  rewrite D.
  assert (truncate (IZR 0 + IZR 1 * (IZR 200 / (1700 / 90 * (106 / 100)))) = 9)
    as O.
  { apply truncate_floor; simpl; lra. }
  rewrite O.
  unfold runAutoMP3, mp3MinIntervalSec, mp3MaxIntervalSec.
  replace (20 * 1000)%R with (IZR 20000) by lra.
  replace (60 * 1000)%R with (IZR 60000) by lra.
  rewrite !truncate_IZR.
  vm_compute. reflexivity.
Qed.

(** The tick at the end time, without the kill switch, stops the move. *)
Lemma stop_tick_result :
  loopAutomatedMode (free_tick 3200) moving = (off_centre, [Motor 0]).
Proof. vm_compute. reflexivity. Qed.

(** C3, the code at the failing input: a move started at 3000 ms is due to
    end at 3200 ms.  With the kill switch held from 3100 ms on, the ticks at
    3200, 3220 and 60000 ms write nothing, so the stop command is not
    issued at the end time and the move is still marked in flight; the
    tick at 3200 ms without the kill switch writes the stop, and so does
    the first tick after the release. *)
Theorem C3_kill_withholds_stop :
  loopAutomatedMode start_tick entered = (moving, [Motor 30; Mp3 1])
  /\ domeEndTime moving = 3200
  /\ Forall (fun i => killActive i = true) kill_held
  /\ snd (run kill_held moving) = []
  /\ domeMoving (fst (run kill_held moving)) = true
  /\ snd (loopAutomatedMode (free_tick 3200) moving) = [Motor 0]
  /\ exists rest,
       snd (loopAutomatedMode (free_tick 60020) (fst (run kill_held moving)))
       = Motor 0 :: rest.
Proof.
  assert (Forall (fun i => killActive i = true) kill_held) as F.
  { repeat constructor. }
  destruct (kill_held_run kill_held moving F) as (O & M & E).
  split; [exact start_tick_result|].
  split; [reflexivity|].
  split; [exact F|].
  split; [exact O|].
  split; [exact M|].
  split; [vm_compute; reflexivity|].
  apply free_tick_stops_move.
  - reflexivity.
  - exact M.
  - rewrite E. vm_compute. discriminate.
Qed.

(** *** Audio cadence *)

(** In automated mode a suppressed firing submits no track and leaves the
    state exactly as a firing that plays would: the time of the firing is
    recorded and the next interval drawn from the configured range. *)
Lemma suppressed_cadence_reschedules now r s :
  cadenceDue now s ->
  snd (runAutoMP3 now true r s) = []
  /\ fst (runAutoMP3 now true r s) = fst (runAutoMP3 now false r s)
  /\ lastMP3Time (fst (runAutoMP3 now true r s)) = now
  /\ nextMP3Delay (fst (runAutoMP3 now true r s))
     = random 20000 60000 (rInterval r)
  /\ exists track, snd (runAutoMP3 now false r s) = [Mp3 track].
Proof.
  unfold cadenceDue. intros D. unfold runAutoMP3.
  destruct (Z.ltb_spec (nextMP3Delay s) (usub now (lastMP3Time s))); [|lia].
  cbn [negb fst snd lastMP3Time nextMP3Delay rescheduleMP3].
  unfold mp3MinIntervalSec, mp3MaxIntervalSec.
  replace (20 * 1000)%R with (IZR 20000) by lra.
  replace (60 * 1000)%R with (IZR 60000) by lra.
  rewrite !truncate_IZR.
  repeat split. eexists. reflexivity.
Qed.

End AutomatedProps.

(** ** Automation of hybrid mode *)

Module HybridProps.
Import Arduino FloatModel FloatFacts MoveFacts HybridMode.
Import HybridCases.

(** With the suppression flag set, [runAutoMP3] of hybrid mode does
    nothing at all: nothing is played and nothing is rescheduled. *)
Lemma suppressed_cadence_inert now r s :
  runAutoMP3 now true r s = (s, []).
Proof.
  unfold runAutoMP3.
  destruct (usub now (modeEntryTime s) <? 3000); [reflexivity|].
  now rewrite andb_false_r.
Qed.

(** C8, the code at the failing input: in hybrid mode, 5000 ms after mode
    entry the cadence is due.  With the suppression flag set the call
    changes nothing: the time of the firing is not recorded and no new
    interval is drawn, while the same firing without suppression records
    5000 and a new interval.  The cadence stays due and plays on the first
    call after the flag clears. *)
Theorem C8_hybrid_suppressed_cadence_not_rescheduled :
  nextMP3Delay initial < usub 5000 (lastMP3Time initial)
  /\ 3000 <= usub 5000 (modeEntryTime initial)
  /\ runAutoMP3 5000 true no_draws initial = (initial, [])
  /\ runAutoMP3 5000 false no_draws initial = (played, [AutomatedMode.Mp3 1])
  /\ runAutoMP3 5020 false no_draws (fst (runAutoMP3 5000 true no_draws initial))
     = (mkState 0 0 0 0 false 0 0 0 30 false 0 5020 5000,
        [AutomatedMode.Mp3 1]).
Proof. repeat split; vm_compute; reflexivity || discriminate. Qed.

(** *** The correction move of the hybrid variant *)

Lemma hybrid_offsetBeyondEpsilon_true d : offsetBeyondEpsilon d = true <-> d <> 0.
Proof.
  unfold offsetBeyondEpsilon.
  destruct (Rlt_dec (5 / 10) (Rabs (IZR d))) as [H|H].
  - apply beyond_epsilon_iff in H. tauto.
  - split; [discriminate|]. intros N. apply beyond_epsilon_iff in N. tauto.
Qed.

Lemma hybrid_adjusted_return_slow speed direction :
  0 < speed <= 32 -> (1 <= adjustedMsPerDegree speed true direction)%R.
Proof.
  intros H. unfold adjustedMsPerDegree. cbn [negb andb].
  unfold baseMsPerDegree, baseSpeed, curveFactor.
  pose proof (scale_factor_lower_bound speed H). lra.
Qed.

(** The same correction as in automated mode: due move, swing count at 2
    or a non-zero offset, locked speed in range. *)
Lemma hybrid_correction_move now r s :
  3000 <= usub now (modeEntryTime s) ->
  domeMoving s = false ->
  nextMoveDelay s <= usub now (lastMoveTime s) ->
  2 <= moveCount s \/ (5 / 10 < Rabs (IZR (domeOffset s)))%R ->
  minSpeed <= sequenceSpeed s <= maxSpeed ->
  let direction := if 0 <=? domeOffset s then -1 else 1 in
  let speed :=
    if negb (sequenceStarted s)
    then random minSpeed (maxSpeed + 1) (AutomatedMode.rSpeed r)
    else sequenceSpeed s in
  let s' := fst (runDomeAutomation now r s) in
  snd (runDomeAutomation now r s) = [AutomatedMode.Motor (direction * speed)]
  /\ domeEndTime s'
     = uadd now (truncate (Rabs (IZR (domeOffset s))
                           * (baseMsPerDegree
                              * pow (IZR baseSpeed / IZR speed) curveFactor)))
  /\ moveCount s' = 0
  /\ sequenceStarted s' = false
  /\ domeOffset s' = 0
  /\ domeMoving s' = true.
Proof.
  intros Settle M Due Corr Speed.
  assert ((2 <=? moveCount s) || offsetBeyondEpsilon (domeOffset s) = true)
    as R.
  { destruct Corr as [C|C].
    - destruct (Z.leb_spec 2 (moveCount s)); [reflexivity|lia].
    - apply beyond_epsilon_iff, hybrid_offsetBeyondEpsilon_true in C.
      rewrite C. apply orb_true_r. }
  cbv zeta. unfold runDomeAutomation.
  destruct (Z.ltb_spec (usub now (modeEntryTime s)) 3000); [lia|].
  rewrite M.
  destruct (Z.ltb_spec (usub now (lastMoveTime s)) (nextMoveDelay s)); [lia|].
  cbv zeta. rewrite R.
  cbn [fst snd domeEndTime moveCount sequenceStarted domeOffset domeMoving].
  repeat split.
  apply return_move_offset_zero.
  apply hybrid_adjusted_return_slow.
  destruct (negb (sequenceStarted s)).
  - pose proof (ArduinoFacts.random_range minSpeed (maxSpeed + 1)
                  (AutomatedMode.rSpeed r)
                  ltac:(unfold minSpeed, maxSpeed; lia)) as Q.
    unfold minSpeed, maxSpeed in *. lia.
  - unfold minSpeed, maxSpeed in *. lia.
Qed.

End HybridProps.

(** * Further properties of the code *)

(** ** Mode/Combo Recognizer and the mode-transition block *)

Module ComboExtras.
Import Arduino ComboHandler.
Import ComboCases ComboViews.

Lemma handleCombos_mode now s :
  currentMode (fst (handleCombos now s)) = currentMode s.
Proof.
  unfold handleCombos.
  destruct (negb (currentCombo s =? lastCombo s) && (4 <? currentCombo s));
    [|reflexivity].
  destruct (comboAllowed (currentMode s) (currentCombo s)); [|reflexivity].
  destruct (comboAction _ _). reflexivity.
Qed.

Lemma handleCombos_lastMode now s :
  lastMode (fst (handleCombos now s)) = lastMode s.
Proof.
  unfold handleCombos.
  destruct (negb (currentCombo s =? lastCombo s) && (4 <? currentCombo s));
    [|reflexivity].
  destruct (comboAllowed (currentMode s) (currentCombo s)); [|reflexivity].
  destruct (comboAction _ _). reflexivity.
Qed.

Lemma comboWatchdog_lastMode now s :
  lastMode (comboWatchdog now s) = lastMode s.
Proof.
  unfold comboWatchdog.
  destruct ((4 <? currentCombo s) && _); reflexivity.
Qed.

Lemma debugModePrint_synced s :
  lastMode (debugModePrint s) = currentMode (debugModePrint s).
Proof.
  unfold debugModePrint.
  destruct (Z.eqb_spec (currentMode s) (lastMode s)); simpl; congruence.
Qed.

Lemma modeSwitching_mode_range s :
  1 <= currentMode s <= 4 -> 1 <= currentMode (modeSwitching s) <= 4.
Proof.
  intros H. unfold modeSwitching.
  destruct (Z.leb_spec 1 (currentCombo s));
    destruct (Z.leb_spec (currentCombo s) 4);
    destruct (negb (currentCombo s =? currentMode s)); simpl; lia.
Qed.

(** The mode is always one of the four: whatever the readings, an update
    started with a mode in [1,4] ends with a mode in [1,4]. *)
Theorem mode_stays_defined (i : Inputs) (s : State) :
  1 <= currentMode s <= 4 ->
  1 <= currentMode (fst (updateComboHandler i s)) <= 4.
Proof.
  intros H. rewrite ComboProps.updateComboHandler_settle. unfold settle.
  destruct (ComboProps.comboWatchdog_fields (millis_watch i)
              (fst (handleCombos (millis_handle i)
                      (debugModePrint (modeSwitching (detectCombos i s))))))
    as (W & _).
  rewrite W, handleCombos_mode.
  destruct (ComboProps.debugModePrint_fields (modeSwitching (detectCombos i s)))
    as (_ & D & _).
  rewrite D. apply modeSwitching_mode_range.
  now rewrite ComboProps.detectCombos_mode.
Qed.

Lemma mode_stays_defined_witness :
  1 <= currentMode initial <= 4
  /\ 1 <= currentMode (fst (updateComboHandler hold_down_toggle_CH4 initial)) <= 4.
Proof.
  assert (1 <= currentMode initial <= 4) as H by (simpl; lia).
  split; [exact H|].
  exact (mode_stays_defined hold_down_toggle_CH4 initial H).
Defined.

(** After every update [lastMode] equals [currentMode], so the
    mode-transition block of [loop()], which runs right after the update
    and compares the two, never finds a difference: it sets up no mode and
    plays no mode sound. *)
Theorem transition_block_never_entered (i : Inputs) (s : State)
    (l : MainSketch.Led) :
  lastMode (fst (updateComboHandler i s))
  = currentMode (fst (updateComboHandler i s))
  /\ MainSketch.modeTransition (fst (updateComboHandler i s)) l
     = (fst (updateComboHandler i s), l, []).
Proof.
  assert (lastMode (fst (updateComboHandler i s))
          = currentMode (fst (updateComboHandler i s))) as E.
  { rewrite ComboProps.updateComboHandler_settle. unfold settle.
    destruct (ComboProps.comboWatchdog_fields (millis_watch i)
                (fst (handleCombos (millis_handle i)
                        (debugModePrint (modeSwitching (detectCombos i s))))))
      as (W & _).
    rewrite W, comboWatchdog_lastMode, handleCombos_mode, handleCombos_lastMode.
    apply debugModePrint_synced. }
  split; [exact E|].
  unfold MainSketch.modeTransition. rewrite E, Z.eqb_refl. reflexivity.
Qed.

(** An action combo that is active after an update is never older than the
    reset delay: the watchdog reading is within [comboResetDelay] of its
    timestamp. *)
Theorem active_combo_is_fresh (i : Inputs) (s : State) :
  4 < currentCombo (fst (updateComboHandler i s)) ->
  usub (millis_watch i) (comboTimestamp (fst (updateComboHandler i s)))
  <= comboResetDelay.
Proof.
  rewrite ComboProps.updateComboHandler_settle. unfold settle.
  set (s3 := fst (handleCombos _ _)).
  unfold comboWatchdog.
  destruct (Z.ltb_spec 4 (currentCombo s3)) as [A|A];
    destruct (Z.ltb_spec comboResetDelay
                (usub (millis_watch i) (comboTimestamp s3))) as [B|B];
    simpl; intros C; lia.
Qed.

Lemma active_combo_is_fresh_witness :
  4 < currentCombo (fst (updateComboHandler accept_then_watch initial))
  /\ usub (millis_watch accept_then_watch)
          (comboTimestamp (fst (updateComboHandler accept_then_watch initial)))
     <= comboResetDelay.
Proof.
  assert (4 < currentCombo (fst (updateComboHandler accept_then_watch initial)))
    as H by (vm_compute; reflexivity).
  split; [exact H|].
  exact (active_combo_is_fresh accept_then_watch initial H).
Defined.

(** *** Range of the combo id *)

Lemma detectToggleCombo_range pwm lastState base down up left right combo lo hi :
  lo <= combo <= hi -> lo <= base -> base + 12 <= hi ->
  lo <= fst (detectToggleCombo pwm lastState base down up left right combo) <= hi.
Proof.
  intros C B1 B2. unfold detectToggleCombo.
  destruct (0 <? pwm); [|exact C].
  destruct (negb _); [|exact C].
  destruct down, up, left, right; simpl; lia.
Qed.

Lemma detectMomentaryCombo_range pwm t base down up left right combo lo hi :
  lo <= combo <= hi -> lo <= base -> base + 12 <= hi ->
  lo <= fst (detectMomentaryCombo pwm t base down up left right combo) <= hi.
Proof.
  intros C B1 B2. unfold detectMomentaryCombo.
  destruct (0 <? pwm); [|exact C].
  cbv zeta.
  destruct (down && (1900 <=? pwm) && negb (trigDown t));
    destruct (up && (1900 <=? pwm) && negb (trigUp t));
    destruct (left && (1900 <=? pwm) && negb (trigLeft t));
    destruct (right && (1900 <=? pwm) && negb (trigRight t));
    destruct (pwm <? LOW_THRESHOLD); simpl; lia.
Qed.

Lemma detectCombos_range i s :
  0 <= currentCombo s <= 32 -> 0 <= currentCombo (detectCombos i s) <= 32.
Proof.
  intros H0. unfold detectCombos. cbv zeta.
  pose proof (detectToggleCombo_range (pwm_CH3 i) (last_CH3 s) 1
                (comboDown i) (comboUp i) (comboLeft i) (comboRight i)
                (currentCombo s) 0 32 H0 ltac:(lia) ltac:(lia)) as H1.
  destruct (detectToggleCombo (pwm_CH3 i) _ 1 _ _ _ _ _) as [c1 l3].
  pose proof (detectToggleCombo_range (pwm_CH4 i) (last_CH4 s) 2
                (comboDown i) (comboUp i) (comboLeft i) (comboRight i)
                c1 0 32 H1 ltac:(lia) ltac:(lia)) as H2.
  destruct (detectToggleCombo (pwm_CH4 i) _ 2 _ _ _ _ _) as [c2 l4].
  pose proof (detectToggleCombo_range (pwm_CH5 i) (last_CH5 s) 3
                (comboDown i) (comboUp i) (comboLeft i) (comboRight i)
                c2 0 32 H2 ltac:(lia) ltac:(lia)) as H3.
  destruct (detectToggleCombo (pwm_CH5 i) _ 3 _ _ _ _ _) as [c3 l5].
  pose proof (detectMomentaryCombo_range (pwm_CH6 i) (hasTriggered_CH6_A s) 4
                (comboDown i) (comboUp i) (comboLeft i) (comboRight i)
                c3 0 32 H3 ltac:(lia) ltac:(lia)) as H4.
  destruct (detectMomentaryCombo (pwm_CH6 i) _ 4 _ _ _ _ _) as [c4 ta].
  pose proof (detectToggleCombo_range (pwm_CH3B i) (last_CH3B s) 17
                (comboDown i) (comboUp i) (comboLeft i) (comboRight i)
                c4 0 32 H4 ltac:(lia) ltac:(lia)) as H5.
  destruct (detectToggleCombo (pwm_CH3B i) _ 17 _ _ _ _ _) as [c5 l3b].
  pose proof (detectToggleCombo_range (pwm_CH4B i) (last_CH4B s) 18
                (comboDown i) (comboUp i) (comboLeft i) (comboRight i)
                c5 0 32 H5 ltac:(lia) ltac:(lia)) as H6.
  destruct (detectToggleCombo (pwm_CH4B i) _ 18 _ _ _ _ _) as [c6 l4b].
  pose proof (detectToggleCombo_range (pwm_CH5B i) (last_CH5B s) 19
                (comboDown i) (comboUp i) (comboLeft i) (comboRight i)
                c6 0 32 H6 ltac:(lia) ltac:(lia)) as H7.
  destruct (detectToggleCombo (pwm_CH5B i) _ 19 _ _ _ _ _) as [c7 l5b].
  pose proof (detectMomentaryCombo_range (pwm_CH6B i) (hasTriggered_CH6_B s) 20
                (comboDown i) (comboUp i) (comboLeft i) (comboRight i)
                c7 0 32 H7 ltac:(lia) ltac:(lia)) as H8.
  destruct (detectMomentaryCombo (pwm_CH6B i) _ 20 _ _ _ _ _) as [c8 tb].
  exact H8.
Qed.

Lemma modeSwitching_combo s :
  currentCombo (modeSwitching s) = 0
  \/ currentCombo (modeSwitching s) = currentCombo s.
Proof.
  unfold modeSwitching. destruct (_ && _); auto.
Qed.

Lemma handleCombos_combo now s :
  currentCombo (fst (handleCombos now s)) = 0
  \/ currentCombo (fst (handleCombos now s)) = currentCombo s.
Proof.
  unfold handleCombos.
  destruct (negb (currentCombo s =? lastCombo s) && (4 <? currentCombo s));
    [|auto].
  destruct (comboAllowed (currentMode s) (currentCombo s)); [|auto].
  destruct (comboAction _ _). auto.
Qed.

(** The active combo is idle (0) or one of the 32 slots: whatever the
    readings, an update started with an id in [0,32] ends with one. *)
Theorem combo_id_in_range (i : Inputs) (s : State) :
  0 <= currentCombo s <= 32 ->
  0 <= currentCombo (fst (updateComboHandler i s)) <= 32.
Proof.
  intros H. rewrite ComboProps.updateComboHandler_settle. unfold settle.
  pose proof (detectCombos_range i s H) as D.
  set (s1 := detectCombos i s) in *.
  pose proof (modeSwitching_combo s1) as M.
  destruct (ComboProps.debugModePrint_fields (modeSwitching s1)) as (P & _).
  set (s2 := debugModePrint (modeSwitching s1)) in *.
  pose proof (handleCombos_combo (millis_handle i) s2) as Hc.
  set (s3 := fst (handleCombos (millis_handle i) s2)) in *.
  destruct (ComboProps.comboWatchdog_fields (millis_watch i) s3)
    as (_ & _ & _ & W & _).
  lia.
Qed.

Lemma combo_id_in_range_witness :
  0 <= currentCombo initial <= 32
  /\ 0 <= currentCombo (fst (updateComboHandler hold_up_toggle_CH3 initial)) <= 32.
Proof.
  assert (0 <= currentCombo initial <= 32) as H by (simpl; lia).
  split; [exact H|].
  exact (combo_id_in_range hold_up_toggle_CH3 initial H).
Defined.

(** *** Steady readings fire once *)

Lemma detectToggleCombo_steady pwm l base down up left right c c1 l1 :
  detectToggleCombo pwm l base down up left right c = (c1, l1) ->
  forall c', detectToggleCombo pwm l1 base down up left right c' = (c', l1).
Proof.
  unfold detectToggleCombo. intros E c'.
  destruct (0 <? pwm).
  - destruct (Z.eqb_spec (if HIGH_THRESHOLD <? pwm then HIGH else LOW) l)
      as [Q|Q]; simpl in E; injection E as <- <-.
    + rewrite Q, Z.eqb_refl. reflexivity.
    + rewrite Z.eqb_refl. reflexivity.
  - injection E as <- <-. reflexivity.
Qed.

Lemma detectMomentaryCombo_steady pwm t base down up left right c c1 t1 :
  detectMomentaryCombo pwm t base down up left right c = (c1, t1) ->
  forall c', detectMomentaryCombo pwm t1 base down up left right c' = (c', t1).
Proof.
  unfold detectMomentaryCombo. intros E c'.
  destruct (0 <? pwm); [|injection E as <- <-; reflexivity].
  cbv zeta in *.
  destruct (Z.ltb_spec pwm LOW_THRESHOLD) as [L|L].
  - injection E as <- <-.
    destruct (Z.leb_spec 1900 pwm); [unfold LOW_THRESHOLD in L; lia|].
    cbn [trigDown trigUp trigLeft trigRight].
    rewrite !andb_false_r. reflexivity.
  - injection E as <- <-.
    cbn [trigDown trigUp trigLeft trigRight].
    destruct t as [a b d e]. cbn [trigDown trigUp trigLeft trigRight].
    destruct (1900 <=? pwm), down, up, left, right, a, b, d, e; reflexivity.
Qed.

(** Steady inputs fire once: running the detectors a second time on the
    same readings changes nothing, neither the combo id nor the button
    memories. *)
Theorem detectCombos_steady (i : Inputs) (s : State) :
  detectCombos i (detectCombos i s) = detectCombos i s.
Proof.
  unfold detectCombos at 2 3. cbv zeta.
  destruct (detectToggleCombo (pwm_CH3 i) _ 1 _ _ _ _ _) as [c1 l3] eqn:E1.
  destruct (detectToggleCombo (pwm_CH4 i) _ 2 _ _ _ _ _) as [c2 l4] eqn:E2.
  destruct (detectToggleCombo (pwm_CH5 i) _ 3 _ _ _ _ _) as [c3 l5] eqn:E3.
  destruct (detectMomentaryCombo (pwm_CH6 i) _ 4 _ _ _ _ _) as [c4 ta] eqn:E4.
  destruct (detectToggleCombo (pwm_CH3B i) _ 17 _ _ _ _ _) as [c5 l3b] eqn:E5.
  destruct (detectToggleCombo (pwm_CH4B i) _ 18 _ _ _ _ _) as [c6 l4b] eqn:E6.
  destruct (detectToggleCombo (pwm_CH5B i) _ 19 _ _ _ _ _) as [c7 l5b] eqn:E7.
  destruct (detectMomentaryCombo (pwm_CH6B i) _ 20 _ _ _ _ _) as [c8 tb] eqn:E8.
  unfold detectCombos. cbv zeta.
  cbn [last_CH3 last_CH4 last_CH5 last_CH3B last_CH4B last_CH5B
       hasTriggered_CH6_A hasTriggered_CH6_B currentCombo currentMode
       lastCombo lastMode comboTimestamp mp3TriggersEnabled].
  rewrite (detectToggleCombo_steady _ _ _ _ _ _ _ _ _ _ E1).
  rewrite (detectToggleCombo_steady _ _ _ _ _ _ _ _ _ _ E2).
  rewrite (detectToggleCombo_steady _ _ _ _ _ _ _ _ _ _ E3).
  rewrite (detectMomentaryCombo_steady _ _ _ _ _ _ _ _ _ _ E4).
  rewrite (detectToggleCombo_steady _ _ _ _ _ _ _ _ _ _ E5).
  rewrite (detectToggleCombo_steady _ _ _ _ _ _ _ _ _ _ E6).
  rewrite (detectToggleCombo_steady _ _ _ _ _ _ _ _ _ _ E7).
  rewrite (detectMomentaryCombo_steady _ _ _ _ _ _ _ _ _ _ E8).
  reflexivity.
Qed.

(** *** Kill conditions *)

Lemma neutral_not_down x :
  neutral x -> (COMBO_DOWN_MIN <=? x) && (x <=? COMBO_DOWN_MAX) = false.
Proof.
  unfold neutral, COMBO_DOWN_MIN, COMBO_DOWN_MAX. intros H.
  destruct (Z.leb_spec 900 x); destruct (Z.leb_spec x 1300); simpl; lia.
Qed.

Lemma neutral_not_up x :
  neutral x -> (COMBO_UP_MIN <=? x) && (x <=? COMBO_UP_MAX) = false.
Proof.
  unfold neutral, COMBO_UP_MIN, COMBO_UP_MAX. intros H.
  destruct (Z.leb_spec 1700 x); destruct (Z.leb_spec x 2100); simpl; lia.
Qed.

Lemma neutral_not_left x :
  neutral x -> (0 <? x) && (x <=? COMBO_LEFT_MAX) = false.
Proof.
  unfold neutral, COMBO_LEFT_MAX. intros H.
  destruct (Z.ltb_spec 0 x); destruct (Z.leb_spec x 1300); simpl; lia.
Qed.

Lemma neutral_not_right x :
  neutral x -> (0 <? x) && (COMBO_RIGHT_MIN <=? x) = false.
Proof.
  unfold neutral, COMBO_RIGHT_MIN. intros H.
  destruct (Z.ltb_spec 0 x); destruct (Z.leb_spec 1700 x); simpl; lia.
Qed.

(** With every stick centred or its reading timed out, as when the radio
    link is lost, no kill condition is active in any mode; nor is one
    active for a mode outside 1 to 4. *)
Theorem neutral_sticks_never_kill (mode ch1a ch2a ch1b ch2b : Z) :
  neutral ch1a -> neutral ch2a -> neutral ch1b -> neutral ch2b ->
  isComboModeActive mode ch1a ch2a ch1b ch2b = false.
Proof.
  intros N1 N2 N3 N4. unfold isComboModeActive. cbv zeta beta.
  rewrite !neutral_not_down, !neutral_not_up, !neutral_not_left,
    !neutral_not_right by assumption.
  destruct (mode =? 1), (mode =? 2), (mode =? 3), (mode =? 4); reflexivity.
Qed.

Lemma neutral_sticks_never_kill_witness :
  neutral 0 /\ neutral 1500 /\ neutral 0 /\ neutral 1500
  /\ isComboModeActive 2 0 1500 0 1500 = false.
Proof.
  assert (neutral 0) as N0 by (left; reflexivity).
  assert (neutral 1500) as N1 by (right; lia).
  repeat (split; [assumption|]).
  exact (neutral_sticks_never_kill 2 0 1500 0 1500 N0 N1 N0 N1).
Defined.

(** The kill conditions are nested: what kills in manual mode kills in
    hybrid mode, what kills in carpet mode kills in hybrid mode, and what
    kills in hybrid mode kills in automated mode. *)
Theorem kill_conditions_nested (ch1a ch2a ch1b ch2b : Z) :
  (isComboModeActive 1 ch1a ch2a ch1b ch2b = true ->
   isComboModeActive 3 ch1a ch2a ch1b ch2b = true)
  /\ (isComboModeActive 4 ch1a ch2a ch1b ch2b = true ->
      isComboModeActive 3 ch1a ch2a ch1b ch2b = true)
  /\ (isComboModeActive 3 ch1a ch2a ch1b ch2b = true ->
      isComboModeActive 2 ch1a ch2a ch1b ch2b = true).
Proof.
  unfold isComboModeActive. cbv zeta beta.
  change (1 =? 1) with true. change (3 =? 1) with false.
  change (3 =? 2) with false. change (3 =? 3) with true.
  change (4 =? 1) with false. change (4 =? 2) with false.
  change (4 =? 3) with false. change (4 =? 4) with true.
  change (2 =? 1) with false. change (2 =? 2) with true.
  cbv iota.
  repeat split; intros H; rewrite ?orb_true_iff in *; tauto.
Qed.

Lemma kill_conditions_nested_witness :
  isComboModeActive 1 0 0 1000 1000 = true
  /\ isComboModeActive 3 0 0 1000 1000 = true
  /\ isComboModeActive 2 0 0 1000 1000 = true.
Proof.
  destruct (kill_conditions_nested 0 0 1000 1000) as (K13 & _ & K32).
  assert (isComboModeActive 1 0 0 1000 1000 = true) as K1
    by (vm_compute; reflexivity).
  split; [exact K1|]. split; [exact (K13 K1)|exact (K32 (K13 K1))].
Defined.

End ComboExtras.

(** ** Pulse Decoder *)

Module DecoderExtras.
Import Arduino PWMInputHandler.
Import DecoderRuns.

Lemma usub_wrapped_sum t0 w :
  0 <= w < 2 ^ 32 -> usub (wrap32 (t0 + w)) t0 = w.
Proof.
  intros H. unfold usub, wrap32.
  rewrite Zminus_mod_idemp_l.
  replace (t0 + w - t0) with w by lia.
  apply Z.mod_small. exact H.
Qed.

(** A pulse is measured correctly across the wrap-around of [micros()]:
    a rising edge at [t0] and a falling edge [w] microseconds later, the
    clock taken modulo 2^32, publish exactly [w] when [w] fits an [int]. *)
Theorem pulse_measured_across_wraparound (c : Channel) (t0 w : Z) (s : State) :
  attached c s = OnRising ->
  0 <= w < 2 ^ 15 ->
  value c (interrupt c Falling (wrap32 (t0 + w)) (interrupt c Rising t0 s)) = w.
Proof.
  intros A W.
  rewrite PulseDecoderProps.armed_falling_edge_publishes_width by exact A.
  rewrite usub_wrapped_sum by lia.
  now apply PulseDecoderProps.to_int_small.
Qed.

Lemma pulse_measured_across_wraparound_witness :
  attached CH2 (setupPWMInputs 1 initial) = OnRising
  /\ 0 <= 1500 < 2 ^ 15
  /\ value CH2 (interrupt CH2 Falling (wrap32 (4294966796 + 1500))
                  (interrupt CH2 Rising 4294966796 (setupPWMInputs 1 initial)))
     = 1500.
Proof.
  assert (attached CH2 (setupPWMInputs 1 initial) = OnRising) as A
    by reflexivity.
  assert (0 <= 1500 < 2 ^ 15) as W by lia.
  split; [exact A|]. split; [exact W|].
  exact (pulse_measured_across_wraparound CH2 4294966796 1500
           (setupPWMInputs 1 initial) A W).
Defined.

Lemma interrupt_keeps_detached c e t s :
  attached CH1B s = Detached ->
  attached CH1B (interrupt c e t s) = Detached
  /\ ch1b_value (interrupt c e t s) = ch1b_value s.
Proof.
  intros D. unfold interrupt.
  destruct c, e; simpl in *; try rewrite D;
    try (destruct (ch1_isr s)); try (destruct (ch2_isr s));
    simpl; auto.
Qed.

Lemma deliver_keeps_detached events : forall s,
  attached CH1B s = Detached ->
  ch1b_value (deliver events s) = ch1b_value s.
Proof.
  induction events as [|[[c e] t] rest IH]; intros s D; [reflexivity|].
  cbn [deliver].
  destruct (interrupt_keeps_detached c e t s D) as [D' V'].
  rewrite IH by exact D'. exact V'.
Qed.

(** A set-up in a mode other than 1 and 4 attaches no handler to the dome
    channel: if none was attached before, none is afterwards, and whatever
    edges arrive on any pin, the published dome value stays the one it
    was.  From the power-on globals that value is the neutral 1500. *)
Theorem dome_channel_idle_without_attach (mode : Z)
    (events : list (Channel * PinEdge * Z)) (s : State) :
  attached CH1B s = Detached -> mode <> 1 -> mode <> 4 ->
  attached CH1B (setupPWMInputs mode s) = Detached
  /\ getPWMValue_CH1B (deliver events (setupPWMInputs mode s))
     = getPWMValue_CH1B s.
Proof.
  intros D M1 M4.
  assert (attached CH1B (setupPWMInputs mode s) = Detached) as D'.
  { simpl in *. destruct (Z.eqb_spec mode 1); [contradiction|].
    destruct (Z.eqb_spec mode 4); [contradiction|]. exact D. }
  split; [exact D'|].
  unfold getPWMValue_CH1B.
  rewrite deliver_keeps_detached by exact D'. reflexivity.
Qed.

Lemma dome_channel_idle_without_attach_witness :
  attached CH1B initial = Detached /\ 3 <> 1 /\ 3 <> 4
  /\ getPWMValue_CH1B
       (deliver [(CH1B, Rising, 1000); (CH1B, Falling, 3000)]
                (setupPWMInputs 3 initial)) = 1500.
Proof.
  assert (attached CH1B initial = Detached) as D by reflexivity.
  assert (3 <> 1) as M1 by discriminate.
  assert (3 <> 4) as M4 by discriminate.
  split; [exact D|]. split; [exact M1|]. split; [exact M4|].
  exact (proj2 (dome_channel_idle_without_attach 3
                  [(CH1B, Rising, 1000); (CH1B, Falling, 3000)] initial
                  D M1 M4)).
Defined.

Lemma interrupt_keeps_attached c e t s :
  attached CH1B s <> Detached ->
  attached CH1B (interrupt c e t s) <> Detached.
Proof.
  intros A. unfold interrupt.
  destruct s as [v1 v2 v3 s1 s2 s3 i1 i2 i3]. simpl in A.
  destruct c, e, i1, i2, i3; simpl; solve [exact A | discriminate].
Qed.

Lemma deliver_keeps_attached events : forall s,
  attached CH1B s <> Detached ->
  attached CH1B (deliver events s) <> Detached.
Proof.
  induction events as [|[[c e] t] rest IH]; intros s A; [exact A|].
  cbn [deliver]. apply IH. now apply interrupt_keeps_attached.
Qed.

(** The set-up never detaches: once a set-up in manual or carpet mode has
    attached the dome channel, it stays attached through any edges and
    through a later set-up in any mode, automated and hybrid included. *)
Theorem dome_channel_stays_attached (m1 m2 : Z)
    (events : list (Channel * PinEdge * Z)) (s : State) :
  m1 = 1 \/ m1 = 4 ->
  attached CH1B (setupPWMInputs m2 (deliver events (setupPWMInputs m1 s)))
  <> Detached.
Proof.
  intros M.
  assert (attached CH1B (setupPWMInputs m1 s) <> Detached) as A.
  { simpl. destruct M as [-> | ->]; simpl; discriminate. }
  pose proof (deliver_keeps_attached events _ A) as B.
  simpl in *. destruct ((m2 =? 1) || (m2 =? 4)); [discriminate|exact B].
Qed.

Lemma dome_channel_stays_attached_witness :
  (1 = 1 \/ 1 = 4)
  /\ attached CH1B
       (setupPWMInputs 3 (deliver [(CH1B, Rising, 1000)] (setupPWMInputs 1 initial)))
     <> Detached.
Proof.
  assert (1 = 1 \/ 1 = 4) as M by (left; reflexivity).
  split; [exact M|].
  exact (dome_channel_stays_attached 1 3 [(CH1B, Rising, 1000)] initial M).
Defined.

End DecoderExtras.

(** ** MP3 trigger handler *)

Module MP3Extras.
Import Arduino MP3Handler.
Import MP3Cases.

Lemma checkToggleAnyEdge_tracks pwm l a b raw cur l' c' o :
  a <= b ->
  checkToggleAnyEdge pwm l a b raw cur = (l', c', o) ->
  forall t, In t o -> a <= t <= b.
Proof.
  intros AB E t Ht. unfold checkToggleAnyEdge in E.
  destruct ((pwm =? 0) || (pwm <? VALID_PWM_MIN) || (VALID_PWM_MAX <? pwm)).
  { injection E as <- <- <-. destruct Ht. }
  cbv zeta in E.
  destruct (l =? -1). { injection E as <- <- <-. destruct Ht. }
  destruct (negb _).
  - injection E as <- <- <-. destruct Ht as [<-|[]].
    pose proof (ArduinoFacts.random_range a (b + 1) raw ltac:(lia)). lia.
  - injection E as <- <- <-. destruct Ht.
Qed.

Lemma checkMomentary_tracks pwm h a b raw t1 t2 cur lt h' c' lt' o :
  a <= b ->
  checkMomentary pwm h a b raw t1 t2 cur lt = (h', c', lt', o) ->
  forall t, In t o -> a <= t <= b.
Proof.
  intros AB E t Ht. unfold checkMomentary in E. cbv zeta in E.
  injection E as _ _ _ <-.
  destruct ((HIGH_THRESHOLD <? pwm) && negb h); [|destruct Ht].
  destruct Ht as [<-|[]].
  pose proof (ArduinoFacts.random_range a (b + 1) raw ltac:(lia)). lia.
Qed.

(** Every track the handler plays belongs to one of the eight banks, so
    it lies in [1,212]; it fits the byte of the serial frame, which then
    carries the track number unchanged. *)
Theorem played_tracks_are_bank_tracks (i : Inputs) (s : State) (t : Z) :
  In t (snd (updateMP3Handler i s)) ->
  inBank t
  /\ 1 <= t <= 212
  /\ playMP3Track 1 t = [Trigger t]
  /\ playMP3Track 2 t = [Serial1Write [126; 255; 6; 3; 0; 0; t; 239]]
  /\ playMP3Track 3 t = [Serial1Write [126; 255; 6; 3; 0; 0; t; 239]].
Proof.
  intros Ht.
  assert (inBank t) as B.
  { unfold updateMP3Handler in Ht.
    destruct (negb (mp3TriggersEnabled s) || comboHeld i); [destruct Ht|].
    destruct (checkToggleAnyEdge (pwm (btn_CH3A i)) _ _ _ _ _)
      as [[l3a c1] o1] eqn:E1.
    destruct (checkToggleAnyEdge (pwm (btn_CH4A i)) _ _ _ _ _)
      as [[l4a c2] o2] eqn:E2.
    destruct (checkToggleAnyEdge (pwm (btn_CH5A i)) _ _ _ _ _)
      as [[l5a c3] o3] eqn:E3.
    destruct (checkMomentary (pwm (btn_CH6A i)) _ _ _ _ _ _ _ _)
      as [[[h6a c4] t4] o4] eqn:E4.
    destruct (checkToggleAnyEdge (pwm (btn_CH3B i)) _ _ _ _ _)
      as [[l3b c5] o5] eqn:E5.
    destruct (checkToggleAnyEdge (pwm (btn_CH4B i)) _ _ _ _ _)
      as [[l4b c6] o6] eqn:E6.
    destruct (checkToggleAnyEdge (pwm (btn_CH5B i)) _ _ _ _ _)
      as [[l5b c7] o7] eqn:E7.
    destruct (checkMomentary (pwm (btn_CH6B i)) _ _ _ _ _ _ _ _)
      as [[[h6b c8] t8] o8] eqn:E8.
    cbn [snd] in Ht. unfold inBank.
    repeat (apply in_app_or in Ht; destruct Ht as [Ht|Ht]).
    - eapply checkToggleAnyEdge_tracks in E1; [|vm_compute; discriminate|exact Ht].
      tauto.
    - eapply checkToggleAnyEdge_tracks in E2; [|vm_compute; discriminate|exact Ht].
      tauto.
    - eapply checkToggleAnyEdge_tracks in E3; [|vm_compute; discriminate|exact Ht].
      tauto.
    - eapply checkMomentary_tracks in E4; [|vm_compute; discriminate|exact Ht].
      tauto.
    - eapply checkToggleAnyEdge_tracks in E5; [|vm_compute; discriminate|exact Ht].
      tauto.
    - eapply checkToggleAnyEdge_tracks in E6; [|vm_compute; discriminate|exact Ht].
      tauto.
    - eapply checkToggleAnyEdge_tracks in E7; [|vm_compute; discriminate|exact Ht].
      tauto.
    - eapply checkMomentary_tracks in E8; [|vm_compute; discriminate|exact Ht].
      tauto.
  }
  assert (1 <= t <= 212) as R.
  { unfold inBank, BANK_HAPPY_START, BANK_HAPPY_END, BANK_SAD_START,
      BANK_SAD_END, BANK_TALKING_START, BANK_TALKING_END, BANK_YELLING_START,
      BANK_YELLING_END, BANK_CLASSIC_START, BANK_CLASSIC_END, BANK_DANCE_START,
      BANK_DANCE_END, BANK_SINGING_START, BANK_SINGING_END, BANK_LINES_START,
      BANK_LINES_END in B. lia. }
  split; [exact B|]. split; [exact R|].
  unfold playMP3Track. cbn [Z.eqb Pos.eqb orb].
  rewrite Z.mod_small by lia. repeat split.
Qed.

Lemma played_tracks_are_bank_tracks_witness :
  In 1 (snd (updateMP3Handler (toggle_CH3A 1800) seen_low))
  /\ inBank 1
  /\ 1 <= 1 <= 212
  /\ playMP3Track 1 1 = [Trigger 1]
  /\ playMP3Track 2 1 = [Serial1Write [126; 255; 6; 3; 0; 0; 1; 239]]
  /\ playMP3Track 3 1 = [Serial1Write [126; 255; 6; 3; 0; 0; 1; 239]].
Proof.
  assert (In 1 (snd (updateMP3Handler (toggle_CH3A 1800) seen_low))) as H
    by (vm_compute; left; reflexivity).
  split; [exact H|].
  exact (played_tracks_are_bank_tracks (toggle_CH3A 1800) seen_low 1 H).
Defined.

Lemma checkToggleAnyEdge_quiet pwm l a b raw cur :
  quiet pwm -> checkToggleAnyEdge pwm l a b raw cur = (l, cur, []).
Proof.
  unfold quiet, checkToggleAnyEdge, VALID_PWM_MIN, VALID_PWM_MAX,
    LOW_THRESHOLD, HIGH_THRESHOLD.
  intros Q.
  destruct (Z.eqb_spec pwm 0); [reflexivity|].
  destruct (Z.ltb_spec pwm 900); [reflexivity|].
  destruct (Z.ltb_spec 2200 pwm); [reflexivity|].
  cbn [orb]. cbv zeta.
  destruct (Z.ltb_spec 1700 pwm); [lia|].
  destruct (Z.ltb_spec pwm 1300); [lia|].
  destruct (Z.eqb_spec l (-1)) as [->|N]; [reflexivity|].
  rewrite Z.eqb_refl. reflexivity.
Qed.

Lemma checkMomentary_not_pressed pwm h a b raw t1 t2 cur lt :
  pwm <= HIGH_THRESHOLD ->
  snd (checkMomentary pwm h a b raw t1 t2 cur lt) = []
  /\ snd (fst (fst (checkMomentary pwm h a b raw t1 t2 cur lt))) = cur
  /\ snd (fst (checkMomentary pwm h a b raw t1 t2 cur lt)) = lt.
Proof.
  intros P. unfold checkMomentary. cbv zeta.
  destruct (Z.ltb_spec HIGH_THRESHOLD pwm); [lia|].
  cbn [andb fst snd]. repeat split.
Qed.

(** Readings that cannot play change nothing: when every toggle reading is
    rejected as invalid (0, below 900 or above 2200) or lies between the
    thresholds, and neither momentary button is pressed, the handler plays
    no track and keeps every remembered toggle level and the current
    track. *)
Theorem quiet_readings_change_nothing (i : Inputs) (s : State) :
  active i s ->
  quiet (pwm (btn_CH3A i)) -> quiet (pwm (btn_CH4A i)) ->
  quiet (pwm (btn_CH5A i)) -> quiet (pwm (btn_CH3B i)) ->
  quiet (pwm (btn_CH4B i)) -> quiet (pwm (btn_CH5B i)) ->
  pwm (btn_CH6A i) <= HIGH_THRESHOLD -> pwm (btn_CH6B i) <= HIGH_THRESHOLD ->
  snd (updateMP3Handler i s) = []
  /\ lastMP3_CH3A (fst (updateMP3Handler i s)) = lastMP3_CH3A s
  /\ lastMP3_CH4A (fst (updateMP3Handler i s)) = lastMP3_CH4A s
  /\ lastMP3_CH5A (fst (updateMP3Handler i s)) = lastMP3_CH5A s
  /\ lastMP3_CH3B (fst (updateMP3Handler i s)) = lastMP3_CH3B s
  /\ lastMP3_CH4B (fst (updateMP3Handler i s)) = lastMP3_CH4B s
  /\ lastMP3_CH5B (fst (updateMP3Handler i s)) = lastMP3_CH5B s
  /\ currentMP3 (fst (updateMP3Handler i s)) = currentMP3 s.
Proof.
  intros [En Ck] Q1 Q2 Q3 Q4 Q5 Q6 P1 P2.
  unfold updateMP3Handler. rewrite En, Ck. cbn [negb orb].
  rewrite !checkToggleAnyEdge_quiet by assumption.
  destruct (checkMomentary_not_pressed (pwm (btn_CH6A i))
              (hasTriggeredMP3_CH6A s) BANK_YELLING_START BANK_YELLING_END
              (raw (btn_CH6A i)) (tTrigger (btn_CH6A i)) (tCheck (btn_CH6A i))
              (currentMP3 s) (lastTriggerTime s) P1) as (A1 & A2 & A3).
  destruct (checkMomentary (pwm (btn_CH6A i)) _ _ _ _ _ _ _ _)
    as [[[h6a c4] t4] o4].
  cbn [fst snd] in A1, A2, A3. subst o4 c4 t4.
  rewrite !checkToggleAnyEdge_quiet by assumption.
  destruct (checkMomentary_not_pressed (pwm (btn_CH6B i))
              (hasTriggeredMP3_CH6B s) BANK_LINES_START BANK_LINES_END
              (raw (btn_CH6B i)) (tTrigger (btn_CH6B i)) (tCheck (btn_CH6B i))
              (currentMP3 s) (lastTriggerTime s) P2) as (B1 & B2 & B3).
  destruct (checkMomentary (pwm (btn_CH6B i)) _ _ _ _ _ _ _ _)
    as [[[h6b c8] t8] o8].
  cbn [fst snd] in B1, B2, B3. subst o8 c8 t8.
  repeat split.
Qed.

Lemma quiet_readings_change_nothing_witness :
  active (toggle_CH3A 1500) seen_low
  /\ snd (updateMP3Handler (toggle_CH3A 1500) seen_low) = []
  /\ lastMP3_CH3A (fst (updateMP3Handler (toggle_CH3A 1500) seen_low))
     = lastMP3_CH3A seen_low.
Proof.
  assert (active (toggle_CH3A 1500) seen_low) as A by (split; reflexivity).
  assert (quiet 0) as Q0 by (left; reflexivity).
  assert (quiet 1500) as Q1.
  { right. right. right. unfold LOW_THRESHOLD, HIGH_THRESHOLD. lia. }
  assert (0 <= HIGH_THRESHOLD) as P by (unfold HIGH_THRESHOLD; lia).
  split; [exact A|].
  pose proof (quiet_readings_change_nothing (toggle_CH3A 1500) seen_low
                A Q1 Q0 Q0 Q0 Q0 Q0 P P) as T.
  split; [exact (proj1 T)|exact (proj1 (proj2 T))].
Defined.

Lemma checkToggleAnyEdge_unseen pwm a b raw cur :
  snd (checkToggleAnyEdge pwm (-1) a b raw cur) = []
  /\ snd (fst (checkToggleAnyEdge pwm (-1) a b raw cur)) = cur.
Proof.
  unfold checkToggleAnyEdge.
  destruct ((pwm =? 0) || (pwm <? VALID_PWM_MIN) || (VALID_PWM_MAX <? pwm));
    split; reflexivity.
Qed.

(** With every toggle level forgotten, an update plays no toggle bank. *)
Lemma forgotten_levels_play_no_toggle (i2 : Inputs) (s1 : State) (t : Z) :
  lastMP3_CH3A s1 = -1 -> lastMP3_CH4A s1 = -1 -> lastMP3_CH5A s1 = -1 ->
  lastMP3_CH3B s1 = -1 -> lastMP3_CH4B s1 = -1 -> lastMP3_CH5B s1 = -1 ->
  In t (snd (updateMP3Handler i2 s1)) -> inMomentaryBank t.
Proof.
  intros L1 L2 L3 L4 L5 L6 Ht.
  unfold updateMP3Handler in Ht.
  destruct (negb (mp3TriggersEnabled s1) || comboHeld i2); [destruct Ht|].
  rewrite L1, L2, L3, L4, L5, L6 in Ht.
  destruct (checkToggleAnyEdge_unseen (pwm (btn_CH3A i2))
              BANK_HAPPY_START BANK_HAPPY_END (raw (btn_CH3A i2))
              (currentMP3 s1)) as [O1 _].
  destruct (checkToggleAnyEdge (pwm (btn_CH3A i2)) _ _ _ _ _)
    as [[l3a c1] o1]. cbn [snd] in O1. subst o1.
  destruct (checkToggleAnyEdge_unseen (pwm (btn_CH4A i2))
              BANK_SAD_START BANK_SAD_END (raw (btn_CH4A i2)) c1) as [O2 _].
  destruct (checkToggleAnyEdge (pwm (btn_CH4A i2)) _ _ _ _ _)
    as [[l4a c2] o2]. cbn [snd] in O2. subst o2.
  destruct (checkToggleAnyEdge_unseen (pwm (btn_CH5A i2))
              BANK_TALKING_START BANK_TALKING_END (raw (btn_CH5A i2)) c2)
    as [O3 _].
  destruct (checkToggleAnyEdge (pwm (btn_CH5A i2)) _ _ _ _ _)
    as [[l5a c3] o3]. cbn [snd] in O3. subst o3.
  destruct (checkMomentary (pwm (btn_CH6A i2)) _ _ _ _ _ _ _ _)
    as [[[h6a c4] t4] o4] eqn:E4.
  destruct (checkToggleAnyEdge_unseen (pwm (btn_CH3B i2))
              BANK_CLASSIC_START BANK_CLASSIC_END (raw (btn_CH3B i2)) c4)
    as [O5 _].
  destruct (checkToggleAnyEdge (pwm (btn_CH3B i2)) _ _ _ _ _)
    as [[l3b c5] o5]. cbn [snd] in O5. subst o5.
  destruct (checkToggleAnyEdge_unseen (pwm (btn_CH4B i2))
              BANK_DANCE_START BANK_DANCE_END (raw (btn_CH4B i2)) c5)
    as [O6 _].
  destruct (checkToggleAnyEdge (pwm (btn_CH4B i2)) _ _ _ _ _)
    as [[l4b c6] o6]. cbn [snd] in O6. subst o6.
  destruct (checkToggleAnyEdge_unseen (pwm (btn_CH5B i2))
              BANK_SINGING_START BANK_SINGING_END (raw (btn_CH5B i2)) c6)
    as [O7 _].
  destruct (checkToggleAnyEdge (pwm (btn_CH5B i2)) _ _ _ _ _)
    as [[l5b c7] o7]. cbn [snd] in O7. subst o7.
  destruct (checkMomentary (pwm (btn_CH6B i2)) _ _ _ _ _ _ _ _)
    as [[[h6b c8] t8] o8] eqn:E8.
  cbn [snd app] in Ht. unfold inMomentaryBank.
  apply in_app_or in Ht. destruct Ht as [Ht|Ht].
  - eapply checkMomentary_tracks in E4; [|vm_compute; discriminate|exact Ht].
    now left.
  - eapply checkMomentary_tracks in E8; [|vm_compute; discriminate|exact Ht].
    now right.
Qed.

(** An update that finds the triggers disabled or the kill combo held
    plays nothing, forgets every toggle level and clears both momentary
    latches.  The update that follows it, whether the triggers were
    enabled again in between or not, plays no toggle bank: every track it
    plays comes from a momentary button. *)
Theorem resume_plays_no_toggle_track (i1 i2 : Inputs) (s : State) :
  mp3TriggersEnabled s = false \/ comboHeld i1 = true ->
  let s1 := fst (updateMP3Handler i1 s) in
  snd (updateMP3Handler i1 s) = []
  /\ (lastMP3_CH3A s1 = -1 /\ lastMP3_CH4A s1 = -1 /\ lastMP3_CH5A s1 = -1
      /\ lastMP3_CH3B s1 = -1 /\ lastMP3_CH4B s1 = -1 /\ lastMP3_CH5B s1 = -1)
  /\ (hasTriggeredMP3_CH6A s1 = false /\ hasTriggeredMP3_CH6B s1 = false)
  /\ (forall t, In t (snd (updateMP3Handler i2 s1)) -> inMomentaryBank t)
  /\ (forall t, In t (snd (updateMP3Handler i2 (enableMP3Triggers s1))) ->
                inMomentaryBank t).
Proof.
  intros Sup.
  assert (negb (mp3TriggersEnabled s) || comboHeld i1 = true) as G.
  { destruct Sup as [-> | ->]; [reflexivity|apply orb_true_r]. }
  assert (updateMP3Handler i1 s
          = (mkState (mp3TriggersEnabled s) (-1) (-1) (-1) (-1) (-1) (-1)
                     false false (currentMP3 s) (lastTriggerTime s), [])) as E.
  { unfold updateMP3Handler. now rewrite G. }
  cbv zeta. rewrite E. cbn [fst snd].
  split; [reflexivity|].
  split; [repeat split|]. split; [split; reflexivity|].
  split; intros t Ht;
    (eapply forgotten_levels_play_no_toggle; [..|exact Ht]; reflexivity).
Qed.

Lemma resume_plays_no_toggle_track_witness :
  (mp3TriggersEnabled seen_low = false \/ comboHeld combo_held_inputs = true)
  /\ lastMP3_CH3A seen_low = 0
  /\ lastMP3_CH3A (fst (updateMP3Handler combo_held_inputs seen_low)) = -1
  /\ (In 91 (snd (updateMP3Handler press_CH6A
                    (fst (updateMP3Handler combo_held_inputs seen_low)))) ->
      inMomentaryBank 91).
Proof.
  assert (mp3TriggersEnabled seen_low = false
          \/ comboHeld combo_held_inputs = true) as S
    by (right; reflexivity).
  destruct (resume_plays_no_toggle_track combo_held_inputs press_CH6A
              seen_low S) as (_ & (L & _) & _ & P & _).
  split; [exact S|]. split; [reflexivity|]. split; [exact L|exact (P 91)].
Defined.

(** A momentary button that stays pressed plays again: the first call
    plays a track and latches; a call more than 50 ms later plays nothing
    but releases the latch although the button was never released; the
    call after that plays a second track. *)
Theorem held_momentary_retriggers (pwm a b raw1 raw2 raw3 t0 t1 t2 cur lt : Z) :
  HIGH_THRESHOLD < pwm ->
  50 < usub t1 t0 ->
  heldMomentary pwm a b raw1 raw2 raw3 t0 t1 t2 cur lt
  = ([random a (b + 1) raw1], [], [random a (b + 1) raw3]).
Proof.
  intros P T. unfold heldMomentary, checkMomentary. cbv zeta.
  destruct (Z.ltb_spec HIGH_THRESHOLD pwm); [|lia].
  cbn [andb negb fst snd].
  rewrite ArduinoFacts.usub_self. change (50 <? 0) with false.
  cbn [andb negb fst snd].
  destruct (Z.ltb_spec 50 (usub t1 t0)); [|lia].
  cbn [andb negb fst snd]. reflexivity.
Qed.

Lemma held_momentary_retriggers_witness :
  HIGH_THRESHOLD < 1990
  /\ 50 < usub 100 0
  /\ heldMomentary 1990 91 103 0 0 5 0 100 200 0 0 = ([91], [], [96]).
Proof.
  assert (HIGH_THRESHOLD < 1990) as P by reflexivity.
  assert (50 < usub 100 0) as T by reflexivity.
  split; [exact P|]. split; [exact T|].
  exact (held_momentary_retriggers 1990 91 103 0 0 5 0 100 200 0 0 P T).
Defined.

End MP3Extras.

(** ** Manual mode *)

Module ManualExtras.
Import Arduino FloatModel FloatFacts ManualMode.
Import ManualCases ManualViews.

Lemma abs_never_negative x : (abs x <? 0) = false.
Proof.
  pose proof (ArduinoFacts.abs_nonneg x).
  destruct (Z.ltb_spec (abs x) 0); [lia|reflexivity].
Qed.

(** The dome side of a frame that runs. *)
Lemma executed_frame_dome (i : Inputs) (s : State) :
  frameRuns i s ->
  currentDomeSpeed (fst (loopManualMode i s)) = domeSpeedOf i s
  /\ lastSentDomeSpeed (fst (loopManualMode i s)) = domeSpeedOf i s
  /\ lastDrive (fst (loopManualMode i s))
     = (if killHeld i then 0
        else applyExpoCurve (mappedDriveOf i) expoCurve speedLimit)
  /\ domeFlickActive (fst (loopManualMode i s))
     = (if domeFlickThreshold <=? abs (domeSpeedOf i s) then true
        else domeFlickActive s)
  /\ exists d t,
       snd (loopManualMode i s)
       = Drive d :: Turn t
           :: (if negb (domeSpeedOf i s =? lastSentDomeSpeed s)
               then [Dome (domeSpeedOf i s)] else []).
Proof.
  unfold frameRuns. intros G. unfold loopManualMode.
  destruct (Z.ltb_spec (usub (nowMicros i) (lastFrameMicros s))
                       frameIntervalMicros) as [L|_]; [lia|].
  cbv zeta.
  fold (domeInputOf i). fold (mappedDriveOf i). fold (killHeld i).
  unfold domeDeadZone. rewrite abs_never_negative.
  cbn [fst snd currentDomeSpeed lastSentDomeSpeed domeFlickActive lastDrive].
  fold (domeSpeedOf i s).
  unfold safetyTimeout. rewrite ArduinoFacts.usub_self.
  change (motorTimeoutMs <? 0) with false.
  repeat split.
  - destruct (negb (domeSpeedOf i s =? lastSentDomeSpeed s)) eqn:E;
      [reflexivity|].
    apply negb_false_iff, Z.eqb_eq in E. congruence.
  - eexists. eexists. reflexivity.
Qed.

(** With the kill combo held, a frame that runs writes drive 0 and turn 0,
    sets the dome speed to 0 and writes it unless 0 was the value last
    sent; this holds for every stick position and every earlier state. *)
Theorem kill_neutralises_frame (i : Inputs) (s : State) :
  frameRuns i s ->
  killHeld i = true ->
  snd (loopManualMode i s)
  = Drive 0 :: Turn 0
      :: (if negb (0 =? lastSentDomeSpeed s) then [Dome 0] else [])
  /\ currentDomeSpeed (fst (loopManualMode i s)) = 0
  /\ lastDrive (fst (loopManualMode i s)) = 0.
Proof.
  intros G K.
  destruct (ManualProps.executed_frame_commands i s G) as [rest E].
  destruct (executed_frame_dome i s G) as (C & _ & D & _ & d & t & O).
  assert (domeSpeedOf i s = 0) as Z0 by (unfold domeSpeedOf; now rewrite K).
  rewrite K in E, D. rewrite Z0 in *.
  rewrite O in E. injection E as -> -> _.
  rewrite O. repeat split; assumption.
Qed.

Lemma kill_neutralises_frame_witness :
  frameRuns kill_frame initial
  /\ killHeld kill_frame = true
  /\ snd (loopManualMode kill_frame initial)
     = Drive 0 :: Turn 0
         :: (if negb (0 =? lastSentDomeSpeed initial) then [Dome 0] else [])
  /\ currentDomeSpeed (fst (loopManualMode kill_frame initial)) = 0
  /\ lastDrive (fst (loopManualMode kill_frame initial)) = 0.
Proof.
  assert (frameRuns kill_frame initial) as G by (vm_compute; discriminate).
  assert (killHeld kill_frame = true) as K by reflexivity.
  split; [exact G|]. split; [exact K|].
  exact (kill_neutralises_frame kill_frame initial G K).
Defined.

(** *** Dome commands *)

Lemma domeInputOf_range i : -100 <= domeInputOf i <= 100.
Proof.
  unfold domeInputOf, domeRightGain, domeLeftGain. cbv zeta.
  pose proof (ArduinoFacts.constrain_range
                (PWMInputHandler.getPWMValue_CH1B (pwm i)) 1000 2000
                ltac:(lia)) as C.
  set (c := constrain _ 1000 2000) in *.
  rewrite !ManualProps.unit_gain.
  destruct (Z.leb_spec 1500 c) as [H|H]; unfold map.
  - change (100 - 0) with 100. change (2000 - 1500) with 500.
    rewrite Z.quot_div_nonneg by lia.
    assert (0 <= (c - 1500) * 100 / 500) by (apply Z.div_pos; lia).
    assert ((c - 1500) * 100 / 500 <= 100)
      by (apply Z.div_le_upper_bound; lia).
    lia.
  - change (0 - -100) with 100. change (1500 - 1000) with 500.
    rewrite Z.quot_div_nonneg by lia.
    assert (0 <= (c - 1000) * 100 / 500) by (apply Z.div_pos; lia).
    assert ((c - 1000) * 100 / 500 <= 100)
      by (apply Z.div_le_upper_bound; lia).
    lia.
Qed.

Lemma rawCurvedDome_range i :
  -78 <= applyExpoCurve (domeInputOf i) expoCurve domeSpeedLimit <= 78.
Proof.
  pose proof (domeInputOf_range i) as D.
  rewrite ManualProps.applyExpoCurve_exponent_one
    by (unfold domeSpeedLimit; lia).
  unfold applyExpoCurve_linear, domeSpeedLimit. cbv zeta.
  assert (0 <= abs (domeInputOf i) <= 100) as A.
  { unfold abs. destruct (Z.ltb_spec 0 (domeInputOf i)); lia. }
  rewrite Z.quot_div_nonneg by lia.
  assert (0 <= abs (domeInputOf i) * 100 / 127) by (apply Z.div_pos; lia).
  assert (abs (domeInputOf i) * 100 / 127 <= 78).
  { apply Z.lt_succ_r. apply Z.div_lt_upper_bound; lia. }
  destruct (0 <=? domeInputOf i); lia.
Qed.

Lemma domeSpeedOf_range i s :
  -156 <= domeSpeedOf i s <= 156
  /\ (domeFlickActive s = true -> -78 <= domeSpeedOf i s <= 78).
Proof.
  pose proof (rawCurvedDome_range i) as R.
  unfold domeSpeedOf, fineControlMultiplier.
  destruct (killHeld i); [split; [lia|intros _; lia]|].
  destruct (domeFlickActive s); split; try lia; discriminate.
Qed.

(** Every dome command is within [-156,156], and within [-78,78] once the
    flick flag is set; the flag, once set, is never cleared by a frame, so
    the doubled range is open only until the first command of magnitude 5
    or more. *)
Theorem dome_command_ranges (i : Inputs) (s : State) (v : Z) :
  In (Dome v) (snd (loopManualMode i s)) ->
  -156 <= v <= 156
  /\ (domeFlickActive s = true -> -78 <= v <= 78)
  /\ (domeFlickActive s = true ->
      domeFlickActive (fst (loopManualMode i s)) = true)
  /\ (5 <= Z.abs v -> domeFlickActive (fst (loopManualMode i s)) = true).
Proof.
  intros Hin.
  destruct (Z.lt_ge_cases (usub (nowMicros i) (lastFrameMicros s))
                          frameIntervalMicros) as [L|G].
  { unfold loopManualMode in Hin.
    destruct (Z.ltb_spec (usub (nowMicros i) (lastFrameMicros s))
                         frameIntervalMicros); [|lia].
    destruct Hin. }
  destruct (executed_frame_dome i s G) as (_ & _ & _ & F & d & t & O).
  rewrite O in Hin.
  destruct Hin as [Hd|[Ht|Hr]]; [discriminate|discriminate|].
  destruct (negb (domeSpeedOf i s =? lastSentDomeSpeed s)); [|destruct Hr].
  destruct Hr as [Hv|[]]. injection Hv as Hv.
  destruct (domeSpeedOf_range i s) as [R1 R2].
  rewrite F. rewrite Hv in *.
  split; [exact R1|]. split; [exact R2|]. split.
  - intros ->. now destruct (domeFlickThreshold <=? abs v).
  - intros A. unfold domeFlickThreshold.
    assert (abs v = Z.abs v) as E.
    { unfold abs. destruct (Z.ltb_spec 0 v); lia. }
    rewrite E. destruct (Z.leb_spec 5 (Z.abs v)); [reflexivity|lia].
Qed.

Lemma dome_command_ranges_witness :
  In (Dome 156) (snd (loopManualMode dome_right_tick initial))
  /\ -156 <= 156 <= 156
  /\ (domeFlickActive initial = true -> -78 <= 156 <= 78)
  /\ (domeFlickActive initial = true ->
      domeFlickActive (fst (loopManualMode dome_right_tick initial)) = true)
  /\ (5 <= Z.abs 156 ->
      domeFlickActive (fst (loopManualMode dome_right_tick initial)) = true).
Proof.
  assert (In (Dome 156) (snd (loopManualMode dome_right_tick initial))) as H.
  { ManualProps.eval_tick. right. right. left. reflexivity. }
  split; [exact H|].
  exact (dome_command_ranges dome_right_tick initial 156 H).
Defined.

(** The flick flag is never cleared, whether or not the frame runs. *)
Lemma flick_flag_latched (i : Inputs) (s : State) :
  domeFlickActive s = true ->
  domeFlickActive (fst (loopManualMode i s)) = true.
Proof.
  intros A.
  destruct (Z.lt_ge_cases (usub (nowMicros i) (lastFrameMicros s))
                          frameIntervalMicros) as [L|G].
  - unfold loopManualMode.
    destruct (Z.ltb_spec (usub (nowMicros i) (lastFrameMicros s))
                         frameIntervalMicros); [exact A|lia].
  - destruct (executed_frame_dome i s G) as (_ & _ & _ & F & _).
    rewrite F, A. now destruct (domeFlickThreshold <=? _).
Qed.

(** A dome command is written only on a change: a frame never writes the
    value that was last sent, and after every frame that runs the value
    last sent is the current dome speed. *)
Theorem dome_written_only_on_change (i : Inputs) (s : State) :
  frameRuns i s ->
  lastSentDomeSpeed (fst (loopManualMode i s))
  = currentDomeSpeed (fst (loopManualMode i s))
  /\ ~ In (Dome (lastSentDomeSpeed s)) (snd (loopManualMode i s))
  /\ (currentDomeSpeed (fst (loopManualMode i s)) <> lastSentDomeSpeed s ->
      In (Dome (currentDomeSpeed (fst (loopManualMode i s))))
         (snd (loopManualMode i s))).
Proof.
  intros G.
  destruct (executed_frame_dome i s G) as (C & L & _ & _ & d & t & O).
  rewrite C, L, O. split; [reflexivity|]. split.
  - intros [H|[H|H]]; [discriminate|discriminate|].
    destruct (Z.eqb_spec (domeSpeedOf i s) (lastSentDomeSpeed s)) as [E|N];
      simpl in H; [destruct H|].
    destruct H as [H|[]]. injection H as H. congruence.
  - intros N. right. right.
    destruct (Z.eqb_spec (domeSpeedOf i s) (lastSentDomeSpeed s));
      [contradiction|]. left. reflexivity.
Qed.

Lemma dome_written_only_on_change_witness :
  frameRuns dome_right_tick initial
  /\ lastSentDomeSpeed (fst (loopManualMode dome_right_tick initial))
     = currentDomeSpeed (fst (loopManualMode dome_right_tick initial))
  /\ ~ In (Dome (lastSentDomeSpeed initial))
          (snd (loopManualMode dome_right_tick initial)).
Proof.
  assert (frameRuns dome_right_tick initial) as G by (vm_compute; discriminate).
  split; [exact G|].
  pose proof (dome_written_only_on_change dome_right_tick initial G) as T.
  split; [exact (proj1 T)|exact (proj1 (proj2 T))].
Defined.

(** *** The curve helper *)

Lemma truncate_monotone x y : (0 <= x <= y)%R -> truncate x <= truncate y.
Proof.
  intros [H0 H1].
  destruct (truncate_floor_bounds x H0) as (_ & X1 & X2).
  destruct (truncate_floor_bounds y ltac:(lra)) as (_ & Y1 & Y2).
  assert (IZR (truncate x) < IZR (truncate y) + 1)%R as L by lra.
  rewrite <- plus_IZR in L. apply lt_IZR in L. lia.
Qed.

Lemma pow_monotone_base a b c :
  (0 <= a <= b)%R -> (0 <= c)%R -> (pow a c <= pow b c)%R.
Proof.
  intros [A0 AB] C. unfold pow.
  destruct (Req_dec_T c 0); [lra|].
  destruct (Rle_dec a 0); destruct (Rle_dec b 0); try lra.
  - unfold Rpower. left. apply exp_pos.
  - apply Rle_Rpower_l; lra.
Qed.

(** The rounding matters beyond the settings of the sketch.  At input 35,
    exponent 1 and limit 381 the exact product is 105, while in the
    arithmetic of the target the quotient 35 / 127 is rounded down to
    9247284 / 2^25 and the product to 13762559 / 2^17, just below 105:
    the helper returns 104.  [pow(x, 1)] is taken to return [x]. *)
Example rounding_lowers_the_curve (powf : R -> R -> R) :
  (forall x : R, powf x 1%R = x) ->
  RoundedManualMode.applyExpoCurve (Binary32.arith powf) 35 1 381 = 104
  /\ ManualMode.applyExpoCurve 35 1 381 = 105.
Proof.
  intros P1. split.
  - unfold RoundedManualMode.applyExpoCurve.
    cbn [FloatArith.round FloatArith.powf Binary32.arith].
    change (abs 35) with 35. change (0 <=? 35) with true. cbv iota zeta.
    rewrite P1.
    assert (Binary32.pow2 (-25) = / 33554432)%R as U25
      by (apply (Binary32Facts.pow2_negative_exponent 25); lia).
    assert (Binary32.pow2 (-17) = / 131072)%R as U17
      by (apply (Binary32Facts.pow2_negative_exponent 17); lia).
    assert (Binary32.round (35 / 127) = 9247284 / 33554432)%R as N.
    { unfold Binary32.round.
      destruct (Rlt_dec 0 (35 / 127)) as [_|F]; [|exfalso; apply F; lra].
      unfold Binary32.round_positive, Binary32.ulp.
      rewrite (Binary32Facts.exponent_at (35 / 127) (-2)).
      - change (-2 - 23) with (-25). rewrite U25.
        rewrite (Binary32Facts.nearest_even_below _ 9247284) by lra. lra.
      - lia.
      - change (-2 + 1) with (-1).
        assert (Binary32.pow2 (-2) = / 4)%R as U2
          by (apply (Binary32Facts.pow2_negative_exponent 2); lia).
        assert (Binary32.pow2 (-1) = / 2)%R as U1
          by (apply (Binary32Facts.pow2_negative_exponent 1); lia).
        rewrite U2, U1. lra. }
    rewrite N.
    assert (Binary32.round (9247284 / 33554432 * 381) = 13762559 / 131072)%R
      as C.
    { unfold Binary32.round.
      destruct (Rlt_dec 0 (9247284 / 33554432 * 381)) as [_|F];
        [|exfalso; apply F; lra].
      unfold Binary32.round_positive, Binary32.ulp.
      rewrite (Binary32Facts.exponent_at _ 6).
      - change (6 - 23) with (-17). rewrite U17.
        rewrite (Binary32Facts.nearest_even_below _ 13762559) by lra. lra.
      - lia.
      - change (6 + 1) with 7.
        assert (Binary32.pow2 6 = 64)%R as U6
          by (apply (Binary32Facts.pow2_nonneg_exponent 6); lia).
        assert (Binary32.pow2 7 = 128)%R as U7
          by (apply (Binary32Facts.pow2_nonneg_exponent 7); lia).
        rewrite U6, U7. lra. }
    rewrite C. apply truncate_floor; simpl; lra.
  - change (ManualMode.applyExpoCurve 35 1 381)
      with (ManualMode.applyExpoCurve 35 ManualMode.expoCurve 381).
    rewrite ManualProps.applyExpoCurve_exponent_one by lia. reflexivity.
Qed.

Lemma rounded_magnitude_monotone (A : FloatArith.Arith) a b curve limit :
  FloatArith.Conforming A ->
  (forall u v : R, (0 <= u <= v)%R -> (v <= 1)%R ->
     (FloatArith.powf A u curve <= FloatArith.powf A v curve)%R) ->
  0 <= a <= b -> b <= 127 -> (0 <= curve)%R -> 0 <= limit <= 32767 ->
  0 <= truncate (FloatArith.round A
                   (FloatArith.powf A (FloatArith.round A (IZR a / 127)) curve
                    * IZR limit))
    <= truncate (FloatArith.round A
                   (FloatArith.powf A (FloatArith.round A (IZR b / 127)) curve
                    * IZR limit)).
Proof.
  intros Conf Mono [A0 AB] B127 C L.
  assert (0 <= a <= 127) as Ha by lia.
  assert (0 <= b <= 127) as Hb by lia.
  pose proof (RoundedCurveFacts.rounded_normalized_range A Conf a Ha) as Na.
  pose proof (RoundedCurveFacts.rounded_normalized_range A Conf b Hb) as Nb.
  assert (FloatArith.round A (IZR a / 127)
          <= FloatArith.round A (IZR b / 127))%R as N.
  { apply (FloatArith.round_monotone A Conf).
    apply IZR_le in AB. lra. }
  pose proof (Mono _ _ (conj (proj1 Na) N) (proj2 Nb)) as P.
  pose proof (FloatArith.powf_unit_interval A Conf _ curve Na C) as Pa.
  pose proof (RoundedCurveFacts.rounded_curved_range A Conf a curve limit
                Ha C L) as Ra.
  assert (0 <= IZR limit)%R as L0 by (apply IZR_le; lia).
  assert (FloatArith.round A
            (FloatArith.powf A (FloatArith.round A (IZR a / 127)) curve
             * IZR limit)
          <= FloatArith.round A
               (FloatArith.powf A (FloatArith.round A (IZR b / 127)) curve
                * IZR limit))%R as M.
  { apply (FloatArith.round_monotone A Conf). nra. }
  split; [|apply truncate_monotone; lra].
  destruct (truncate_floor_bounds _ (proj1 Ra)) as (T & _).
  now apply le_IZR.
Qed.

(** Rounding, the cast and the sign handling of the curve keep the order
    of the inputs: in rounded float arithmetic, over the range of the
    mapped stick, a larger deflection never gives a smaller command, for
    every non-negative limit and every exponent from zero up at which
    [pow] is monotone in its base on [0,1], as it is at exponent 1 when
    [pow(x, 1)] returns [x]. *)
Theorem applyExpoCurve_monotone (A : FloatArith.Arith)
    (x y : Z) (curve : R) (limit : Z) :
  FloatArith.Conforming A ->
  (forall u v : R, (0 <= u <= v)%R -> (v <= 1)%R ->
     (FloatArith.powf A u curve <= FloatArith.powf A v curve)%R) ->
  -127 <= x -> x <= y -> y <= 127 -> (0 <= curve)%R -> 0 <= limit <= 32767 ->
  RoundedManualMode.applyExpoCurve A x curve limit
  <= RoundedManualMode.applyExpoCurve A y curve limit.
Proof.
  intros Conf Mono X XY Y C L.
  pose proof (fun a b H1 H2 =>
                rounded_magnitude_monotone A a b curve limit Conf Mono
                  H1 H2 C L) as G.
  unfold RoundedManualMode.applyExpoCurve. cbv zeta.
  destruct (Z.leb_spec 0 x) as [X0|X0]; destruct (Z.leb_spec 0 y) as [Y0|Y0];
    try lia.
  - assert (0 <= abs x <= abs y /\ abs y <= 127) as [H1 H2]
      by (unfold abs; destruct (Z.ltb_spec 0 x), (Z.ltb_spec 0 y); lia).
    apply (G _ _ H1 H2).
  - assert (0 <= 0 <= abs x /\ abs x <= 127) as [H1 H2]
      by (unfold abs; destruct (Z.ltb_spec 0 x); lia).
    assert (0 <= 0 <= abs y /\ abs y <= 127) as [H3 H4]
      by (unfold abs; destruct (Z.ltb_spec 0 y); lia).
    pose proof (G _ _ H1 H2). pose proof (G _ _ H3 H4). lia.
  - assert (0 <= abs y <= abs x /\ abs x <= 127) as [H1 H2]
      by (unfold abs; destruct (Z.ltb_spec 0 x), (Z.ltb_spec 0 y); lia).
    pose proof (G _ _ H1 H2). lia.
Qed.

Lemma applyExpoCurve_monotone_witness :
  FloatArith.Conforming Binary32.correctly_rounded
  /\ -127 <= 60 /\ 60 <= 100 /\ 100 <= 127
  /\ (0 <= 13 / 10)%R /\ 0 <= 25 <= 32767
  /\ RoundedManualMode.applyExpoCurve Binary32.correctly_rounded
       60 (13 / 10) 25
     <= RoundedManualMode.applyExpoCurve Binary32.correctly_rounded
          100 (13 / 10) 25.
Proof.
  assert (FloatArith.Conforming Binary32.correctly_rounded) as Conf
    by apply RoundedCurveFacts.correctly_rounded_conforming.
  assert (-127 <= 60) as X by lia.
  assert (60 <= 100) as XY by lia.
  assert (100 <= 127) as Y by lia.
  assert (0 <= 13 / 10)%R as C by lra.
  assert (0 <= 25 <= 32767) as L by lia.
  assert (forall u v : R, (0 <= u <= v)%R -> (v <= 1)%R ->
            (FloatArith.powf Binary32.correctly_rounded u (13 / 10)
             <= FloatArith.powf Binary32.correctly_rounded v (13 / 10))%R)
    as Mono.
  { intros u v H _. apply Binary32Facts.binary32_round_monotone.
    apply pow_monotone_base; [exact H|lra]. }
  split; [exact Conf|].
  split; [exact X|]. split; [exact XY|]. split; [exact Y|].
  split; [exact C|]. split; [exact L|].
  exact (applyExpoCurve_monotone Binary32.correctly_rounded 60 100 (13 / 10)
           25 Conf Mono X XY Y C L).
Defined.

(** Full stick gives exactly the limit and its opposite, whatever the
    exponent. *)
Theorem applyExpoCurve_full_scale (curve : R) (limit : Z) :
  applyExpoCurve 127 curve limit = limit
  /\ applyExpoCurve (-127) curve limit = - limit.
Proof.
  assert (pow (IZR 127 / 127) curve = 1%R) as P.
  { replace (IZR 127 / 127)%R with 1%R by lra.
    apply AutomatedProps.pow_base_one. }
  unfold applyExpoCurve. cbv zeta.
  change (abs 127) with 127. change (abs (-127)) with 127.
  change (0 <=? 127) with true. change (0 <=? -127) with false.
  cbv iota. rewrite P, Rmult_1_l, truncate_IZR. split; reflexivity.
Qed.

(** *** The taper helper of this file *)

Lemma taperRate_exceeds x :
  0 <= x -> x < map x 0 speedLimit 5 taperFallRate.
Proof.
  intros H. unfold map, speedLimit, taperFallRate.
  change (60 - 5) with 55. change (25 - 0) with 25.
  rewrite Z.sub_0_r. rewrite Z.quot_div_nonneg by lia.
  assert (2 * x <= x * 55 / 25) by (apply Z.div_le_lower_bound; lia).
  lia.
Qed.

(** With the settings of the file the taper step is larger than the value
    itself, and this variant clamps to the speed limit rather than to
    zero: over the range of the commands a positive value is tapered to a
    negative one and a negative value to a positive one, within the speed
    limit. *)
Theorem taperToZero_crosses_zero (value : Z) :
  -127 <= value <= 127 ->
  (0 < value -> - speedLimit <= taperToZero value < 0)
  /\ (value < 0 -> 0 < taperToZero value <= speedLimit)
  /\ taperToZero 0 = 0.
Proof.
  intros _.
  pose proof (taperRate_exceeds (abs value) (ArduinoFacts.abs_nonneg value))
    as R.
  unfold taperToZero. cbv zeta.
  set (rate := map (abs value) 0 speedLimit 5 taperFallRate) in *.
  unfold abs in R.
  repeat split; try intros H.
  - destruct (Z.ltb_spec 0 value); [|lia].
    pose proof (ArduinoFacts.constrain_range (value - rate) (- speedLimit)
                  speedLimit ltac:(unfold speedLimit; lia)). lia.
  - destruct (Z.ltb_spec 0 value); [|lia].
    unfold constrain.
    destruct (Z.ltb_spec (value - rate) (- speedLimit));
      [unfold speedLimit; lia|].
    destruct (Z.ltb_spec speedLimit (value - rate)); [unfold speedLimit in *|];
      lia.
  - destruct (Z.ltb_spec 0 value); [lia|].
    destruct (Z.ltb_spec value 0); [|lia].
    unfold constrain.
    destruct (Z.ltb_spec (value + rate) (- speedLimit));
      [unfold speedLimit in *; lia|].
    destruct (Z.ltb_spec speedLimit (value + rate)); [unfold speedLimit|]; lia.
  - destruct (Z.ltb_spec 0 value); [lia|].
    destruct (Z.ltb_spec value 0); [|lia].
    pose proof (ArduinoFacts.constrain_range (value + rate) (- speedLimit)
                  speedLimit ltac:(unfold speedLimit; lia)). lia.
Qed.

Lemma taperToZero_crosses_zero_witness :
  -127 <= 20 <= 127 /\ 0 < 20 /\ - speedLimit <= taperToZero 20 < 0.
Proof.
  assert (-127 <= 20 <= 127) as H by lia.
  assert (0 < 20) as P by lia.
  split; [exact H|]. split; [exact P|].
  exact (proj1 (taperToZero_crosses_zero 20 H) P).
Defined.

End ManualExtras.

(** ** Hybrid mode: drive mapping and gating of the automation *)

Module HybridExtras.
Import Arduino FloatModel FloatFacts MoveFacts.
Import HybridDrive HybridViews.

(** *** The taper helper of this file *)

Lemma hybrid_taperRate_exceeds x :
  0 <= x -> x < map x 0 HybridMode.speedLimit 5 taperFallRate.
Proof.
  intros H. unfold map, HybridMode.speedLimit, taperFallRate.
  change (60 - 5) with 55. change (25 - 0) with 25.
  rewrite Z.sub_0_r. rewrite Z.quot_div_nonneg by lia.
  assert (2 * x <= x * 55 / 25) by (apply Z.div_le_lower_bound; lia).
  lia.
Qed.

Lemma taper_step_overshoots value :
  (0 < value -> value - map (abs value) 0 HybridMode.speedLimit 5 taperFallRate < 0)
  /\ (value < 0 ->
      0 < value + map (abs value) 0 HybridMode.speedLimit 5 taperFallRate).
Proof.
  pose proof (hybrid_taperRate_exceeds (abs value)
                (ArduinoFacts.abs_nonneg value)) as R.
  set (rate := map (abs value) 0 HybridMode.speedLimit 5 taperFallRate) in *.
  unfold abs in R. destruct (Z.ltb_spec 0 value); lia.
Qed.

Lemma kept_turn_tapers_to_zero value : taperToZero value = 0.
Proof.
  destruct (taper_step_overshoots value) as [P N].
  unfold taperToZero. cbv zeta.
  destruct (Z.ltb_spec 0 value).
  - destruct (Z.ltb_spec (value - map (abs value) 0 HybridMode.speedLimit 5
                                      taperFallRate) 0); [reflexivity|lia].
  - destruct (Z.ltb_spec value 0); [|lia].
    destruct (Z.ltb_spec 0 (value + map (abs value) 0 HybridMode.speedLimit 5
                                        taperFallRate)); [reflexivity|lia].
Qed.

(** With the settings of the file the taper step is larger than the value
    it is taken from: over the range of the commands the step is more
    than twice the magnitude of the value, so the taper of every command,
    positive or negative, is zero at the first step. *)
Theorem hybrid_taper_is_immediate (value : Z) :
  -127 <= value <= 127 ->
  2 * Z.abs value < map (abs value) 0 HybridMode.speedLimit 5 taperFallRate
  /\ taperToZero value = 0.
Proof.
  intros _. split; [|apply kept_turn_tapers_to_zero].
  assert (0 <= abs value) as A by apply ArduinoFacts.abs_nonneg.
  assert (abs value = Z.abs value) as E
    by (unfold abs; destruct (Z.ltb_spec 0 value); lia).
  rewrite <- E.
  unfold map, HybridMode.speedLimit, taperFallRate.
  change (60 - 5) with 55. change (25 - 0) with 25.
  rewrite Z.sub_0_r. rewrite Z.quot_div_nonneg by lia.
  assert (2 * abs value <= abs value * 55 / 25)
    by (apply Z.div_le_lower_bound; lia).
  lia.
Qed.

Lemma hybrid_taper_is_immediate_witness :
  -127 <= 25 <= 127 /\ taperToZero 25 = 0.
Proof.
  assert (-127 <= 25 <= 127) as H by lia.
  split; [exact H|exact (proj2 (hybrid_taper_is_immediate 25 H))].
Defined.

(** *** Commands of one call *)

Lemma driveStickOf_range i : -127 <= driveStickOf i <= 127.
Proof.
  unfold driveStickOf. cbv zeta.
  pose proof (ManualProps.map_axis_range _
    (ArduinoFacts.constrain_range
       (PWMInputHandler.ch2_value (pwm i)) 1000 2000 ltac:(lia))).
  destruct (_ <=? deadZone); lia.
Qed.

Lemma turnStickOf_range i : -127 <= turnStickOf i <= 127.
Proof.
  unfold turnStickOf. cbv zeta.
  pose proof (ManualProps.map_axis_range _
    (ArduinoFacts.constrain_range
       (PWMInputHandler.ch1_value (pwm i)) 1000 2000 ltac:(lia))) as M.
  set (m1 := if _ <=? deadZone then 0 else _).
  assert (-127 <= m1 <= 127) as M1 by (subst m1; destruct (_ <=? deadZone); lia).
  destruct (80 <? abs (driveStickOf i)); [|exact M1].
  pose proof (ArduinoFacts.constrain_range m1 (-40) 40 ltac:(lia)). lia.
Qed.

Lemma hybrid_curve_within_limit x :
  -127 <= x <= 127 ->
  Z.abs (HybridMode.applyExpoCurve x HybridMode.expoCurve)
  <= HybridMode.speedLimit.
Proof.
  intros H.
  pose proof (ManualProps.applyExpoCurve_bounded x HybridMode.expoCurve
                HybridMode.speedLimit H
                ltac:(unfold HybridMode.expoCurve; lra)
                ltac:(unfold HybridMode.speedLimit; lia)) as B.
  change (ManualMode.applyExpoCurve x HybridMode.expoCurve HybridMode.speedLimit)
    with (HybridMode.applyExpoCurve x HybridMode.expoCurve) in B.
  lia.
Qed.

(** What one call writes to the two drive channels and what it keeps. *)
Lemma hybrid_tick_fields (i : Inputs) (s : State) :
  let d := if killActive i then 0
           else HybridMode.applyExpoCurve (driveStickOf i) HybridMode.expoCurve in
  let t1 := if (turnStickOf i =? 0) && wasTurnInputActive s
            then taperToZero (if negb (lastTurn s =? 0) then lastTurn s
                              else savedTurnSpeed s)
            else if turnStickOf i =? 0 then 0
            else HybridMode.applyExpoCurve (turnStickOf i) HybridMode.expoCurve in
  let t := if killActive i then 0 else t1 in
  (exists rest, snd (loopHybridMode i s) = Drive d :: Turn t :: rest)
  /\ lastDrive (fst (loopHybridMode i s))
     = (if motorTimeoutMs <? usub (millis i) (millis i) then 0 else d)
  /\ lastTurn (fst (loopHybridMode i s))
     = (if motorTimeoutMs
           <? usub (millis i) (if turnStickOf i =? 0
                               then lastTurnCommandTime s else millis i)
        then 0 else t)
  /\ savedTurnSpeed (fst (loopHybridMode i s))
     = (if turnStickOf i =? 0 then savedTurnSpeed s
        else HybridMode.applyExpoCurve (turnStickOf i) HybridMode.expoCurve).
Proof.
  cbv zeta. split; [eexists; reflexivity|]. repeat split.
Qed.

Lemma turn_command_within_limit i s :
  turnsWithinLimit s ->
  Z.abs (if (turnStickOf i =? 0) && wasTurnInputActive s
         then taperToZero (if negb (lastTurn s =? 0) then lastTurn s
                           else savedTurnSpeed s)
         else if turnStickOf i =? 0 then 0
         else HybridMode.applyExpoCurve (turnStickOf i) HybridMode.expoCurve)
  <= HybridMode.speedLimit.
Proof.
  intros W.
  rewrite kept_turn_tapers_to_zero.
  pose proof (hybrid_curve_within_limit _ (turnStickOf_range i)) as C.
  destruct ((turnStickOf i =? 0) && wasTurnInputActive s);
    [unfold HybridMode.speedLimit; lia|].
  destruct (turnStickOf i =? 0); [unfold HybridMode.speedLimit; lia|exact C].
Qed.

Lemma auto_events_unconstrained l :
  Forall commandWithinLimit (List.map Auto l).
Proof. induction l; constructor; [exact I|assumption]. Qed.

Lemma hybrid_tick_within_limit i s :
  turnsWithinLimit s ->
  Forall commandWithinLimit (snd (loopHybridMode i s))
  /\ turnsWithinLimit (fst (loopHybridMode i s)).
Proof.
  intros W.
  pose proof (hybrid_curve_within_limit _ (driveStickOf_range i)) as D.
  pose proof (hybrid_curve_within_limit _ (turnStickOf_range i)) as C.
  pose proof (turn_command_within_limit i s W) as T.
  destruct (hybrid_tick_fields i s) as (_ & _ & LT & SV).
  cbv zeta in LT, SV.
  split.
  - unfold loopHybridMode. cbv zeta. cbn [snd].
    fold (driveStickOf i). fold (turnStickOf i).
    constructor.
    { cbn [commandWithinLimit].
      destruct (killActive i); [unfold HybridMode.speedLimit; lia|exact D]. }
    constructor.
    { cbn [commandWithinLimit].
      destruct (killActive i); [unfold HybridMode.speedLimit; lia|exact T]. }
    apply Forall_app. split.
    + destruct (negb (killActive i)).
      * apply auto_events_unconstrained.
      * constructor; [exact I|constructor].
    + match goal with |- Forall _ (if ?b then _ else _) => destruct b end.
      * constructor; [exact I|constructor].
      * constructor.
  - unfold turnsWithinLimit. rewrite LT, SV. split.
    + destruct (motorTimeoutMs <? _); [unfold HybridMode.speedLimit; lia|].
      destruct (killActive i); [unfold HybridMode.speedLimit; lia|exact T].
    + destruct (turnStickOf i =? 0); [exact (proj2 W)|exact C].
Qed.

(** Along every run of the mode, every drive and every turn command
    written is within the speed limit. *)
Theorem hybrid_commands_within_limit (ticks : list Inputs) (s : State) :
  turnsWithinLimit s ->
  Forall commandWithinLimit (snd (run ticks s))
  /\ turnsWithinLimit (fst (run ticks s)).
Proof.
  revert s. induction ticks as [|i rest IH]; intros s W.
  - split; [constructor|exact W].
  - destruct (hybrid_tick_within_limit i s W) as [O1 W1].
    destruct (IH _ W1) as [O2 W2].
    cbn [run]. cbv zeta. cbn [fst snd].
    split; [apply Forall_app; split; assumption|exact W2].
Qed.

Lemma initial_turns_within : turnsWithinLimit initial.
Proof. unfold turnsWithinLimit, HybridMode.speedLimit. simpl. lia. Qed.

Lemma hybrid_commands_within_limit_witness :
  turnsWithinLimit initial
  /\ Forall commandWithinLimit (snd (run [centred_tick] initial))
  /\ turnsWithinLimit (fst (run [centred_tick] initial)).
Proof.
  split; [exact initial_turns_within|].
  exact (hybrid_commands_within_limit [centred_tick] initial
           initial_turns_within).
Defined.

(** The value kept as last drive and last turn at the end of a call is the
    one just written: the timeout at the end of the call never changes
    it. *)
Theorem hybrid_timeouts_change_nothing (i : Inputs) (s : State) :
  turnsWithinLimit s ->
  exists d t rest,
    snd (loopHybridMode i s) = Drive d :: Turn t :: rest
    /\ lastDrive (fst (loopHybridMode i s)) = d
    /\ lastTurn (fst (loopHybridMode i s)) = t.
Proof.
  intros W.
  destruct (hybrid_tick_fields i s) as ([rest O] & LD & LT & _).
  cbv zeta in O, LD, LT.
  rewrite ArduinoFacts.usub_self in LD.
  change (motorTimeoutMs <? 0) with false in LD.
  eexists _, _, rest. split; [exact O|]. split; [exact LD|].
  rewrite LT.
  rewrite kept_turn_tapers_to_zero.
  destruct (Z.eqb_spec (turnStickOf i) 0) as [E|N].
  - destruct (motorTimeoutMs <? _); [|reflexivity].
    destruct (killActive i); [reflexivity|].
    now destruct (true && wasTurnInputActive s).
  - rewrite ArduinoFacts.usub_self. reflexivity.
Qed.

Lemma hybrid_timeouts_change_nothing_witness :
  turnsWithinLimit initial
  /\ exists d t rest,
       snd (loopHybridMode centred_tick initial) = Drive d :: Turn t :: rest
       /\ lastDrive (fst (loopHybridMode centred_tick initial)) = d
       /\ lastTurn (fst (loopHybridMode centred_tick initial)) = t.
Proof.
  split; [exact initial_turns_within|].
  exact (hybrid_timeouts_change_nothing centred_tick initial
           initial_turns_within).
Defined.

(** When the turn stick is at the centre the turn command written by that
    very call is zero, whatever turn was being made before. *)
Theorem hybrid_turn_stops_at_once (i : Inputs) (s : State) :
  turnsWithinLimit s -> turnStickOf i = 0 ->
  exists d rest, snd (loopHybridMode i s) = Drive d :: Turn 0 :: rest.
Proof.
  intros W Z0.
  destruct (hybrid_tick_fields i s) as ([rest O] & _).
  cbv zeta in O.
  rewrite kept_turn_tapers_to_zero in O.
  rewrite Z0 in O. change (0 =? 0) with true in O.
  eexists _, rest. rewrite O. f_equal. f_equal.
  destruct (killActive i); [reflexivity|].
  now destruct (true && wasTurnInputActive s).
Qed.

Lemma hybrid_turn_stops_at_once_witness :
  turnsWithinLimit initial /\ turnStickOf centred_tick = 0
  /\ exists d rest,
       snd (loopHybridMode centred_tick initial) = Drive d :: Turn 0 :: rest.
Proof.
  assert (turnStickOf centred_tick = 0) as Z0 by (vm_compute; reflexivity).
  split; [exact initial_turns_within|]. split; [exact Z0|].
  exact (hybrid_turn_stops_at_once centred_tick initial
           initial_turns_within Z0).
Defined.

(** *** The kill switch *)

Lemma hybrid_kill_tick i s :
  killHeld i ->
  auto (fst (loopHybridMode i s)) = auto s
  /\ Forall (killOutput (auto s)) (snd (loopHybridMode i s)).
Proof.
  unfold killHeld. intros K. unfold loopHybridMode. cbv zeta.
  rewrite K. cbn [negb fst snd auto app].
  split; [reflexivity|].
  constructor; [left; reflexivity|].
  constructor; [right; left; reflexivity|].
  constructor; [right; right; left; reflexivity|].
  match goal with |- Forall _ (if ?b then _ else _) => destruct b end.
  - constructor; [right; right; right; reflexivity|constructor].
  - constructor.
Qed.

(** While the kill switch is held the automation state does not change
    and nothing is written but zero drive, zero turn, and on pin 46 zero
    and the dome speed kept from before: no motor command, so a dome move
    in flight is not stopped, and no track. *)
Theorem hybrid_kill_freezes_automation (ticks : list Inputs) (s : State) :
  Forall killHeld ticks ->
  auto (fst (run ticks s)) = auto s
  /\ Forall (killOutput (auto s)) (snd (run ticks s)).
Proof.
  revert s. induction ticks as [|i rest IH]; intros s K.
  - split; [reflexivity|constructor].
  - inversion K as [|? ? Ki Krest]; subst.
    destruct (hybrid_kill_tick i s Ki) as [A1 O1].
    destruct (IH (fst (loopHybridMode i s)) Krest) as [A2 O2].
    cbn [run]. cbv zeta. cbn [fst snd].
    rewrite A1 in A2, O2.
    split; [exact A2|apply Forall_app; split; assumption].
Qed.

Lemma hybrid_kill_freezes_automation_witness :
  Forall killHeld [killed_tick]
  /\ auto (fst (run [killed_tick] initial)) = auto initial
  /\ Forall (killOutput (auto initial)) (snd (run [killed_tick] initial)).
Proof.
  assert (Forall killHeld [killed_tick]) as K
    by (constructor; [vm_compute; reflexivity|constructor]).
  split; [exact K|].
  exact (hybrid_kill_freezes_automation [killed_tick] initial K).
Defined.

(** *** The automation under the drive loop *)

Lemma hybrid_adjusted_nonneg speed isReturnMove direction :
  (0 <= HybridMode.adjustedMsPerDegree speed isReturnMove direction)%R.
Proof.
  unfold HybridMode.adjustedMsPerDegree, HybridMode.baseMsPerDegree. cbv zeta.
  pose proof (pow_nonneg (IZR HybridMode.baseSpeed / IZR speed)
                HybridMode.curveFactor) as P.
  destruct (negb isReturnMove && (0 <? direction));
    destruct (negb isReturnMove && (direction <? 0)); nra.
Qed.

Lemma hybrid_lockedSpeed_range r a :
  HybridMode.minSpeed <= HybridMode.sequenceSpeed a <= HybridMode.maxSpeed ->
  HybridMode.minSpeed
  <= (if negb (HybridMode.sequenceStarted a)
      then random HybridMode.minSpeed (HybridMode.maxSpeed + 1)
                  (AutomatedMode.rSpeed r)
      else HybridMode.sequenceSpeed a)
  <= HybridMode.maxSpeed.
Proof.
  intros H. destruct (negb (HybridMode.sequenceStarted a)); [|exact H].
  pose proof (ArduinoFacts.random_range HybridMode.minSpeed
                (HybridMode.maxSpeed + 1) (AutomatedMode.rSpeed r)
                ltac:(unfold HybridMode.minSpeed, HybridMode.maxSpeed; lia)).
  lia.
Qed.

Lemma hybrid_runDomeAutomation_bounded now r a :
  automationBounded a ->
  automationBounded (fst (HybridMode.runDomeAutomation now r a))
  /\ Forall AutomationViews.eventAllowed
            (snd (HybridMode.runDomeAutomation now r a)).
Proof.
  intros [Off Speed]. unfold HybridMode.runDomeAutomation.
  destruct (usub now (HybridMode.modeEntryTime a) <? 3000).
  { split; [split; assumption|constructor]. }
  destruct (HybridMode.domeMoving a).
  { destruct (HybridMode.domeEndTime a <=? now).
    - split; [split; assumption|].
      constructor; [left; reflexivity|constructor].
    - split; [split; assumption|constructor]. }
  destruct (usub now (HybridMode.lastMoveTime a) <? HybridMode.nextMoveDelay a).
  { split; [split; assumption|constructor]. }
  cbv zeta.
  pose proof (hybrid_lockedSpeed_range r a Speed) as LS.
  set (speed := if negb (HybridMode.sequenceStarted a) then _ else _) in *.
  unfold automationBounded.
  cbn [fst snd HybridMode.domeOffset HybridMode.sequenceSpeed].
  split; [split; [|exact LS]|].
  - destruct (Z.leb_spec 2 (HybridMode.moveCount a)) as [C|C]; cbn [orb].
    + eapply Z.le_trans; [apply return_move_offset_shrinks|exact Off].
      apply hybrid_adjusted_nonneg.
    + destruct (HybridMode.offsetBeyondEpsilon (HybridMode.domeOffset a)) eqn:B.
      * eapply Z.le_trans; [apply return_move_offset_shrinks|exact Off].
        apply hybrid_adjusted_nonneg.
      * assert (HybridMode.domeOffset a = 0) as Z0.
        { destruct (Z.eq_dec (HybridMode.domeOffset a) 0) as [E|N]; [exact E|].
          apply HybridProps.hybrid_offsetBeyondEpsilon_true in N. congruence. }
        rewrite Z0.
        pose proof (ArduinoFacts.random_range HybridMode.domeMinAngleDeg
                      (HybridMode.domeMaxAngleDeg + 1) (AutomatedMode.rAngle r)
                      ltac:(unfold HybridMode.domeMinAngleDeg,
                              HybridMode.domeMaxAngleDeg; lia)) as A.
        assert (0 <= HybridMode.domeMinAngleDeg) as A0
          by (unfold HybridMode.domeMinAngleDeg; lia).
        eapply Z.le_trans.
        -- apply free_move_offset.
           ++ lia.
           ++ destruct (random 0 2 (AutomatedMode.rDirection r) =? 0); auto.
           ++ apply hybrid_adjusted_nonneg.
        -- lia.
  - constructor; [|constructor]. right.
    change AutomatedMode.minSpeed with HybridMode.minSpeed.
    change AutomatedMode.maxSpeed with HybridMode.maxSpeed.
    assert (0 <= HybridMode.minSpeed) by (unfold HybridMode.minSpeed; lia).
    match goal with
    | |- _ <= Z.abs (?d * speed) <= _ =>
        assert (d = -1 \/ d = 1) as Dd
    end.
    { destruct (_ || _).
      - destruct (0 <=? HybridMode.domeOffset a); auto.
      - destruct (random 0 2 (AutomatedMode.rDirection r) =? 0); auto. }
    destruct Dd as [-> | ->]; lia.
Qed.

Lemma hybrid_pickTrack_in_bank c raw :
  AutomationViews.inSoundBank (HybridMode.pickTrack c raw).
Proof.
  unfold HybridMode.pickTrack, AutomationViews.inSoundBank.
  pose proof (ArduinoFacts.random_range 1 15 raw ltac:(lia)).
  pose proof (ArduinoFacts.random_range 25 30 raw ltac:(lia)).
  pose proof (ArduinoFacts.random_range 49 63 raw ltac:(lia)).
  unfold HybridMode.HYBRID_HAPPY_START, HybridMode.HYBRID_HAPPY_END,
    HybridMode.HYBRID_SAD_START, HybridMode.HYBRID_SAD_END,
    HybridMode.HYBRID_TALK_START, HybridMode.HYBRID_TALK_END,
    AutomatedMode.AUTO_HAPPY_START, AutomatedMode.AUTO_HAPPY_END,
    AutomatedMode.AUTO_SAD_START, AutomatedMode.AUTO_SAD_END,
    AutomatedMode.AUTO_TALK_START, AutomatedMode.AUTO_TALK_END.
  change (14 + 1) with 15. change (29 + 1) with 30. change (62 + 1) with 63.
  destruct (c =? 0); [lia|]. destruct (c =? 1); lia.
Qed.

Lemma hybrid_runAutoMP3_bounded now sup r a :
  automationBounded a ->
  automationBounded (fst (HybridMode.runAutoMP3 now sup r a))
  /\ Forall AutomationViews.eventAllowed
            (snd (HybridMode.runAutoMP3 now sup r a)).
Proof.
  intros B. unfold HybridMode.runAutoMP3.
  destruct (usub now (HybridMode.modeEntryTime a) <? 3000);
    [split; [exact B|constructor]|].
  destruct ((HybridMode.nextMP3Delay a <? usub now (HybridMode.lastMP3Time a))
            && negb sup); [|split; [exact B|constructor]].
  cbv zeta. split; [exact B|].
  constructor; [apply hybrid_pickTrack_in_bank|constructor].
Qed.

Lemma automation_events_lifted l :
  Forall AutomationViews.eventAllowed l ->
  Forall automationAllowed (List.map Auto l).
Proof. induction 1; constructor; assumption. Qed.

Lemma hybrid_tick_bounded i s :
  automationBounded (auto s) ->
  automationBounded (auto (fst (loopHybridMode i s)))
  /\ Forall automationAllowed (snd (loopHybridMode i s)).
Proof.
  intros B. unfold loopHybridMode. cbv zeta. cbn [fst snd auto].
  destruct (negb (killActive i)).
  - destruct (hybrid_runDomeAutomation_bounded (millis_dome i) (domeDraws i)
                (auto s) B) as [B1 E1].
    destruct (hybrid_runAutoMP3_bounded (millis_mp3 i) (suppressed i)
                (mp3Draws i) _ B1) as [B2 E2].
    split; [exact B2|].
    constructor; [exact I|]. constructor; [exact I|].
    apply Forall_app. split.
    + apply automation_events_lifted. apply Forall_app. split; assumption.
    + match goal with |- Forall _ (if ?b then _ else _) => destruct b end;
        repeat constructor.
  - cbn [fst snd]. split; [exact B|].
    constructor; [exact I|]. constructor; [exact I|].
    constructor; [exact I|].
    match goal with |- Forall _ (if ?b then _ else _) => destruct b end;
      repeat constructor.
Qed.

Lemma hybrid_run_bounded ticks : forall s,
  automationBounded (auto s) ->
  automationBounded (auto (fst (run ticks s)))
  /\ Forall automationAllowed (snd (run ticks s)).
Proof.
  induction ticks as [|i rest IH]; intros s B.
  - split; [exact B|constructor].
  - destruct (hybrid_tick_bounded i s B) as [B1 E1].
    destruct (IH _ B1) as [B2 E2].
    cbn [run]. cbv zeta. cbn [fst snd].
    split; [exact B2|apply Forall_app; split; assumption].
Qed.

Lemma hybrid_initial_bounded : automationBounded (auto initial).
Proof.
  unfold automationBounded, HybridMode.domeMaxAngleDeg, HybridMode.minSpeed,
    HybridMode.maxSpeed. simpl. lia.
Qed.

(** Over every run of hybrid mode the accumulated dome offset stays within
    the largest angle of a free move, 90 degrees in this mode. *)
Theorem hybrid_offset_bounded (ticks : list Inputs) :
  Z.abs (HybridMode.domeOffset (auto (fst (run ticks initial))))
  <= HybridMode.domeMaxAngleDeg.
Proof. apply (hybrid_run_bounded ticks initial hybrid_initial_bounded). Qed.

(** Over every run of hybrid mode every motor command of the automation is
    a stop or has a magnitude between 25 and 32, and every track played
    lies in one of the three banks 1 to 14, 25 to 29 and 49 to 62. *)
Theorem hybrid_automation_events (ticks : list Inputs) :
  Forall automationAllowed (snd (run ticks initial)).
Proof. apply (hybrid_run_bounded ticks initial hybrid_initial_bounded). Qed.

End HybridExtras.

(** ** Automated mode: what the scheduler writes *)

Module AutomatedExtras.
Import Arduino FloatModel FloatFacts MoveFacts AutomatedMode.
Import AutomatedCases AutomationViews.

Lemma pickTrack_in_bank c raw : inSoundBank (pickTrack c raw).
Proof.
  unfold pickTrack, inSoundBank.
  pose proof (ArduinoFacts.random_range 1 15 raw ltac:(lia)).
  pose proof (ArduinoFacts.random_range 25 30 raw ltac:(lia)).
  pose proof (ArduinoFacts.random_range 49 63 raw ltac:(lia)).
  unfold AUTO_HAPPY_START, AUTO_HAPPY_END, AUTO_SAD_START, AUTO_SAD_END,
    AUTO_TALK_START, AUTO_TALK_END.
  change (14 + 1) with 15. change (29 + 1) with 30. change (62 + 1) with 63.
  destruct (c =? 0); [lia|]. destruct (c =? 1); lia.
Qed.

Lemma runDomeAutomation_events now r s :
  bounded s -> Forall eventAllowed (snd (runDomeAutomation now r s)).
Proof.
  intros [Off Speed]. unfold runDomeAutomation.
  destruct (domeMoving s).
  { destruct (domeEndTime s <=? now); [|constructor].
    constructor; [left; reflexivity|constructor]. }
  destruct ((usub now (lastMoveTime s) <? nextMoveDelay s)
            || (usub now (modeEntryTime s) <? modeDelayMillis)).
  { constructor. }
  cbv zeta. fold (lockedSpeed r s).
  pose proof (AutomatedProps.lockedSpeed_range r s Speed) as LS.
  cbn [snd]. constructor; [|constructor]. right.
  assert (0 <= minSpeed) by (unfold minSpeed; lia).
  match goal with
  | |- _ <= Z.abs (?d * _) <= _ => assert (d = -1 \/ d = 1) as Dd
  end.
  { destruct (_ || _).
    - destruct (0 <=? domeOffset s); auto.
    - destruct (random 0 2 (rDirection r) =? 0); auto. }
  destruct Dd as [-> | ->]; lia.
Qed.

Lemma runAutoMP3_events now sup r s :
  Forall eventAllowed (snd (runAutoMP3 now sup r s)).
Proof.
  unfold runAutoMP3.
  destruct (nextMP3Delay s <? usub now (lastMP3Time s)); [|constructor].
  cbv zeta. cbn [snd]. destruct (negb sup); [|constructor].
  constructor; [apply pickTrack_in_bank|constructor].
Qed.

Lemma loopAutomatedMode_events i s :
  bounded s -> Forall eventAllowed (snd (loopAutomatedMode i s)).
Proof.
  intros B. unfold loopAutomatedMode. cbv zeta.
  assert (bounded (noteKillState (killActive i) s)) as B1.
  { destruct (AutomatedProps.noteKillState_keeps_dome (killActive i) s)
      as (E1 & E2 & _).
    unfold bounded. rewrite E1, E2. exact B. }
  destruct (negb (killActive i)); [|constructor].
  pose proof (runDomeAutomation_events (millis_dome i) (domeDraws i) _ B1)
    as E2.
  destruct (runDomeAutomation _ _ _) as [s2 out2]. cbn [snd] in E2.
  pose proof (runAutoMP3_events (millis_mp3 i) (suppressed i) (mp3Draws i) s2)
    as E3.
  destruct (runAutoMP3 _ _ _ s2) as [s3 out3]. cbn [snd] in *.
  apply Forall_app. split; assumption.
Qed.

Lemma run_events ticks : forall s,
  bounded s -> Forall eventAllowed (snd (run ticks s)).
Proof.
  induction ticks as [|i rest IH]; intros s B; [constructor|].
  cbn [run].
  pose proof (AutomatedProps.loopAutomatedMode_bounded i s B) as B1.
  pose proof (loopAutomatedMode_events i s B) as E1.
  destruct (loopAutomatedMode i s) as [s1 out1]. cbn [fst snd] in *.
  specialize (IH s1 B1).
  destruct (run rest s1) as [s2 out2]. cbn [snd] in *.
  apply Forall_app. split; assumption.
Qed.

(** Over every run of automated mode every motor command is a stop or has
    a magnitude between 25 and 32, and every track played lies in one of
    the three banks, which the octal literals of the file make 1 to 14,
    25 to 29 and 49 to 62. *)
Theorem automated_events_allowed (t : Z) (ticks : list Inputs) :
  Forall eventAllowed (snd (run ticks (setupAutomatedMode t initial))).
Proof. apply (run_events ticks _ (AutomatedProps.initial_bounded t)). Qed.

(** *** Spacing of the moves *)

Lemma started_move_schedule now r s :
  domeMoving s = false ->
  domeMoving (fst (runDomeAutomation now r s)) = true ->
  lastMoveTime (fst (runDomeAutomation now r s)) = now
  /\ minDelayMs <= nextMoveDelay (fst (runDomeAutomation now r s)) <= maxDelayMs.
Proof.
  intros M. unfold runDomeAutomation. rewrite M.
  destruct ((usub now (lastMoveTime s) <? nextMoveDelay s)
            || (usub now (modeEntryTime s) <? modeDelayMillis)).
  { cbn [fst]. congruence. }
  cbv zeta. cbn [fst lastMoveTime nextMoveDelay]. intros _.
  split; [reflexivity|].
  pose proof (ArduinoFacts.random_range minDelayMs (maxDelayMs + 1) (rDelay r)
                ltac:(unfold minDelayMs, maxDelayMs; lia)).
  lia.
Qed.

(** Once a call has started a move, no call within 8000 ms of that start
    begins another: while the move is in flight such a call writes at most
    the stop, and after the stop it writes nothing. *)
Theorem moves_spaced (now now' : Z) (r r' : DomeDraws) (s : State) :
  domeMoving s = false ->
  domeMoving (fst (runDomeAutomation now r s)) = true ->
  usub now' now < minDelayMs ->
  (forall p, In (Motor p)
               (snd (runDomeAutomation now' r'
                       (fst (runDomeAutomation now r s)))) -> p = 0)
  /\ snd (runDomeAutomation now' r'
            (finishMove (fst (runDomeAutomation now r s)))) = [].
Proof.
  intros M St Near.
  destruct (started_move_schedule now r s M St) as [L D].
  set (s1 := fst (runDomeAutomation now r s)) in *.
  split.
  - unfold runDomeAutomation at 1. rewrite St.
    destruct (domeEndTime s1 <=? now'); cbn [snd In].
    + intros p [E|[]]. now inversion E.
    + intros p [].
  - unfold runDomeAutomation.
    cbn [finishMove domeMoving lastMoveTime nextMoveDelay modeEntryTime].
    rewrite L.
    destruct (Z.ltb_spec (usub now' now) (nextMoveDelay s1)) as [_|G]; [|lia].
    reflexivity.
Qed.

Lemma moves_spaced_witness :
  domeMoving entered = false
  /\ domeMoving (fst (runDomeAutomation 3000 (domeDraws start_tick) entered))
     = true
  /\ usub 9000 3000 < minDelayMs
  /\ snd (runDomeAutomation 9000 (domeDraws start_tick)
            (finishMove
               (fst (runDomeAutomation 3000 (domeDraws start_tick) entered))))
     = [].
Proof.
  assert (domeMoving entered = false) as M by reflexivity.
  assert (domeMoving (fst (runDomeAutomation 3000 (domeDraws start_tick)
                             entered)) = true) as St.
  { unfold runDomeAutomation. rewrite M.
    change ((usub 3000 (lastMoveTime entered) <? nextMoveDelay entered)
            || (usub 3000 (modeEntryTime entered) <? modeDelayMillis))
      with false.
    reflexivity. }
  assert (usub 9000 3000 < minDelayMs) as Near by (vm_compute; reflexivity).
  split; [exact M|]. split; [exact St|]. split; [exact Near|].
  exact (proj2 (moves_spaced 3000 9000 (domeDraws start_tick)
                  (domeDraws start_tick) entered M St Near)).
Defined.

End AutomatedExtras.

(** ** Encoder test harness *)

Module EncoderExtras.
Import Arduino EncoderHarness.

(** A change of one pin followed by the change back leaves the count
    where it was; so does an interrupt with no change at all. *)
Theorem encoder_step_and_back (a b : bool) (s : State) :
  lastA s = a \/ lastB s = b ->
  encoderTicks (feed [(a, b); (lastA s, lastB s)] s) = encoderTicks s.
Proof.
  destruct s as [t la lb st ls mr lp]. cbn [lastA lastB].
  intros H. destruct la, lb, a, b; cbn; try lia;
    destruct H; discriminate.
Qed.

Lemma encoder_step_and_back_witness :
  (lastA initial = true \/ lastB initial = false)
  /\ encoderTicks (feed [(true, false); (lastA initial, lastB initial)] initial)
     = encoderTicks initial.
Proof.
  assert (lastA initial = true \/ lastB initial = false) as H
    by (right; reflexivity).
  split; [exact H|exact (encoder_step_and_back true false initial H)].
Defined.

(** One full quadrature cycle, the four single-pin changes in order,
    moves the count by four; the same cycle taken in the other order moves
    it by four the other way. *)
Theorem encoder_full_cycle (s : State) :
  let a := lastA s in
  let b := lastB s in
  let sign := if Bool.eqb a b then 1 else -1 in
  encoderTicks (feed [(negb a, b); (negb a, negb b); (a, negb b); (a, b)] s)
  = encoderTicks s + 4 * sign
  /\ encoderTicks (feed [(a, negb b); (negb a, negb b); (negb a, b); (a, b)] s)
     = encoderTicks s - 4 * sign.
Proof.
  destruct s as [t la lb st ls mr lp]. cbv zeta. cbn [lastA lastB].
  destruct la, lb; cbn; split; lia.
Qed.

(** *** The timed motor run *)

Lemma harness_stopped_stays_stopped times : forall s,
  motorRunning s = false ->
  snd (run times s) = [] /\ motorRunning (fst (run times s)) = false.
Proof.
  induction times as [|t rest IH]; intros s H; [split; [reflexivity|exact H]|].
  cbn [run]. cbv zeta.
  assert (snd (loopAutomatedMode t s) = []
          /\ motorRunning (fst (loopAutomatedMode t s)) = false) as [O M].
  { unfold loopAutomatedMode. cbv zeta. rewrite H. split; reflexivity. }
  destruct (IH _ M) as [O2 M2].
  cbn [fst snd]. rewrite O, O2. split; [reflexivity|exact M2].
Qed.

(** Whatever the times of the calls, the harness writes power 30 some
    number of times, then at most one stop, and nothing after the stop. *)
Theorem harness_single_stop (times : list Z) (s : State) :
  exists n,
    snd (run times s) = repeat 30 n
    \/ (snd (run times s) = repeat 30 n ++ [0]
        /\ motorRunning (fst (run times s)) = false).
Proof.
  revert s. induction times as [|t rest IH]; intros s.
  - exists 0%nat. left. reflexivity.
  - cbn [run]. cbv zeta. cbn [fst snd].
    destruct (motorRunning s) eqn:Mr.
    + destruct (usub t (motorStartTime s) <? 2000) eqn:In2000.
      * destruct (IH (fst (loopAutomatedMode t s))) as [n Hn].
        assert (snd (loopAutomatedMode t s) = [30]
                \/ snd (loopAutomatedMode t s) = []) as [O|O].
        { unfold loopAutomatedMode. cbv zeta. rewrite Mr, In2000.
          cbn [andb negb snd].
          destruct (50 <? usub t (lastMotorSend s)); auto. }
        -- exists (S n). rewrite O. cbn [app repeat].
           destruct Hn as [Hn|[Hn Hm]]; [left|right];
             rewrite Hn; [reflexivity|split; [reflexivity|exact Hm]].
        -- exists n. rewrite O. exact Hn.
      * assert (snd (loopAutomatedMode t s) = [0]
                /\ motorRunning (fst (loopAutomatedMode t s)) = false)
          as [O M].
        { unfold loopAutomatedMode. cbv zeta. rewrite Mr, In2000.
          split; reflexivity. }
        destruct (harness_stopped_stays_stopped rest _ M) as [O2 M2].
        exists 0%nat. right. rewrite O, O2. split; [reflexivity|exact M2].
    + destruct (harness_stopped_stays_stopped (t :: rest) s Mr) as [O2 M2].
      cbn [run] in O2. cbv zeta in O2. cbn [fst snd] in O2.
      exists 0%nat. left. exact O2.
Qed.

End EncoderExtras.

(** ** Mode status LED *)

Module LedExtras.
Import Arduino MainSketch LedRuns.

Lemma updateLEDPattern_settled mode now l :
  0 <= mode -> ledSettled l -> ledSettled (fst (updateLEDPattern mode now l)).
Proof.
  intros Hm [[C0 C1] Off]. unfold updateLEDPattern. cbv zeta.
  destruct ((currentBlinkTotal l <=? blinkCount l)
            && (cycleDelay <=? usub now (lastBlinkTime l))).
  - cbn [blinkCount currentBlinkTotal lastBlinkTime ledState].
    rewrite ArduinoFacts.usub_self.
    change (blinkDelay <=? 0) with false. rewrite andb_false_r.
    cbn [fst]. unfold ledSettled. cbn. repeat split; lia.
  - destruct (Z.ltb_spec (blinkCount l) (currentBlinkTotal l)) as [Lt|Ge];
      cbn [andb].
    + destruct (blinkDelay <=? usub now (lastBlinkTime l)).
      * cbn [fst]. unfold ledSettled. cbn.
        destruct (ledState l); cbn; repeat split; try lia.
      * cbn [fst]. unfold ledSettled. repeat split; [lia|lia|exact Off].
    + cbn [fst]. unfold ledSettled. repeat split; [lia|lia|exact Off].
Qed.

(** Between blink cycles the LED is off: over every sequence of calls,
    the count of blinks never exceeds the total of the cycle, and whenever
    it has reached the total the LED state is off. *)
Theorem led_off_between_cycles (calls : list (Z * Z)) (l : Led) :
  Forall (fun c => 0 <= fst c) calls -> ledSettled l ->
  ledSettled (fst (ledRun calls l)).
Proof.
  revert l. induction calls as [|[mode now] rest IH]; intros l Hc S;
    [exact S|].
  inversion Hc as [|? ? Hm Hrest]; subst. cbn [fst] in Hm.
  cbn [ledRun]. cbv zeta. cbn [fst].
  apply IH; [exact Hrest|].
  now apply updateLEDPattern_settled.
Qed.

Lemma led_off_between_cycles_witness :
  Forall (fun c => 0 <= fst c) [(3, 2000); (3, 2150); (3, 2300)]
  /\ ledSettled initialLed
  /\ ledSettled (fst (ledRun [(3, 2000); (3, 2150); (3, 2300)] initialLed)).
Proof.
  assert (Forall (fun c : Z * Z => 0 <= fst c)
            [(3, 2000); (3, 2150); (3, 2300)]) as Hc
    by (repeat constructor; cbn; lia).
  assert (ledSettled initialLed) as S
    by (unfold ledSettled; cbn; repeat split; lia).
  split; [exact Hc|]. split; [exact S|].
  exact (led_off_between_cycles _ initialLed Hc S).
Defined.

(** A call writes the LED pin at most once: the call that opens a cycle
    never also starts the first blink. *)
Theorem led_written_at_most_once (mode now : Z) (l : Led) :
  (length (snd (updateLEDPattern mode now l)) <= 1)%nat.
Proof.
  unfold updateLEDPattern. cbv zeta.
  destruct ((currentBlinkTotal l <=? blinkCount l)
            && (cycleDelay <=? usub now (lastBlinkTime l))).
  - cbn [blinkCount currentBlinkTotal lastBlinkTime ledState].
    rewrite ArduinoFacts.usub_self.
    change (blinkDelay <=? 0) with false. rewrite andb_false_r.
    cbn. lia.
  - destruct ((blinkCount l <? currentBlinkTotal l)
              && (blinkDelay <=? usub now (lastBlinkTime l))); cbn; lia.
Qed.

End LedExtras.
